(** * scqubits: the custom-circuit core ([core/circuit.py], [core/circuit_utils.py])

    A shallow embedding of the parts of the hierarchical circuit engine that
    the specification talks about: the elementary operator factories of
    [circuit_utils.py], the variable categorisation performed while a
    [Subsystem] is built, and the configuration life cycle of [Circuit]
    ([configure], [_configure], [_configure_sym_hamiltonian],
    [set_discretized_phi_range], [serialize]/[deserialize]).

    Conventions.
    - Python [int] is [Z]; Python [float] is idealised as a real number [R]
      and [complex] as a pair of reals; [np.cos]/[np.sin] are the real
      functions applied elementwise.
    - A Python [str] is the list of its Unicode code points.
    - A matrix (sparse or dense alike) is the list of its rows.
    - A method that mutates [self] and may raise is a function from the state
      before the call to the state at the moment the call ends, paired with
      either the returned value or the exception that left the call; the
      mutations made before an exception stay visible, as in Python. *)

From Stdlib Require Import ZArith List Reals Lra Lia Bool.
From stdpp Require Import base option list gmap strings sorting.

Set Default Proof Using "Type".

(** ** Matrices as lists of rows *)

Module Mat.

Definition matrix (A : Type) := list (list A).

(** The [n] by [m] matrix whose entry at row [i], column [j] is [f i j]. *)
Definition tabulate {A} (n m : nat) (f : nat -> nat -> A) : matrix A :=
  map (fun i => map (fun j => f i j) (seq 0 m)) (seq 0 n).

(** Entry at row [i], column [j]; [d] outside the matrix. *)
Definition entry {A} (d : A) (M : matrix A) (i j : nat) : A :=
  nth j (nth i M []) d.

Definition nrows {A} (M : matrix A) : nat := length M.

(** Every row has [m] entries. *)
Definition ncols_are {A} (m : nat) (M : matrix A) : Prop :=
  Forall (fun row => length row = m) M.

Definition map2 {A B C} (f : A -> B -> C) (M : matrix A) (N : matrix B) : matrix C :=
  zip_with (zip_with f) M N.

Definition mapm {A B} (f : A -> B) (M : matrix A) : matrix B :=
  map (map f) M.

End Mat.

(** ** Complex numbers as pairs of reals *)

Module Cplx.

Record C : Type := mkC { re : R; im : R }.

Definition of_real (x : R) : C := mkC x 0.
Definition mul (a b : C) : C :=
  mkC (re a * re b - im a * im b) (re a * im b + im a * re b).
(** The literal [-1j]. *)
Definition neg_j : C := mkC 0 (-1).

End Cplx.

(** ** [core/circuit_utils.py] *)

Module circuit_utils.
Import Mat Cplx.

(** A Python string: its code points. *)
Definition pystr := list N.

(** Code point of the line feed, the only character [$] may leave behind. *)
Definition LF : N := 10%N.

(** The decimal digits of the ASCII range. The pattern class [\d] of a [str]
    pattern accepts every code point of Unicode category Nd; the table of
    that category belongs to the interpreter, so the functions below take the
    digit table [dec] (code point to decimal value) as an argument, and
    [ascii_decimal] is the table restricted to ['0'..'9']. *)
Definition ascii_decimal (c : N) : option Z :=
  if ((48 <=? c) && (c <=? 57))%N then Some (Z.of_N c - 48)%Z else None.

Definition is_digit (dec : N -> option Z) (c : N) : bool :=
  match dec c with Some _ => true | None => false end.

(** Longest prefix of digits of a string read backwards. *)
Fixpoint take_digits (dec : N -> option Z) (r : list N) : list N :=
  match r with
  | c :: r' => if is_digit dec c then c :: take_digits dec r' else []
  | [] => []
  end.

(** [re.search(r"\d+$", input_str)]: the matched text, if any. The search is
    leftmost and [\d+] is greedy, so a match is the whole run of digits that
    stops where [$] holds: at the end of the string, or just before a line
    feed that is the last character. *)
Definition search_trailing_digits (dec : N -> option Z) (s : pystr) : option pystr :=
  match take_digits dec (rev s) with
  | c :: ds => Some (rev (c :: ds))
  | [] =>
      match rev s with
      | c :: r' =>
          if (c =? LF)%N then
            match take_digits dec r' with
            | d :: ds => Some (rev (d :: ds))
            | [] => None
            end
          else None
      | [] => None
      end
  end.

(** [int(text)] for a text made of decimal digits. *)
Definition int_of_digits (dec : N -> option Z) (ds : pystr) : Z :=
  fold_left (fun acc c => (10 * acc + default 0 (dec c))%Z) ds 0%Z.

(** [get_trailing_number]: [int(match.group()) if match else None]. *)
Definition get_trailing_number (dec : N -> option Z) (input_str : pystr) : option Z :=
  match search_trailing_digits dec input_str with
  | Some text => Some (int_of_digits dec text)
  | None => None
  end.

(** A name carries a trailing integer index when it ends in a non-empty run
    of decimal digits; as for the pattern, a final line feed after the
    digits is not counted. *)
Definition has_trailing_index (dec : N -> option Z) (name : pystr) : Prop :=
  exists stem digits,
    digits <> []
    /\ Forall (fun c => is_digit dec c = true) digits
    /\ (name = stem ++ digits \/ name = stem ++ digits ++ [LF]).

(** *** Discretised flux grid *)

Record Grid1d : Type := mkGrid { min_val : R; max_val : R; pt_count : nat }.

(** Modelled from the spec: [Grid1d.make_linspace] ([core/discretization.py]
    is not among the sources). The grid provider is given a lower bound, an
    upper bound and a point count; the coordinates are [pt_count] evenly
    spaced points from [min_val] to [max_val], both included. *)
Definition make_linspace (grid : Grid1d) : list R :=
  map (fun i => min_val grid
                + INR i * ((max_val grid - min_val grid) / INR (pt_count grid - 1)))%R
      (seq 0 (pt_count grid)).

(** [sparse.dia_matrix((n, n))] followed by [setdiag(values)]: the values on
    the main diagonal, zero elsewhere. *)
Definition setdiag (n : nat) (values : list R) : matrix R :=
  tabulate n n (fun i j => if Nat.eqb i j then nth i values 0%R else 0%R).

Definition _identity_phi (grid : Grid1d) : matrix R :=
  tabulate (pt_count grid) (pt_count grid) (fun i j => if Nat.eqb i j then 1%R else 0%R).

Definition _phi_operator (grid : Grid1d) : matrix R :=
  let pt_count := pt_count grid in
  let diag_elements := make_linspace grid in
  setdiag pt_count diag_elements.

Definition _cos_phi (grid : Grid1d) : matrix R :=
  let pt_count := pt_count grid in
  let diag_elements := map cos (make_linspace grid) in
  setdiag pt_count diag_elements.

(** As in the source, the diagonal is filled with [np.cos] here too. *)
Definition _sin_phi (grid : Grid1d) : matrix R :=
  let pt_count := pt_count grid in
  let diag_elements := map cos (make_linspace grid) in
  setdiag pt_count diag_elements.

(** *** Charge basis of a periodic variable *)

(** [sparse.dia_matrix((data, [offset]), shape=(dim, dim))]: in the DIA
    format the stored value of column [j] sits at row [j - offset]. *)
Definition dia_matrix {A} (zero : A) (data : list A) (offset : Z) (dim : nat) : matrix A :=
  tabulate dim dim
    (fun i j => if (Z.of_nat j - Z.of_nat i =? offset)%Z then nth j data zero else zero).

(** [np.arange(lo, hi)]. *)
Definition arange (lo hi : Z) : list Z :=
  map (fun k => (lo + Z.of_nat k)%Z) (seq 0 (Z.to_nat (hi - lo))).

(** [np.ones(n)]. *)
Definition ones (n : nat) : list R := repeat 1%R n.

Definition _identity_theta (ncut : Z) : matrix R :=
  let dim_theta := Z.to_nat (2 * ncut + 1) in
  tabulate dim_theta dim_theta (fun i j => if Nat.eqb i j then 1%R else 0%R).

Definition _n_theta_operator (ncut : Z) : matrix Z :=
  let dim_theta := Z.to_nat (2 * ncut + 1) in
  let diag_elements := arange (- ncut) (ncut + 1) in
  dia_matrix 0%Z diag_elements 0 dim_theta.

Definition _exp_i_theta_operator (ncut : Z) : matrix R :=
  let dim_theta := Z.to_nat (2 * ncut + 1) in
  dia_matrix 0%R (ones dim_theta) 1 dim_theta.

Definition _exp_i_theta_operator_conjugate (ncut : Z) : matrix R :=
  let dim_theta := Z.to_nat (2 * ncut + 1) in
  dia_matrix 0%R (ones dim_theta) (-1) dim_theta.

Definition _cos_theta (ncut : Z) : matrix R :=
  mapm (Rmult (1/2))
       (map2 Rplus (_exp_i_theta_operator ncut) (_exp_i_theta_operator_conjugate ncut)).

Definition _sin_theta (ncut : Z) : matrix C :=
  mapm (fun x => mul (mul neg_j (of_real (1/2))) (of_real x))
       (map2 Rminus (_exp_i_theta_operator ncut) (_exp_i_theta_operator_conjugate ncut)).

End circuit_utils.

(** ** Python run-time conventions: truthiness, exceptions, mutation *)

Module Py.

(** The helper methods that [Circuit] and [Subsystem] inherit from
    [CircuitRoutines] ([core/circuit_routines.py]), the property registry
    behind [_make_property], and the central dispatch are outside the
    sources. Each call site of such a routine is named by one tag. *)
Inductive routine : Type :=
| update_ext_basis            (* handler run by a write to the [ext_basis] property *)
| init_cutoff_properties      (* the [_make_property] loops over cutoff names *)
| init_param_properties       (* the [_make_property] loop over symbolic parameters *)
| init_flux_properties        (* the [_make_property] loop over external fluxes *)
| init_charge_properties      (* the [_make_property] loop over offset charges *)
| _set_vars
| generate_hamiltonian_sym_for_numerics
| set_operators
| generate_subsystems
| update_interactions
| _check_truncation_indices
| update
| _diagonalize_purely_harmonic_hamiltonian
| dispatch_register
| symbolic_circuit_configure  (* [SymbolicCircuit.configure] *)
| from_yaml                   (* [SymbolicCircuit.from_yaml] *)
| generate_symbolic_hamiltonian
| _shift_harmonic_oscillator_potential
| frozen_setattr.             (* [__setattr__] of a frozen instance *)

Inductive Exn : Type :=
| ConfigureFailed                 (* RuntimeError: Configure failed due to incorrect parameters. *)
| TruncDimsNotSet                 (* Exception: truncated dimensions ... is not set. *)
| NotDiscretizedBasis             (* Exception: Discretized phi range is only used when ... *)
| NotExtendedVariable (var_index : Z)  (* Exception: Variable with index ... is not an extended variable. *)
| KeyError (key : string)
| AttributeError (name : string)
| UnboundLocalError (name : string)
| TypeError
| InvalidBasisCompletion          (* Exception: Invalid choice for basis_completion ... *)
| RoutineError (who : routine).   (* whatever exception leaves that outside routine *)

Inductive Warning : Type :=
| PurelyHarmonicNeedsHarmonic.    (* Purely harmonic circuits need ext_basis to be set to 'harmonic' *)

(** [bool(x)] for a value that is [None] or a list. *)
Definition truthy {A} (x : option (list A)) : bool :=
  match x with Some (_ :: _) => true | _ => false end.

(** [a or b]. *)
Definition py_or {A} (a b : option (list A)) : option (list A) :=
  if truthy a then a else b.

(** A method body run on a mutable object of type [S]. *)
Definition M (S A : Type) : Type := S -> S * (Exn + A).

Definition ret {S A} (a : A) : M S A := fun s => (s, inr a).
Definition raise {S A} (e : Exn) : M S A := fun s => (s, inl e).
Definition bind {S A B} (m : M S A) (k : A -> M S B) : M S B :=
  fun s => match m s with
           | (s', inr a) => k a s'
           | (s', inl e) => (s', inl e)
           end.
Definition get {S} : M S S := fun s => (s, inr s).
Definition modify {S} (f : S -> S) : M S unit := fun s => (f s, inr tt).

(** [try: body  except: handler] with a bare [except]: every exception of
    the body is caught and the handler continues from the state the body
    left behind. *)
Definition try_except {S A} (body handler : M S A) : M S A :=
  fun s => match body s with
           | (s', inl _) => handler s'
           | done => done
           end.

(** Running a [for] loop whose body may raise. *)
Fixpoint for_each {S A} (l : list A) (body : A -> M S unit) : M S unit :=
  match l with
  | [] => ret tt
  | x :: l' => bind (body x) (fun _ => for_each l' body)
  end.

(** A property of the object that holds at the end of a method body,
    however it ends, if it held at the start. *)
Definition maintains {S A} (I : S -> Prop) (m : M S A) : Prop :=
  forall s, I s -> I (m s).1.

(** The method body never returns: it leaves by an exception. *)
Definition always_raises {S A} (m : M S A) : Prop :=
  forall s, exists s' e, m s = (s', inl e).

(** Every exception that leaves the method body satisfies [P]. *)
Definition raises_only {S A} (P : Exn -> Prop) (m : M S A) : Prop :=
  forall s s' e, m s = (s', inl e) -> P e.

End Py.

Declare Scope py_scope.
Delimit Scope py_scope with py.
Notation "'let*' x ':=' m 'in' k" := (Py.bind m (fun x => k))
  (at level 10, x name, m at level 100, k at level 200) : py_scope.
Notation "m '>>' k" := (Py.bind m (fun _ => k))
  (at level 100, k at level 200, right associativity) : py_scope.

(** ** Values shared by [Circuit] and [Subsystem] *)

Module Hier.

(** [RecursiveList = List[Union[int, "RecursiveList"]]]. *)
#[warnings="-register-all"]
Inductive item : Type :=
| Int (z : Z)
| Nested (l : list item).

Definition RecursiveList := list item.

Definition is_list (x : item) : bool :=
  match x with Nested _ => true | Int _ => false end.

(** Modelled from the spec: [number_of_lists_in_list] ([utils/misc.py] is
    not among the sources): the number of entries of a hierarchy that are
    themselves lists, the entries the partitioner builds one child for. *)
Definition number_of_lists_in_list (l : RecursiveList) : nat :=
  length (filter (fun x => is_list x = true) l).

(** Modelled from the spec: [flatten_list] ([utils/misc.py] is not among the
    sources): the concatenation of a list of lists. *)
Definition flatten_list {A} (l : list (list A)) : list A := concat l.

(** The shape a truncation entry must have for a hierarchy entry (spec,
    partitioner): an integer for a flat index list, and for a nested entry
    a pair of the combined dimension and the nested specification. *)
Fixpoint entry_same_shape (h t : item) : bool :=
  match h, t with
  | Nested l, Int _ => forallb (fun x => negb (is_list x)) l
  | Nested l, Nested [Int _; Nested nested_spec] =>
      existsb is_list l
      && (fix go (hs ts : list item) : bool :=
            match hs, ts with
            | [], [] => true
            | h' :: hs', t' :: ts' => entry_same_shape h' t' && go hs' ts'
            | _, _ => false
            end) l nested_spec
  | _, _ => false
  end.

Fixpoint list_same_shape (hs ts : list item) : bool :=
  match hs, ts with
  | [], [] => true
  | h :: hs', t :: ts' => entry_same_shape h t && list_same_shape hs' ts'
  | _, _ => false
  end.

(** [system_hierarchy] and [subsystem_trunc_dims] share their nested shape. *)
Definition same_shape (system_hierarchy subsystem_trunc_dims : option RecursiveList) : bool :=
  match system_hierarchy, subsystem_trunc_dims with
  | Some hs, Some ts => list_same_shape hs ts
  | None, None => true
  | _, _ => false
  end.

Inductive ExtBasis : Type := discretized | harmonic.
Inductive MatrixKind : Type := sparse | dense.

Global Instance ExtBasis_eq_dec : EqDecision ExtBasis.
Proof. solve_decision. Defined.
Global Instance MatrixKind_eq_dec : EqDecision MatrixKind.
Proof. solve_decision. Defined.

(** A [Dict[str, List[int]]] in insertion order. *)
Definition categories := list (string * list Z).

(** [d[key]]. *)
Fixpoint lookup_category (key : string) (d : categories) : option (list Z) :=
  match d with
  | (k, v) :: d' => if String.eqb k key then Some v else lookup_category key d'
  | [] => None
  end.

(** [flatten_list(d.values())]. *)
Definition all_indices (d : categories) : list Z := flatten_list (map snd d).

End Hier.

(** ** [class Subsystem] of [core/circuit.py] *)

Module Subsystem.
Import circuit_utils Hier.

(** The names [f"cutoff_n_{i}"] and [f"cutoff_ext_{i}"]. *)
Inductive CutoffName : Type :=
| cutoff_n (var_index : Z)
| cutoff_ext (var_index : Z).

Section defs.
Context {Expr X : Type}.

(** What [__init__] reads from [self.parent], which is a [Circuit] or a
    [Subsystem]. [parent_state] stands for the attributes made by
    [_make_property], read with [getattr(self.parent, name)]. *)
Record Parent : Type := mkParent {
  parent_ext_basis : ExtBasis;
  parent_var_categories : categories;
  parent_discretized_phi_range : gmap Z (R * R);
  parent_state : X
}.

(** The attributes of a [Subsystem] that the modelled code reads or
    writes. The attributes that only the outside routines read
    ([external_fluxes], [offset_charges], [symbolic_params],
    [potential_symbolic], [_default_grid_phi], [operators_by_name],
    [subsystems], the slots made by [_make_property], ...) are part of
    [routines_state], which starts from the parent's. *)
Record t : Type := mk {
  parent : Parent;
  hamiltonian_symbolic : Expr;
  system_hierarchy : RecursiveList;
  subsystem_trunc_dims : option RecursiveList;
  truncated_dim : option Z;
  ext_basis : ExtBasis;                       (* the property backed by [_ext_basis] *)
  var_index_list : list Z;
  var_categories : categories;
  cutoff_names : list CutoffName;
  discretized_phi_range : gmap Z (R * R);
  hierarchical_diagonalization : bool;
  type_of_matrices : MatrixKind;
  is_purely_harmonic : bool;                  (* set by [_configure] *)
  routines_state : X                          (* everything the outside routines own *)
}.

(** The collaborators outside the sources. [call_routine r self] is the
    state the routine [r] leaves in the attributes it owns, and whether it
    raised. *)
Record Env : Type := mkEnv {
  unicode_decimal : N -> option Z;
  operator_names_in_hamiltonian_symbolic : Expr -> list pystr;
  _is_expression_purely_harmonic : Expr -> bool;
  call_routine : Py.routine -> t -> X * bool
}.

Definition upd_ext_basis (v : ExtBasis) (s : t) : t :=
  mk (parent s) (hamiltonian_symbolic s) (system_hierarchy s) (subsystem_trunc_dims s)
     (truncated_dim s) v (var_index_list s) (var_categories s) (cutoff_names s)
     (discretized_phi_range s) (hierarchical_diagonalization s) (type_of_matrices s)
     (is_purely_harmonic s) (routines_state s).

Definition upd_is_purely_harmonic (v : bool) (s : t) : t :=
  mk (parent s) (hamiltonian_symbolic s) (system_hierarchy s) (subsystem_trunc_dims s)
     (truncated_dim s) (ext_basis s) (var_index_list s) (var_categories s) (cutoff_names s)
     (discretized_phi_range s) (hierarchical_diagonalization s) (type_of_matrices s)
     v (routines_state s).

Definition upd_routines_state (v : X) (s : t) : t :=
  mk (parent s) (hamiltonian_symbolic s) (system_hierarchy s) (subsystem_trunc_dims s)
     (truncated_dim s) (ext_basis s) (var_index_list s) (var_categories s) (cutoff_names s)
     (discretized_phi_range s) (hierarchical_diagonalization s) (type_of_matrices s)
     (is_purely_harmonic s) v.

Variable env : Env.

(** A call of an outside routine as a step of a method body. *)
Definition call (r : Py.routine) : Py.M t unit :=
  fun s => match call_routine env r s with
           | (x, false) => (upd_routines_state x s, inr tt)
           | (x, true) => (upd_routines_state x s, inl (Py.RoutineError r))
           end.

(** One turn of the loop over [operator_names_in_hamiltonian_symbolic()]:
    [if var_index not in self.var_index_list and var_index is not None:
    self.var_index_list.append(var_index)]. *)
Definition add_var_index (acc : list Z) (var_name : pystr) : list Z :=
  match get_trailing_number (unicode_decimal env) var_name with
  | Some var_index => if decide (var_index ∈ acc) then acc else acc ++ [var_index]
  | None => acc
  end.

(** The loop, then [self.var_index_list.sort()]. *)
Definition collect_var_indices (names : list pystr) : list Z :=
  merge_sort Z.le (fold_left add_var_index names []).

(** [{var_type: [i for i in parent.var_categories[var_type] if i in
    self.var_index_list] for var_type in parent.var_categories}]. *)
Definition filter_categories (parent_categories : categories) (indices : list Z) : categories :=
  map (fun kv => (kv.1, filter (fun var_index => var_index ∈ indices) kv.2)) parent_categories.

(** The loop over [self.var_categories.keys()] that names the cutoffs. *)
Definition make_cutoff_names (d : categories) : list CutoffName :=
  flat_map (fun kv =>
              (if String.eqb kv.1 "periodic"
               then map cutoff_n (default [] (lookup_category "periodic" d)) else [])
              ++
              (if String.eqb kv.1 "extended"
               then map cutoff_ext (default [] (lookup_category "extended" d)) else []))
           d.

Local Open Scope py_scope.

(** [Subsystem._configure]. *)
Definition _configure : Py.M t unit :=
  call Py.init_param_properties >>
  call Py.init_flux_properties >>
  call Py.init_charge_properties >>
  call Py.init_cutoff_properties >>
  let* self := Py.get in
  (if _is_expression_purely_harmonic env (hamiltonian_symbolic self) then
     Py.modify (upd_is_purely_harmonic true) >>
     Py.modify (upd_ext_basis harmonic) >>
     call Py._diagonalize_purely_harmonic_hamiltonian
   else
     Py.modify (upd_is_purely_harmonic false)) >>
  call Py._set_vars >>
  call Py.generate_hamiltonian_sym_for_numerics >>
  let* self := Py.get in
  (if hierarchical_diagonalization self then
     call Py.generate_subsystems >>
     call Py.update_interactions >>
     call Py._check_truncation_indices >>
     call Py.set_operators
   else
     call Py.set_operators) >>
  let* self := Py.get in
  (if hierarchical_diagonalization self then call Py.dispatch_register else Py.ret tt).

(** The object as [__init__] has filled it in just before it calls
    [self._configure()]. A hierarchy that is [None] cannot be counted by
    [number_of_lists_in_list]; the callers of the constructor pass the
    hierarchy entry of the child, which is a list. *)
Definition before_configure (parent : Parent) (hamiltonian_symbolic : Expr)
    (system_hierarchy : RecursiveList) (subsystem_trunc_dims : option RecursiveList)
    (truncated_dim : option Z) : t :=
  let ext_basis := parent_ext_basis parent in
  let var_index_list :=
    collect_var_indices (operator_names_in_hamiltonian_symbolic env hamiltonian_symbolic) in
  let var_categories := filter_categories (parent_var_categories parent) var_index_list in
  let cutoff_names := make_cutoff_names var_categories in
  let discretized_phi_range :=
    filter (fun kv => kv.1 ∈ var_index_list) (parent_discretized_phi_range parent) in
  let hierarchical_diagonalization :=
    bool_decide (0 < number_of_lists_in_list system_hierarchy)%nat in
  let type_of_matrices :=
    if bool_decide (length var_index_list = 1%nat) && bool_decide (ext_basis = harmonic)
    then dense else sparse in
  mk parent hamiltonian_symbolic system_hierarchy subsystem_trunc_dims truncated_dim
     ext_basis var_index_list var_categories cutoff_names discretized_phi_range
     hierarchical_diagonalization type_of_matrices false (parent_state parent).

(** [Subsystem.__init__]: the constructed object, or the exception. *)
Definition __init__ (parent : Parent) (hamiltonian_symbolic : Expr)
    (system_hierarchy : option RecursiveList) (subsystem_trunc_dims : option RecursiveList)
    (truncated_dim : option Z) : Py.Exn + t :=
  match system_hierarchy with
  | None => inl Py.TypeError
  | Some hierarchy =>
      match _configure (before_configure parent hamiltonian_symbolic hierarchy
                          subsystem_trunc_dims truncated_dim) with
      | (self, inr _) => inr self
      | (_, inl e) => inl e
      end
  end.

End defs.

Arguments Parent : clear implicits.
Arguments t : clear implicits.
Arguments Env : clear implicits.

End Subsystem.

(** ** [class Circuit] of [core/circuit.py] *)

Module Circuit.
Import Mat circuit_utils Hier.

Global Instance R_eq_dec : EqDecision R := Req_dec_T.

(** A value of [Branch.parameters]: a symbol (kept by its name) or a number. *)
Inductive BranchParam : Type :=
| Symbol (name : pystr)
| Number (value : R).

Global Instance BranchParam_eq_dec : EqDecision BranchParam.
Proof. solve_decision. Defined.

(** What the code reads of a [Branch]: the indices of its two nodes, its
    type and its parameters. *)
Record Branch : Type := mkBranch {
  branch_nodes : Z * Z;
  branch_type : string;
  parameters : list (string * BranchParam)
}.

Global Instance Branch_eq_dec : EqDecision Branch.
Proof. solve_decision. Defined.

(** [(-6 * np.pi, 6 * np.pi)]. *)
Definition default_phi_range : R * R := (-6 * PI, 6 * PI)%R.

Section defs.
Context {Expr X : Type}.

(** What the code reads of [self.symbolic_circuit], an instance of
    [SymbolicCircuit] ([core/symbolic_circuit.py] is outside the sources). *)
Record SymbolicCircuit : Type := mkSym {
  is_flux_dynamic : bool;
  basis_completion : string;
  input_string : pystr;
  nodes : list Z;
  branches : list Branch;
  sym_transformation_matrix : option (matrix R);
  sym_closure_branches : option (list Branch);
  sym_var_categories : categories;
  sym_is_purely_harmonic : bool;
  sym_hamiltonian_symbolic : Expr
}.

(** The attributes of a [Circuit] that the modelled methods read or write.
    The attributes that only the outside routines read (the other
    attributes copied from the symbolic circuit, [operators_by_name],
    [affected_subsystem_indices], [subsystems], [cutoff_names], [_frozen],
    the slots made by [_make_property], ...) are part of [routines_state],
    and assignments to them are not written out. An attribute that does not
    exist yet holds a default that its first assignment replaces. *)
Record t : Type := mk {
  symbolic_circuit : option SymbolicCircuit;  (* [hasattr(self, 'symbolic_circuit')] is [Some] *)
  hamiltonian_symbolic : Expr;
  system_hierarchy : option RecursiveList;
  subsystem_trunc_dims : option RecursiveList;
  transformation_matrix : option (matrix R);
  closure_branches : option (list Branch);
  var_categories : categories;
  var_index_list : list Z;
  ext_basis : ExtBasis;  (* the property backed by [_ext_basis] *)
  is_purely_harmonic : bool;
  hierarchical_diagonalization : bool;
  type_of_matrices : MatrixKind;
  discretized_phi_range : gmap Z (R * R);
  truncated_dim : Z;
  _transformation_matrix : option (option (matrix R));  (* made by [deserialize]; [None]: no such attribute *)
  warnings : list Py.Warning;  (* what [warnings.warn] has issued, oldest first *)
  routines_state : X  (* everything the outside routines own *)
}.

Definition upd_symbolic_circuit (v : option SymbolicCircuit) (s : t) : t :=
  mk v (hamiltonian_symbolic s) (system_hierarchy s) (subsystem_trunc_dims s)
     (transformation_matrix s) (closure_branches s) (var_categories s) (var_index_list
     s) (ext_basis s) (is_purely_harmonic s) (hierarchical_diagonalization s)
     (type_of_matrices s) (discretized_phi_range s) (truncated_dim s)
     (_transformation_matrix s) (warnings s) (routines_state s).

Definition upd_hamiltonian_symbolic (v : Expr) (s : t) : t :=
  mk (symbolic_circuit s) v (system_hierarchy s) (subsystem_trunc_dims s)
     (transformation_matrix s) (closure_branches s) (var_categories s) (var_index_list
     s) (ext_basis s) (is_purely_harmonic s) (hierarchical_diagonalization s)
     (type_of_matrices s) (discretized_phi_range s) (truncated_dim s)
     (_transformation_matrix s) (warnings s) (routines_state s).

Definition upd_system_hierarchy (v : option RecursiveList) (s : t) : t :=
  mk (symbolic_circuit s) (hamiltonian_symbolic s) v (subsystem_trunc_dims s)
     (transformation_matrix s) (closure_branches s) (var_categories s) (var_index_list
     s) (ext_basis s) (is_purely_harmonic s) (hierarchical_diagonalization s)
     (type_of_matrices s) (discretized_phi_range s) (truncated_dim s)
     (_transformation_matrix s) (warnings s) (routines_state s).

Definition upd_subsystem_trunc_dims (v : option RecursiveList) (s : t) : t :=
  mk (symbolic_circuit s) (hamiltonian_symbolic s) (system_hierarchy s) v
     (transformation_matrix s) (closure_branches s) (var_categories s) (var_index_list
     s) (ext_basis s) (is_purely_harmonic s) (hierarchical_diagonalization s)
     (type_of_matrices s) (discretized_phi_range s) (truncated_dim s)
     (_transformation_matrix s) (warnings s) (routines_state s).

Definition upd_transformation_matrix (v : option (matrix R)) (s : t) : t :=
  mk (symbolic_circuit s) (hamiltonian_symbolic s) (system_hierarchy s)
     (subsystem_trunc_dims s) v (closure_branches s) (var_categories s) (var_index_list
     s) (ext_basis s) (is_purely_harmonic s) (hierarchical_diagonalization s)
     (type_of_matrices s) (discretized_phi_range s) (truncated_dim s)
     (_transformation_matrix s) (warnings s) (routines_state s).

Definition upd_closure_branches (v : option (list Branch)) (s : t) : t :=
  mk (symbolic_circuit s) (hamiltonian_symbolic s) (system_hierarchy s)
     (subsystem_trunc_dims s) (transformation_matrix s) v (var_categories s)
     (var_index_list s) (ext_basis s) (is_purely_harmonic s)
     (hierarchical_diagonalization s) (type_of_matrices s) (discretized_phi_range s)
     (truncated_dim s) (_transformation_matrix s) (warnings s) (routines_state s).

Definition upd_var_categories (v : categories) (s : t) : t :=
  mk (symbolic_circuit s) (hamiltonian_symbolic s) (system_hierarchy s)
     (subsystem_trunc_dims s) (transformation_matrix s) (closure_branches s) v
     (var_index_list s) (ext_basis s) (is_purely_harmonic s)
     (hierarchical_diagonalization s) (type_of_matrices s) (discretized_phi_range s)
     (truncated_dim s) (_transformation_matrix s) (warnings s) (routines_state s).

Definition upd_var_index_list (v : list Z) (s : t) : t :=
  mk (symbolic_circuit s) (hamiltonian_symbolic s) (system_hierarchy s)
     (subsystem_trunc_dims s) (transformation_matrix s) (closure_branches s)
     (var_categories s) v (ext_basis s) (is_purely_harmonic s)
     (hierarchical_diagonalization s) (type_of_matrices s) (discretized_phi_range s)
     (truncated_dim s) (_transformation_matrix s) (warnings s) (routines_state s).

Definition upd_ext_basis (v : ExtBasis) (s : t) : t :=
  mk (symbolic_circuit s) (hamiltonian_symbolic s) (system_hierarchy s)
     (subsystem_trunc_dims s) (transformation_matrix s) (closure_branches s)
     (var_categories s) (var_index_list s) v (is_purely_harmonic s)
     (hierarchical_diagonalization s) (type_of_matrices s) (discretized_phi_range s)
     (truncated_dim s) (_transformation_matrix s) (warnings s) (routines_state s).

Definition upd_is_purely_harmonic (v : bool) (s : t) : t :=
  mk (symbolic_circuit s) (hamiltonian_symbolic s) (system_hierarchy s)
     (subsystem_trunc_dims s) (transformation_matrix s) (closure_branches s)
     (var_categories s) (var_index_list s) (ext_basis s) v (hierarchical_diagonalization
     s) (type_of_matrices s) (discretized_phi_range s) (truncated_dim s)
     (_transformation_matrix s) (warnings s) (routines_state s).

Definition upd_hierarchical_diagonalization (v : bool) (s : t) : t :=
  mk (symbolic_circuit s) (hamiltonian_symbolic s) (system_hierarchy s)
     (subsystem_trunc_dims s) (transformation_matrix s) (closure_branches s)
     (var_categories s) (var_index_list s) (ext_basis s) (is_purely_harmonic s) v
     (type_of_matrices s) (discretized_phi_range s) (truncated_dim s)
     (_transformation_matrix s) (warnings s) (routines_state s).

Definition upd_type_of_matrices (v : MatrixKind) (s : t) : t :=
  mk (symbolic_circuit s) (hamiltonian_symbolic s) (system_hierarchy s)
     (subsystem_trunc_dims s) (transformation_matrix s) (closure_branches s)
     (var_categories s) (var_index_list s) (ext_basis s) (is_purely_harmonic s)
     (hierarchical_diagonalization s) v (discretized_phi_range s) (truncated_dim s)
     (_transformation_matrix s) (warnings s) (routines_state s).

Definition upd_discretized_phi_range (v : gmap Z (R * R)) (s : t) : t :=
  mk (symbolic_circuit s) (hamiltonian_symbolic s) (system_hierarchy s)
     (subsystem_trunc_dims s) (transformation_matrix s) (closure_branches s)
     (var_categories s) (var_index_list s) (ext_basis s) (is_purely_harmonic s)
     (hierarchical_diagonalization s) (type_of_matrices s) v (truncated_dim s)
     (_transformation_matrix s) (warnings s) (routines_state s).

Definition upd_truncated_dim (v : Z) (s : t) : t :=
  mk (symbolic_circuit s) (hamiltonian_symbolic s) (system_hierarchy s)
     (subsystem_trunc_dims s) (transformation_matrix s) (closure_branches s)
     (var_categories s) (var_index_list s) (ext_basis s) (is_purely_harmonic s)
     (hierarchical_diagonalization s) (type_of_matrices s) (discretized_phi_range s) v
     (_transformation_matrix s) (warnings s) (routines_state s).

Definition upd_underscore_transformation_matrix (v : option (option (matrix R))) (s : t) : t :=
  mk (symbolic_circuit s) (hamiltonian_symbolic s) (system_hierarchy s)
     (subsystem_trunc_dims s) (transformation_matrix s) (closure_branches s)
     (var_categories s) (var_index_list s) (ext_basis s) (is_purely_harmonic s)
     (hierarchical_diagonalization s) (type_of_matrices s) (discretized_phi_range s)
     (truncated_dim s) v (warnings s) (routines_state s).

Definition upd_warnings (v : list Py.Warning) (s : t) : t :=
  mk (symbolic_circuit s) (hamiltonian_symbolic s) (system_hierarchy s)
     (subsystem_trunc_dims s) (transformation_matrix s) (closure_branches s)
     (var_categories s) (var_index_list s) (ext_basis s) (is_purely_harmonic s)
     (hierarchical_diagonalization s) (type_of_matrices s) (discretized_phi_range s)
     (truncated_dim s) (_transformation_matrix s) v (routines_state s).

Definition upd_routines_state (v : X) (s : t) : t :=
  mk (symbolic_circuit s) (hamiltonian_symbolic s) (system_hierarchy s)
     (subsystem_trunc_dims s) (transformation_matrix s) (closure_branches s)
     (var_categories s) (var_index_list s) (ext_basis s) (is_purely_harmonic s)
     (hierarchical_diagonalization s) (type_of_matrices s) (discretized_phi_range s)
     (truncated_dim s) (_transformation_matrix s) (warnings s) v.

(** The collaborators outside the sources. A routine that may raise tells
    whether it did ([true], or [None] for one that returns a value);
    [call_routine r self] changes only the attributes its routine owns
    ([routines_state]). *)
Record Env : Type := mkEnv {
  unicode_decimal : N -> option Z;
  SYM_INVERSION_MAX_NODES : nat;                       (* [settings.py] *)
  symbolic_circuit_from_yaml : pystr -> string -> bool -> option SymbolicCircuit;
  symbolic_circuit_configure :
    SymbolicCircuit -> option (matrix R) -> option (list (option Branch)) ->
    SymbolicCircuit * bool;
  generate_symbolic_hamiltonian : SymbolicCircuit -> option Expr;
  _shift_harmonic_oscillator_potential : Expr -> option Expr;
  _is_expression_purely_harmonic : Expr -> bool;
  free_symbols : Expr -> list pystr;
  call_routine : Py.routine -> t -> X * bool;
  (* [_clear_unnecessary_attribs] deletes the attributes named like a
     cutoff, an external flux or an offset charge that are not in use any
     more: attributes made by [_make_property], held in [routines_state]. *)
  delete_stale_properties : t -> X;
  (* the attributes of the outside routines on a new instance *)
  fresh_state : X;
  (* [setattr(circuit, "_" + name, value)] for the stored property values *)
  restore_properties : X -> t -> X
}.

Variable env : Env.

Local Open Scope py_scope.

Definition call (r : Py.routine) : Py.M t unit :=
  fun s => match call_routine env r s with
           | (x, false) => (upd_routines_state x s, inr tt)
           | (x, true) => (upd_routines_state x s, inl (Py.RoutineError r))
           end.

(** [warnings.warn(...)]. *)
Definition warn (w : Py.Warning) : Py.M t unit :=
  Py.modify (fun s => upd_warnings (warnings s ++ [w]) s).

(** Modelled from the spec: a write to a slot made by [_make_property]
    stores the value, then invokes the handler of the slot's update kind
    ([circuit_routines.py] is outside the sources). *)
Definition write_ext_basis (v : ExtBasis) : Py.M t unit :=
  Py.modify (upd_ext_basis v) >> call Py.update_ext_basis.

(** [self.symbolic_circuit], an [AttributeError] when there is none. *)
Definition the_symbolic_circuit : Py.M t SymbolicCircuit :=
  let* self := Py.get in
  match symbolic_circuit self with
  | Some sc => Py.ret sc
  | None => Py.raise (Py.AttributeError "symbolic_circuit")
  end.

(** A list of closure branches as a caller passes it may hold [None]:
    [deserialize] fills it with the results of [_find_branch]. The list
    that the instance stores is the builder's and holds branches. *)
Definition as_argument (closure_branches : option (list Branch))
  : option (list (option Branch)) :=
  option_map (map Some) closure_branches.

(** [self.symbolic_circuit.configure(transformation_matrix=...,
    closure_branches=...)]: the symbolic circuit is mutated in place. *)
Definition configure_symbolic_circuit (tm : option (matrix R))
    (cb : option (list (option Branch))) : Py.M t unit :=
  let* sc := the_symbolic_circuit in
  fun s => match symbolic_circuit_configure env sc tm cb with
           | (sc', false) => (upd_symbolic_circuit (Some sc') s, inr tt)
           | (sc', true) =>
               (upd_symbolic_circuit (Some sc') s,
                inl (Py.RoutineError Py.symbolic_circuit_configure))
           end.

(** [for attr in required_attributes: setattr(self, attr,
    getattr(self.symbolic_circuit, attr))], for the attributes of the model. *)
Definition copy_required_attributes : Py.M t unit :=
  let* sc := the_symbolic_circuit in
  Py.modify (fun s =>
    upd_is_purely_harmonic (sym_is_purely_harmonic sc)
      (upd_var_categories (sym_var_categories sc)
        (upd_transformation_matrix (sym_transformation_matrix sc)
          (upd_hamiltonian_symbolic (sym_hamiltonian_symbolic sc)
            (upd_closure_branches (sym_closure_branches sc) s))))).

(** [if self.is_purely_harmonic: ...]: the normal-mode frequencies are read
    from [self.symbolic_circuit]; a basis other than harmonic is replaced
    after a warning. *)
Definition harmonic_override : Py.M t unit :=
  let* self := Py.get in
  if is_purely_harmonic self then
    the_symbolic_circuit >>
    (if bool_decide (ext_basis self ≠ harmonic) then
       warn Py.PurelyHarmonicNeedsHarmonic >> write_ext_basis harmonic
     else Py.ret tt)
  else Py.ret tt.

(** [for var_index in self.var_categories["extended"]: if var_index not in
    self.discretized_phi_range: ... = (-6 * np.pi, 6 * np.pi)]. *)
Definition add_default_range (d : gmap Z (R * R)) (var_index : Z) : gmap Z (R * R) :=
  match d !! var_index with
  | Some _ => d
  | None => <[var_index := default_phi_range]> d
  end.

Definition default_phi_ranges : Py.M t unit :=
  let* self := Py.get in
  match lookup_category "extended" (var_categories self) with
  | None => Py.raise (Py.KeyError "extended")
  | Some extended =>
      Py.modify (upd_discretized_phi_range
                   (fold_left add_default_range extended (discretized_phi_range self)))
  end.

(** [if len(flatten_list(self.var_categories.values())) == 1 and
    self.ext_basis == "harmonic": self.type_of_matrices = "dense"]. *)
Definition dense_if_single_harmonic : Py.M t unit :=
  let* self := Py.get in
  if bool_decide (length (all_indices (var_categories self)) = 1%nat)
     && bool_decide (ext_basis self = harmonic)
  then Py.modify (upd_type_of_matrices dense)
  else Py.ret tt.

(** [self.hamiltonian_symbolic = <result of the routine who>]. *)
Definition assign_hamiltonian (who : Py.routine) (result : option Expr) : Py.M t unit :=
  match result with
  | Some e => Py.modify (upd_hamiltonian_symbolic e)
  | None => Py.raise (Py.RoutineError who)
  end.

(** The block from [if not hasattr(self, "cutoff_names")] to
    [self._set_vars()], the same text in both configure methods. *)
Definition init_properties_and_ranges : Py.M t unit :=
  call Py.init_cutoff_properties >>
  Py.modify (fun s => upd_var_index_list (all_indices (var_categories s)) s) >>
  call Py.init_param_properties >>
  default_phi_ranges >>
  call Py.init_flux_properties >>
  call Py.init_charge_properties >>
  dense_if_single_harmonic >>
  call Py._set_vars.

(** The two rewrites of the symbolic Hamiltonian in [_configure]: it is
    generated anew for a circuit with more than [SYM_INVERSION_MAX_NODES]
    nodes, and the linear terms of the potential are removed when the flux
    is static. *)
Definition refresh_symbolic_hamiltonian : Py.M t unit :=
  (let* sc := the_symbolic_circuit in
   if bool_decide (SYM_INVERSION_MAX_NODES env < length (nodes sc))%nat
   then assign_hamiltonian Py.generate_symbolic_hamiltonian
                           (generate_symbolic_hamiltonian env sc)
   else Py.ret tt) >>
  (let* sc := the_symbolic_circuit in
   let* self := Py.get in
   if negb (is_flux_dynamic sc)
   then assign_hamiltonian Py._shift_harmonic_oscillator_potential
          (_shift_harmonic_oscillator_potential env (hamiltonian_symbolic self))
   else Py.ret tt).

(** The block from [if system_hierarchy is not None] to [self.update()];
    [_configure] calls [update_interactions], [_configure_sym_hamiltonian]
    does not. In [system_hierarchy] and [subsystem_trunc_dims] the fallback
    to the stored values has been applied already. *)
Definition configure_tail (with_interactions : bool)
    (system_hierarchy subsystem_trunc_dims : option RecursiveList) : Py.M t unit :=
  (match system_hierarchy with
   | Some hierarchy =>
       Py.modify (upd_hierarchical_diagonalization
                    (bool_decide (hierarchy ≠ [])
                     && bool_decide (0 < number_of_lists_in_list hierarchy)%nat))
   | None => Py.ret tt
   end) >>
  let* self := Py.get in
  (if negb (hierarchical_diagonalization self) then
     call Py.generate_hamiltonian_sym_for_numerics >>
     call Py.set_operators
   else
     Py.modify (upd_system_hierarchy system_hierarchy) >>
     match subsystem_trunc_dims with
     | None => Py.raise Py.TruncDimsNotSet
     | Some _ =>
         Py.modify (upd_subsystem_trunc_dims subsystem_trunc_dims) >>
         call Py.generate_hamiltonian_sym_for_numerics >>
         call Py.generate_subsystems >>
         (if with_interactions then call Py.update_interactions else Py.ret tt) >>
         call Py._check_truncation_indices >>
         call Py.set_operators
     end) >>
  Py.modify (fun s => upd_routines_state (delete_stale_properties env s) s) >>
  call Py.update.

(** [Circuit._configure]. The attribute [transformation_matrix] exists on
    every instance that has a symbolic circuit ([_init_from_yaml] copies it
    before the first call). *)
Definition _configure (transformation_matrix_arg : option (matrix R))
    (system_hierarchy_arg subsystem_trunc_dims_arg : option RecursiveList)
    (closure_branches_arg : option (list (option Branch))) : Py.M t unit :=
  let* self := Py.get in
  let system_hierarchy_eff := Py.py_or system_hierarchy_arg (system_hierarchy self) in
  let subsystem_trunc_dims_eff :=
    Py.py_or subsystem_trunc_dims_arg (subsystem_trunc_dims self) in
  let closure_branches_eff :=
    Py.py_or closure_branches_arg (as_argument (closure_branches self)) in
  let transformation_matrix_eff :=
    match transformation_matrix_arg with
    | None => transformation_matrix self
    | Some m => Some m
    end in
  Py.modify (upd_hierarchical_diagonalization
               (bool_decide (system_hierarchy_eff ≠ None))) >>
  configure_symbolic_circuit transformation_matrix_eff closure_branches_eff >>
  copy_required_attributes >>
  harmonic_override >>
  init_properties_and_ranges >>
  refresh_symbolic_hamiltonian >>
  configure_tail true system_hierarchy_eff subsystem_trunc_dims_eff.

(** [re.match(r"^<prefix>\d+$", name)]: after the prefix, digits up to the
    place where [$] holds. *)
Fixpoint strip_prefix (prefix s : pystr) : option pystr :=
  match prefix, s with
  | [], _ => Some s
  | a :: prefix', b :: s' => if (a =? b)%N then strip_prefix prefix' s' else None
  | _ :: _, [] => None
  end.

Definition digits_to_end (rest : pystr) : bool :=
  match rest with
  | [] => false
  | _ :: _ =>
      forallb (is_digit (unicode_decimal env)) rest
      || match rev rest with
         | c :: ((_ :: _) as r') =>
             (c =? LF)%N && forallb (is_digit (unicode_decimal env)) r'
         | _ => false
         end
  end.

Definition matches_indexed (prefix name : pystr) : bool :=
  match strip_prefix prefix name with
  | Some rest => digits_to_end rest
  | None => false
  end.

(** [d[key].append(var_index)]. *)
Definition append_category (key : string) (var_index : Z) (d : categories) : categories :=
  map (fun kv => if String.eqb kv.1 key then (kv.1, kv.2 ++ [var_index]) else kv) d.

(** One turn of the loop of [_read_symbolic_hamiltonian], for the
    categories ([n<i>] is periodic, [Q<i>] is extended). A name that matched
    one of the patterns ends in digits, so its trailing number exists. *)
Definition read_symbol (d : categories) (name : pystr) : categories :=
  match get_trailing_number (unicode_decimal env) name with
  | Some var_index =>
      let d1 := if matches_indexed [110%N] name
                then append_category "periodic" var_index d else d in
      if matches_indexed [81%N] name
      then append_category "extended" var_index d1 else d1
  | None => d
  end.

(** [_read_symbolic_hamiltonian], its third result. The symbols come in the
    order in which the set [free_symbols] is iterated. *)
Definition _read_symbolic_hamiltonian (symbolic_hamiltonian : Expr) : categories :=
  fold_left read_symbol (free_symbols env symbolic_hamiltonian)
            [("periodic", []); ("extended", []); ("free", []); ("frozen", [])].

(** [Circuit._configure_sym_hamiltonian]. *)
Definition _configure_sym_hamiltonian
    (system_hierarchy_arg subsystem_trunc_dims_arg : option RecursiveList) : Py.M t unit :=
  let* self := Py.get in
  let system_hierarchy_eff := Py.py_or system_hierarchy_arg (system_hierarchy self) in
  let subsystem_trunc_dims_eff :=
    Py.py_or subsystem_trunc_dims_arg (subsystem_trunc_dims self) in
  Py.modify (upd_hierarchical_diagonalization
               (bool_decide (system_hierarchy_eff ≠ None))) >>
  Py.modify (fun s => upd_is_purely_harmonic
                        (_is_expression_purely_harmonic env (hamiltonian_symbolic s)) s) >>
  Py.modify (fun s => upd_var_categories
                        (_read_symbolic_hamiltonian (hamiltonian_symbolic s)) s) >>
  harmonic_override >>
  init_properties_and_ranges >>
  configure_tail false system_hierarchy_eff subsystem_trunc_dims_eff.

(** [Circuit.configure]. [old_transformation_matrix] and
    [old_closure_branches] are bound only when the instance has a symbolic
    circuit. *)
Definition configure (transformation_matrix_arg : option (matrix R))
    (system_hierarchy_arg subsystem_trunc_dims_arg : option RecursiveList)
    (closure_branches_arg : option (list (option Branch))) : Py.M t unit :=
  let* self := Py.get in
  let old_system_hierarchy := system_hierarchy self in
  let old_subsystem_trunc_dims := subsystem_trunc_dims self in
  let old_matrix_and_branches :=
    match symbolic_circuit self with
    | Some sc =>
        Some (transformation_matrix self,
              if negb (is_flux_dynamic sc) then closure_branches self else None)
    | None => None
    end in
  Py.try_except
    (let* self := Py.get in
     match symbolic_circuit self with
     | Some _ =>
         _configure transformation_matrix_arg system_hierarchy_arg
                    subsystem_trunc_dims_arg closure_branches_arg
     | None =>
         _configure_sym_hamiltonian system_hierarchy_arg subsystem_trunc_dims_arg
     end)
    (Py.modify (upd_system_hierarchy old_system_hierarchy) >>
     Py.modify (upd_subsystem_trunc_dims old_subsystem_trunc_dims) >>
     (let* self := Py.get in
      match symbolic_circuit self, old_matrix_and_branches with
      | Some _, Some (old_transformation_matrix, old_closure_branches) =>
          Py.modify (upd_transformation_matrix old_transformation_matrix) >>
          Py.modify (upd_closure_branches old_closure_branches)
      | Some _, None => Py.raise (Py.UnboundLocalError "old_transformation_matrix")
      | None, _ => Py.ret tt
      end) >>
     (let* self := Py.get in
      match symbolic_circuit self, old_matrix_and_branches with
      | Some _, Some (old_transformation_matrix, old_closure_branches) =>
          _configure old_transformation_matrix old_system_hierarchy
                     old_subsystem_trunc_dims (as_argument old_closure_branches)
      | Some _, None => Py.raise (Py.UnboundLocalError "old_transformation_matrix")
      | None, _ =>
          _configure_sym_hamiltonian old_system_hierarchy old_subsystem_trunc_dims
      end) >>
     Py.raise Py.ConfigureFailed).

(** [Circuit.set_discretized_phi_range]: one turn of its loop, then the method. *)
Definition set_discretized_phi_range_one (phi_range : R * R) (var_index : Z)
  : Py.M t unit :=
  let* self := Py.get in
  match lookup_category "extended" (var_categories self) with
  | None => Py.raise (Py.KeyError "extended")
  | Some extended =>
      if decide (var_index ∈ extended) then
        Py.modify (upd_discretized_phi_range
                     (<[var_index := phi_range]> (discretized_phi_range self)))
      else Py.raise (Py.NotExtendedVariable var_index)
  end.

Definition set_discretized_phi_range (var_indices : list Z) (phi_range : R * R)
  : Py.M t unit :=
  let* self := Py.get in
  if bool_decide (ext_basis self ≠ discretized) then Py.raise Py.NotDiscretizedBasis
  else
    Py.for_each var_indices (set_discretized_phi_range_one phi_range) >>
    call Py.set_operators.

(** *** Construction from a circuit description, serialisation *)

(** [Circuit.__init__] with no symbolic Hamiltonian, that is
    [_init_from_yaml] with [initiate_sym_calc=True] (the path [deserialize]
    takes). The attributes that only [_configure] creates start at a
    default. *)
Definition __init__ (input_string : pystr) (basis_completion : string)
    (ext_basis : ExtBasis) (is_flux_dynamic : bool) (truncated_dim : Z) : Py.Exn + t :=
  if negb (String.eqb basis_completion "heuristic" || String.eqb basis_completion "canonical")
  then inl Py.InvalidBasisCompletion
  else
    match symbolic_circuit_from_yaml env input_string basis_completion is_flux_dynamic with
    | None => inl (Py.RoutineError Py.from_yaml)
    | Some sc =>
        let self :=
          mk (Some sc) (sym_hamiltonian_symbolic sc) None None
             (sym_transformation_matrix sc) (sym_closure_branches sc)
             (sym_var_categories sc) [] ext_basis false false sparse ∅ truncated_dim
             None [] (fresh_state env) in
        match (configure None None None None >> call Py.dispatch_register) self with
        | (self', inr _) => inr self'
        | (_, inl e) => inl e
        end
    end.

(** A branch parameter as stored: a symbol becomes its name. *)
Inductive StoredParam : Type :=
| Str (name : pystr)
| Num (value : R).

Global Instance StoredParam_eq_dec : EqDecision StoredParam.
Proof. solve_decision. Defined.

Definition stored_param (p : BranchParam) : StoredParam :=
  match p with
  | Symbol name => Str name
  | Number value => Num value
  end.

Definition stored_params (params : list (string * BranchParam))
  : list (string * StoredParam) :=
  map (fun kv => (kv.1, stored_param kv.2)) params.

(** [[branch.nodes[0].index, branch.nodes[1].index, branch.type, branch_params]]. *)
Definition BranchData : Type := Z * Z * string * list (string * StoredParam).

Definition branch_data (branch : Branch) : BranchData :=
  ((branch_nodes branch).1, (branch_nodes branch).2, branch_type branch,
   stored_params (parameters branch)).

(** The dictionary of [dict_for_serialization], as [IOData] carries it.
    [io_properties] stands for the entries of the parameter, flux, offset
    charge and cutoff properties; the encoding of the file is not modelled. *)
Record IOData : Type := mkIOData {
  io_ext_basis : ExtBasis;
  io_input_string : pystr;
  io_truncated_dim : Z;
  io_from_file : bool;
  io_basis_completion : string;
  io_properties : X;
  io_system_hierarchy : option RecursiveList;
  io_subsystem_trunc_dims : option RecursiveList;
  io_transformation_matrix : option (matrix R);
  io_closure_branches_data : list BranchData
}.

(** [Circuit.dict_for_serialization], followed by [dict_serialize]. *)
Definition serialize (self : t) : Py.Exn + IOData :=
  match symbolic_circuit self with
  | None => inl (Py.AttributeError "input_string")
  | Some sc =>
      match closure_branches self with
      | None => inl Py.TypeError
      | Some closure =>
          inr (mkIOData (ext_basis self) (input_string sc) (truncated_dim self) false
                        (basis_completion sc) (routines_state self)
                        (system_hierarchy self) (subsystem_trunc_dims self)
                        (transformation_matrix self) (map branch_data closure))
      end
  end.

(** Equality of two dictionaries given as lists of items. *)
Fixpoint lookup_param (key : string) (d : list (string * StoredParam)) : option StoredParam :=
  match d with
  | (k, v) :: d' => if String.eqb k key then Some v else lookup_param key d'
  | [] => None
  end.

Definition dict_eqb (a b : list (string * StoredParam)) : bool :=
  forallb (fun kv => bool_decide (lookup_param kv.1 b = Some kv.2)) a
  && forallb (fun kv => bool_decide (lookup_param kv.1 a = Some kv.2)) b.

(** [Circuit._find_branch]. *)
Definition _find_branch (self : t) (data : BranchData) : option Branch :=
  let '(node_id_1, node_id_2, branch_type_wanted, branch_params) := data in
  match symbolic_circuit self with
  | None => None
  | Some sc =>
      List.find
        (fun branch =>
           let branch_node_ids := [(branch_nodes branch).1; (branch_nodes branch).2] in
           bool_decide (node_id_1 ∈ branch_node_ids)
           && bool_decide (node_id_2 ∈ branch_node_ids)
           && String.eqb (branch_type branch) branch_type_wanted
           && dict_eqb branch_params (stored_params (parameters branch)))
        (branches sc)
  end.

(** The list comprehension that applies [circuit._find_branch] to every
    entry of [closure_branches_data]: the list holds [None] where no branch
    fits. *)
Definition find_branches (self : t) (data : list BranchData) : list (option Branch) :=
  map (_find_branch self) data.

(** The tail of [deserialize], run on the freshly built circuit. Of the
    modified attributes only [system_hierarchy] and [subsystem_trunc_dims]
    are handed to [configure]; the others are stored under their name with
    an underscore in front: the property values, then
    [_transformation_matrix]. [__setattr__] of a frozen instance guards the
    creation of attributes ([circuit_routines.py]); what it does with a new
    name is left to the environment. *)
Definition reconfigure (iodata : IOData) : Py.M t unit :=
  let* circuit := Py.get in
  let closure_branches := find_branches circuit (io_closure_branches_data iodata) in
  configure None (io_system_hierarchy iodata) (io_subsystem_trunc_dims iodata)
            (Some closure_branches) >>
  Py.modify (fun s => upd_routines_state (restore_properties env (io_properties iodata) s) s) >>
  call Py.frozen_setattr >>
  Py.modify (upd_underscore_transformation_matrix
               (Some (io_transformation_matrix iodata))) >>
  let* circuit := Py.get in
  if hierarchical_diagonalization circuit then
    call Py.generate_subsystems >> call Py.update_interactions
  else Py.ret tt.

(** [Circuit.deserialize]. *)
Definition deserialize (iodata : IOData) : Py.Exn + t :=
  match __init__ (io_input_string iodata) (io_basis_completion iodata)
                 (io_ext_basis iodata) false (io_truncated_dim iodata) with
  | inl e => inl e
  | inr circuit =>
      match reconfigure iodata circuit with
      | (circuit', inr _) => inr circuit'
      | (_, inl e) => inl e
      end
  end.

(** *** What the rollback of [configure] relies on *)



(** The hierarchy asks for hierarchical diagonalization. *)
Definition requires_hd (system_hierarchy : option RecursiveList) : Prop :=
  exists hierarchy,
    system_hierarchy = Some hierarchy
    /\ hierarchy <> [] /\ (0 < number_of_lists_in_list hierarchy)%nat.

End defs.

Arguments SymbolicCircuit : clear implicits.
Arguments t : clear implicits.
Arguments Env : clear implicits.

End Circuit.

(** ** A small concrete circuit

    Expressions are given by the names of their symbols; the outside
    routines own nothing and never raise; the builder keeps what it is given
    and otherwise chooses the identity matrix and no closure branch; under
    dynamic flux, and for a list that holds [None], it refuses closure
    branches. *)

Module Toy.
Import Mat circuit_utils Hier.

Definition Expr : Type := list pystr.
Definition X : Type := unit.

(** The names [Q1], [θ1], [n1], [n2]. *)
Definition Q1 : pystr := [81; 49]%N.
Definition theta1 : pystr := [952; 49]%N.
Definition n1 : pystr := [110; 49]%N.
Definition n2 : pystr := [110; 50]%N.

Definition subsystem_env (purely_harmonic : bool) : Subsystem.Env Expr X :=
  Subsystem.mkEnv ascii_decimal (fun H => H) (fun _ => purely_harmonic)
                  (fun _ s => (tt, false)).

(** A parent in the discretised basis with one extended variable. *)
Definition discretized_parent : Subsystem.Parent X :=
  Subsystem.mkParent discretized
    [("periodic", []); ("extended", [1%Z]); ("free", []); ("frozen", [])] ∅ tt.

Definition identity1 : matrix R := [[1%R]].

Definition is_branch (b : option Circuit.Branch) : bool :=
  match b with Some _ => true | None => false end.

Definition toy_configure (sc : Circuit.SymbolicCircuit Expr)
    (tm : option (matrix R)) (cb : option (list (option Circuit.Branch)))
  : Circuit.SymbolicCircuit Expr * bool :=
  let supplied := default [] cb in
  if Py.truthy cb && (Circuit.is_flux_dynamic sc || negb (forallb is_branch supplied))
  then (sc, true)
  else
    (Circuit.mkSym (Circuit.is_flux_dynamic sc) (Circuit.basis_completion sc)
       (Circuit.input_string sc) (Circuit.nodes sc) (Circuit.branches sc)
       (match tm with Some m => Some m | None => Some identity1 end)
       (if Py.truthy cb then Some (omap (fun b : option Circuit.Branch => b) supplied) else Some [])
       (Circuit.sym_var_categories sc) (Circuit.sym_is_purely_harmonic sc)
       (Circuit.sym_hamiltonian_symbolic sc),
     false).

(** Two periodic variables, no loop. *)
Definition two_islands (purely_harmonic is_flux_dynamic : bool)
  : Circuit.SymbolicCircuit Expr :=
  Circuit.mkSym is_flux_dynamic "heuristic" [] [1%Z; 2%Z] [] (Some identity1) (Some [])
    [("periodic", [1%Z; 2%Z]); ("extended", []); ("free", []); ("frozen", [])]
    purely_harmonic [n1; n2].

Definition circuit_env (purely_harmonic : bool) : Circuit.Env Expr X :=
  Circuit.mkEnv ascii_decimal 3
    (fun _ _ is_flux_dynamic => Some (two_islands purely_harmonic is_flux_dynamic))
    toy_configure
    (fun sc => Some (Circuit.sym_hamiltonian_symbolic sc))
    (fun H => Some H)
    (fun _ => purely_harmonic)
    (fun H => H)
    (fun _ s => (tt, false))
    (fun _ => tt)
    tt
    (fun x _ => x).



(** The grid of the two points 0 and 1. *)
Definition unit_grid : Grid1d := mkGrid 0 1 2.

(** [[[1], [2]]] and a truncation specification for it. *)
Definition one_by_one : RecursiveList := [Nested [Int 1]; Nested [Int 2]].
Definition dims_3_3 : RecursiveList := [Int 3; Int 3].

Definition two_island_categories : categories :=
  [("periodic", [1%Z; 2%Z]); ("extended", []); ("free", []); ("frozen", [])].

(** The instance that [Circuit.__init__] builds in [circuit_env false]: no
    hierarchy, the builder's matrix and closure branches. *)
Definition plain_circuit : Circuit.t Expr X :=
  Circuit.mk (Some (two_islands false false)) [n1; n2] None None
    (Some identity1) (Some []) two_island_categories [1%Z; 2%Z]
    discretized false false sparse ∅ 10%Z None [] tt.

(** The same circuit configured with the hierarchy [[[1], [2]]] and the
    truncation [[3, 3]]. *)
Definition hierarchical_circuit : Circuit.t Expr X :=
  Circuit.mk (Some (two_islands false false)) [n1; n2] (Some one_by_one) (Some dims_3_3)
    (Some identity1) (Some []) two_island_categories [1%Z; 2%Z]
    discretized false true sparse ∅ 10%Z None [] tt.

(** The same circuit configured with a transformation matrix of the user. *)
Definition user_matrix : matrix R := [[2%R]].

Definition transformed_circuit : Circuit.t Expr X :=
  Circuit.mk
    (Some (Circuit.mkSym false "heuristic" [] [1%Z; 2%Z] [] (Some user_matrix) (Some [])
             two_island_categories false [n1; n2]))
    [n1; n2] None None
    (Some user_matrix) (Some []) two_island_categories [1%Z; 2%Z]
    discretized false false sparse ∅ 10%Z None [] tt.

(** A purely harmonic circuit as the user asks for it, in the discretised
    basis, before its first [configure]. *)
Definition harmonic_request : Circuit.t Expr X :=
  Circuit.mk (Some (two_islands true false)) [n1; n2] None None
    (Some identity1) (Some []) two_island_categories []
    discretized false false sparse ∅ 10%Z None [] tt.

(** An instance built from a symbolic Hamiltonian with one extended
    variable, in the discretised basis. *)
Definition one_extended_variable : Circuit.t Expr X :=
  Circuit.mk None [Q1; theta1] None None None None
    [("periodic", []); ("extended", [1%Z]); ("free", []); ("frozen", [])] [1%Z]
    discretized false false sparse ∅ 10%Z None [] tt.

End Toy.

(** ** More of [core/circuit_utils.py]: names and indices *)

Module OperatorNames.
Import circuit_utils.

(** [re.search(r"(\d+)", input_str)]: the search is leftmost, so the match
    starts at the first digit of the string, and [\d+] is greedy, so it is
    the whole run of digits that starts there. *)
Fixpoint search_first_digits (dec : N -> option Z) (s : pystr) : option pystr :=
  match s with
  | [] => None
  | c :: s' =>
      if is_digit dec c then Some (c :: take_digits dec s')
      else search_first_digits dec s'
  end.

(** The two ways in which [get_operator_number] raises. *)
Inductive OperatorNumberError : Type :=
| NoneHasNoGroup                            (* AttributeError: 'NoneType' object has no attribute 'group' *)
| NotAValidOperatorName (input_str : pystr). (* Exception: ... is not a valid operator name. *)

(** [get_operator_number]: [match.group()] is evaluated without a test of
    [match], and a number that is zero is refused. *)
Definition get_operator_number (dec : N -> option Z) (input_str : pystr)
  : OperatorNumberError + Z :=
  match search_first_digits dec input_str with
  | None => inl NoneHasNoGroup
  | Some text =>
      let number := int_of_digits dec text in
      if (number =? 0)%Z then inl (NotAValidOperatorName input_str) else inr number
  end.

(** A digit table as the interpreter has it: every digit has a value from 0
    to 9, and the ASCII digits have their own. *)
Definition digit_table (dec : N -> option Z) : Prop :=
  (forall c v, dec c = Some v -> (0 <= v <= 9)%Z)
  /\ (forall c v, ascii_decimal c = Some v -> dec c = Some v).

(** The decimal digits of a number that is not negative, the last one first
    computed; [fuel] bounds the number of digits. *)
Fixpoint digits_of (fuel : nat) (n : Z) (acc : pystr) : pystr :=
  match fuel with
  | O => acc
  | S fuel' =>
      let acc' := Z.to_N (48 + n mod 10) :: acc in
      if (n <? 10)%Z then acc' else digits_of fuel' (n / 10) acc'
  end.

(** [str(i)] for an [int]: the decimal digits, after a minus sign for a
    negative number. A number below [2 ^ k] has at most [k] digits. *)
Definition str_of_int (i : Z) : pystr :=
  if (i <? 0)%Z then 45%N :: digits_of (S (Z.to_nat (Z.log2 (- i)))) (- i) []
  else digits_of (S (Z.to_nat (Z.log2 i))) i [].

(** [_generate_symbols_list]: [sm.symbols] is the symbol constructor of the
    algebra library. *)
Definition _generate_symbols_list {Sym : Type} (symbols : pystr -> Sym)
    (var_str : pystr) (iterable_list : list Z) : list Sym :=
  map (fun iterable => symbols (var_str ++ str_of_int iterable)) iterable_list.

(** The code points of [θ] and [Φ]. *)
Definition theta : N := 952%N.
Definition Phi : N := 934%N.

(** [c in name] for a string [c] of one character. *)
Definition contains (c : N) (name : pystr) : bool := existsb (N.eqb c) name.

(** [is_potential_term]: [free_symbol_names] are the names of
    [term.free_symbols] in the order in which the set is iterated. *)
Fixpoint is_potential_term (free_symbol_names : list pystr) : bool :=
  match free_symbol_names with
  | [] => false
  | name :: rest =>
      if contains theta name || contains Phi name then true
      else is_potential_term rest
  end.

End OperatorNames.

(** ** More of [core/circuit_utils.py]: operators of diagonal matrices *)

Module DiagonalOps.
Import Mat circuit_utils.

(** Number of columns of a matrix given by its rows. *)
Definition ncols {A} (M : matrix A) : nat := length (hd [] M).

(** [x.diagonal()]: the entries [x[i, i]] for [i] below both dimensions. *)
Definition diagonal (x : matrix R) : list R :=
  map (fun i => entry 0%R x i i) (seq 0 (Nat.min (nrows x) (ncols x))).

(** [sparse.diags(values)] and [np.diag(values)] for a vector: the square
    matrix with the vector on its main diagonal. *)
Definition diags (values : list R) : matrix R := setdiag (length values) values.

Definition _cos_dia (x : matrix R) : matrix R := diags (map cos (diagonal x)).
Definition _sin_dia (x : matrix R) : matrix R := diags (map sin (diagonal x)).
Definition _sin_dia_dense (x : matrix R) : matrix R := diags (map sin (diagonal x)).
Definition _cos_dia_dense (x : matrix R) : matrix R := diags (map cos (diagonal x)).

(** Sum of a list of reals. *)
Definition Rsum (l : list R) : R := fold_right Rplus 0%R l.

(** The matrix product [A @ B] of an [n] by [k] and a [k] by [m] matrix. *)
Definition matmul (A B : matrix R) : matrix R :=
  tabulate (nrows A) (ncols B)
    (fun i j => Rsum (map (fun l => entry 0 A i l * entry 0 B l j)%R (seq 0 (ncols A)))).

(** [A.T]. *)
Definition transpose (A : matrix R) : matrix R :=
  tabulate (ncols A) (nrows A) (fun i j => entry 0%R A j i).

(** [np.identity(n)]. *)
Definition identity (n : nat) : matrix R :=
  tabulate n n (fun i j => if Nat.eqb i j then 1%R else 0%R).

End DiagonalOps.

(** ** [truncation_template] of [core/circuit_utils.py] *)

Module Truncation.
Import Hier.

(** [==] on nested lists of integers. *)
Fixpoint item_eq_dec (a b : item) {struct a} : {a = b} + {a <> b}.
Proof.
  decide equality; [apply Z.eq_dec | apply (List.list_eq_dec item_eq_dec)].
Defined.

Global Instance item_eq_decision : EqDecision item := item_eq_dec.

Section defs.

(** [flatten_list_recursive] ([utils/misc.py] is not among the sources)
    is a parameter; what the properties below need of it is stated with
    them. It takes a list: the template function hands it the entries of
    the hierarchy, and an entry that is an integer ends the call with a
    [TypeError]. *)
Variable flatten_list_recursive : RecursiveList -> RecursiveList.

(** One turn of the loop of [truncation_template]. The recursive call
    [truncation_template(subsystem_hierarchy)] passes no dimensions, so the
    nested template is made with the defaults 6 and 30. *)
Fixpoint template_of_entry (individual_trunc_dim combined_trunc_dim : Z)
    (subsystem_hierarchy : item) {struct subsystem_hierarchy} : Py.Exn + item :=
  match subsystem_hierarchy with
  | Int _ => inl Py.TypeError
  | Nested entries =>
      if decide (entries = flatten_list_recursive entries)
      then inr (Int individual_trunc_dim)
      else
        match (fix loop (rest : list item) : Py.Exn + list item :=
                 match rest with
                 | [] => inr []
                 | entry :: rest' =>
                     match template_of_entry 6 30 entry with
                     | inl e => inl e
                     | inr dims =>
                         match loop rest' with
                         | inl e => inl e
                         | inr trunc_dims => inr (dims :: trunc_dims)
                         end
                     end
                 end) entries with
        | inl e => inl e
        | inr nested => inr (Nested [Int combined_trunc_dim; Nested nested])
        end
  end.

(** [truncation_template(system_hierarchy, individual_trunc_dim,
    combined_trunc_dim)]; the defaults of the two dimensions are 6 and 30. *)
Fixpoint truncation_template (system_hierarchy : RecursiveList)
    (individual_trunc_dim combined_trunc_dim : Z) : Py.Exn + RecursiveList :=
  match system_hierarchy with
  | [] => inr []
  | subsystem_hierarchy :: rest =>
      match template_of_entry individual_trunc_dim combined_trunc_dim
                              subsystem_hierarchy with
      | inl e => inl e
      | inr dims =>
          match truncation_template rest individual_trunc_dim combined_trunc_dim with
          | inl e => inl e
          | inr trunc_dims => inr (dims :: trunc_dims)
          end
      end
  end.

(** What is used of [flatten_list_recursive]: it leaves a list as it is
    exactly when no entry of the list is itself a list. *)
Definition fixes_the_flat_lists : Prop :=
  forall l, flatten_list_recursive l = l <-> Forall (fun x => is_list x = false) l.

End defs.

(** A flattening function for the examples: the integers of a nested list
    in the order in which they are written. *)
Fixpoint integers_of (x : item) : list item :=
  match x with
  | Int z => [Int z]
  | Nested l =>
      (fix go (l : list item) : list item :=
         match l with
         | [] => []
         | y :: l' => integers_of y ++ go l'
         end) l
  end.

Definition flatten_depth_first (l : RecursiveList) : RecursiveList :=
  flat_map integers_of l.

End Truncation.

(** ** [assemble_circuit] of [core/circuit_utils.py]: the node indices *)

Module Assemble.
Import circuit_utils.

(** A branch as [yaml.load] returns it: [[type, node, node, word, ...]]. *)
Record YamlBranch : Type := mkYamlBranch {
  branch_type : pystr;
  node_1 : Z;
  node_2 : Z;
  branch_words : list pystr
}.

(** [set(flatten_list_recursive([[b[1], b[2]] for b in subcircuit_branches]))]. *)
Definition subcircuit_nodes (subcircuit_branches : list YamlBranch) : gset Z :=
  list_to_set (flat_map (fun b => [node_1 b; node_2 b]) subcircuit_branches).

(** The dictionary of one subcircuit: every node is sent to its index plus
    the offset, in the order in which the set is listed, and then the
    ground node of a grounded subcircuit to 0. *)
Definition subcircuit_node_index_dict (subcircuit_nodes : gset Z) (node_index_offset : Z)
  : gmap Z Z :=
  let d := foldl (fun d subcircuit_node_index =>
                    <[subcircuit_node_index := (subcircuit_node_index + node_index_offset)%Z]> d)
                 ∅ (elements subcircuit_nodes) in
  if decide (0%Z ∈ subcircuit_nodes) then <[0%Z := 0%Z]> d else d.

(** [len(subcircuit_nodes) - is_grounded]: what one subcircuit adds to
    [node_index_offset]. *)
Definition offset_step (subcircuit_nodes : gset Z) : Z :=
  (Z.of_nat (size subcircuit_nodes)
   - (if decide (0%Z ∈ subcircuit_nodes) then 1 else 0))%Z.

(** The loop over [range(subcircuit_number)]. *)
Fixpoint node_index_dicts (subcircuit_nodes_list : list (gset Z)) (node_index_offset : Z)
  : list (gmap Z Z) :=
  match subcircuit_nodes_list with
  | [] => []
  | nodes :: rest =>
      subcircuit_node_index_dict nodes node_index_offset
      :: node_index_dicts rest (node_index_offset + offset_step nodes)
  end.

(** The second result of [assemble_circuit], which the function completes
    before it writes the text of the composite circuit. [circuit_list]
    holds the branches of the parsed subcircuits. *)
Definition subcircuit_node_index_dict_list (circuit_list : list (list YamlBranch))
  : list (gmap Z Z) :=
  node_index_dicts (map subcircuit_nodes circuit_list) 0.

(** The value of [node_index_offset] when the loop reaches subcircuit [k]. *)
Definition offset_before (subcircuit_nodes_list : list (gset Z)) (k : nat) : Z :=
  fold_right Z.add 0%Z (map offset_step (firstn k subcircuit_nodes_list)).

(** The nodes of a subcircuit other than the ground node are numbered from
    1 without a gap. *)
Definition numbered_from_one (subcircuit_nodes : gset Z) : Prop :=
  exists m : nat, subcircuit_nodes ∖ {[0%Z]} = list_to_set (seqZ 1 (Z.of_nat m)).

End Assemble.

(** ** More of [class Circuit]: noise channels, oscillator subsystems,
       stale attributes, construction from a symbolic Hamiltonian *)

Module Noise.

Inductive NoiseWarning : Type :=
| FluxNoiseNeedsDynamicFlux.  (* The flag 'is_flux_dynamic' is set to False, so ... *)

Section defs.
Context {Sym : Type}.

(** What [supported_noise_channels] reads of the instance.
    [symbolic_circuit_is_flux_dynamic] is [None] on an instance without the
    attribute [symbolic_circuit]. *)
Record View : Type := mkView {
  branches : list Circuit.Branch;
  offset_charges : list Sym;
  external_fluxes : list Sym;
  symbolic_circuit_is_flux_dynamic : option bool;
  is_purely_harmonic : bool
}.

(** [Circuit.supported_noise_channels]: the warnings issued, and the list
    or the exception. *)
Definition supported_noise_channels (self : View)
  : list NoiseWarning * (Py.Exn + list string) :=
  let noise_channels := ["t1_capacitive"; "t1_charge_impedance"]%string in
  let noise_channels :=
    if (0 <? length (filter (fun branch => String.eqb (Circuit.branch_type branch) "L")
                            (branches self)))%nat
    then noise_channels ++ ["t1_inductive"%string] else noise_channels in
  let noise_channels :=
    if (0 <? length (offset_charges self))%nat
    then noise_channels ++ ["tphi_1_over_f_ng"%string] else noise_channels in
  let finish (noise_channels : list string) :=
    if negb (is_purely_harmonic self)
    then noise_channels ++ ["tphi_1_over_f_cc"%string] else noise_channels in
  if (0 <? length (external_fluxes self))%nat then
    match symbolic_circuit_is_flux_dynamic self with
    | None => ([], inl (Py.AttributeError "symbolic_circuit"))
    | Some is_flux_dynamic =>
        (if negb is_flux_dynamic then [FluxNoiseNeedsDynamicFlux] else [],
         inr (finish (noise_channels
                      ++ ["tphi_1_over_f_flux"; "t1_flux_bias_line"]%string)))
    end
  else ([], inr (finish noise_channels)).

(** [list.remove(x)]: the first occurrence goes. *)
Fixpoint remove_first (x : string) (l : list string) : list string :=
  match l with
  | [] => []
  | y :: l' => if String.eqb y x then l' else y :: remove_first x l'
  end.

(** [Circuit.effective_noise_channels]. *)
Definition effective_noise_channels (self : View)
  : list NoiseWarning * (Py.Exn + list string) :=
  match supported_noise_channels self with
  | (issued, inr supported_channels) =>
      (issued,
       inr (if existsb (String.eqb "t1_charge_impedance") supported_channels
            then remove_first "t1_charge_impedance" supported_channels
            else supported_channels))
  | raised => raised
  end.

End defs.

Arguments View : clear implicits.

End Noise.

Module SubsystemLists.
Import Hier.

(** [l[i]] for a Python list: an index below zero counts from the end. *)
Definition py_index {A} (l : list A) (i : Z) : option A :=
  if (0 <=? i)%Z then l !! Z.to_nat i
  else if (- Z.of_nat (length l) <=? i)%Z then l !! Z.to_nat (Z.of_nat (length l) + i)
       else None.

Inductive ListError : Type :=
| IndexError                              (* list index out of range *)
| KeyError (key : string)
| NotPurelyHarmonic (subsystem_index : Z) (* the subsystem ... is not purely harmonic *)
| MoreThanOneMode.                        (* the subsystem has more than one harmonic oscillator mode *)

Section defs.
Context {Expr X : Type}.

(** What the two methods read and write: [self.subsystems] and the two
    lists of [self.hilbert_space]. *)
Record t : Type := mk {
  subsystems : list (Subsystem.t Expr X);
  _osc_subsys_list : list (Subsystem.t Expr X);
  _qbt_subsys_list : list (Subsystem.t Expr X)
}.

(** The loop of [oscillator_list]: the list collected so far, or the
    exception. *)
Fixpoint collect_oscillators (subsystems : list (Subsystem.t Expr X))
    (osc_index_list : list Z) (osc_subsys_list : list (Subsystem.t Expr X))
  : ListError + list (Subsystem.t Expr X) :=
  match osc_index_list with
  | [] => inr osc_subsys_list
  | subsystem_index :: rest =>
      match py_index subsystems subsystem_index with
      | None => inl IndexError
      | Some subsystem =>
          if negb (Subsystem.is_purely_harmonic subsystem)
          then inl (NotPurelyHarmonic subsystem_index)
          else
            match lookup_category "extended" (Subsystem.var_categories subsystem) with
            | None => inl (KeyError "extended")
            | Some extended =>
                if negb (length extended =? 1)%nat then inl MoreThanOneMode
                else collect_oscillators subsystems rest (osc_subsys_list ++ [subsystem])
            end
      end
  end.

(** [Circuit.oscillator_list]: the assignment to
    [self.hilbert_space._osc_subsys_list] follows the loop. *)
Definition oscillator_list (osc_index_list : list Z) (self : t) : t * (ListError + unit) :=
  match collect_oscillators (subsystems self) osc_index_list [] with
  | inl e => (self, inl e)
  | inr osc_subsys_list =>
      (mk (subsystems self) osc_subsys_list (_qbt_subsys_list self), inr tt)
  end.

(** The loop of [qubit_list]. *)
Fixpoint collect_qubits (subsystems : list (Subsystem.t Expr X))
    (qbt_index_list : list Z) (qbt_subsys_list : list (Subsystem.t Expr X))
  : ListError + list (Subsystem.t Expr X) :=
  match qbt_index_list with
  | [] => inr qbt_subsys_list
  | subsystem_index :: rest =>
      match py_index subsystems subsystem_index with
      | None => inl IndexError
      | Some subsystem => collect_qubits subsystems rest (qbt_subsys_list ++ [subsystem])
      end
  end.

(** [Circuit.qubit_list]. *)
Definition qubit_list (qbt_index_list : list Z) (self : t) : t * (ListError + unit) :=
  match collect_qubits (subsystems self) qbt_index_list [] with
  | inl e => (self, inl e)
  | inr qbt_subsys_list =>
      (mk (subsystems self) (_osc_subsys_list self) qbt_subsys_list, inr tt)
  end.

End defs.

Arguments t : clear implicits.

End SubsystemLists.

Module Attribs.
Import circuit_utils.

(** The code points of a string of ASCII characters. *)
Definition pystr_of (s : string) : pystr := map Ascii.N_of_ascii (String.list_ascii_of_string s).

Fixpoint starts_with (pattern s : pystr) : bool :=
  match pattern, s with
  | [], _ => true
  | a :: pattern', b :: s' => (a =? b)%N && starts_with pattern' s'
  | _ :: _, [] => false
  end.

(** [pattern in s] for two strings. *)
Fixpoint occurs_in (pattern s : pystr) : bool :=
  starts_with pattern s
  || match s with
     | [] => false
     | _ :: s' => occurs_in pattern s'
     end.

Section defs.
Context {V : Type}.

(** The names that [_clear_unnecessary_attribs] spares: the cutoff names,
    the names of the external fluxes and of the offset charges, and
    [cutoff_names]. *)
Definition necessary_attrib_names (cutoff_names flux_names charge_names : list pystr)
  : list pystr :=
  cutoff_names ++ flux_names ++ charge_names ++ [pystr_of "cutoff_names"].

(** The test of the loop: [attrib[1:]] is not spared and the name looks
    like the slot of a cutoff, a flux or an offset charge. *)
Definition is_cleared (necessary : list pystr) (attrib : pystr) : bool :=
  negb (bool_decide (tail attrib ∈ necessary))
  && (occurs_in (pystr_of "cutoff_n_") attrib
      || occurs_in [OperatorNames.Phi] attrib
      || occurs_in (pystr_of "cutoff_ext_") attrib
      || bool_decide (firstn 2 (tail attrib) = pystr_of "ng")).

(** [Circuit._clear_unnecessary_attribs] on the attribute dictionary
    [self.__dict__]; the three lists are what the method reads of
    [self.cutoff_names], [self.external_fluxes] and [self.offset_charges]. *)
Definition _clear_unnecessary_attribs (cutoff_names flux_names charge_names : list pystr)
    (attribs : gmap pystr V) : gmap pystr V :=
  filter (fun kv => is_cleared (necessary_attrib_names cutoff_names flux_names charge_names)
                               kv.1 = false)
         attribs.

End defs.

End Attribs.

Module SymbolicInit.
Import Mat circuit_utils Hier.

Section defs.
Context {Expr X : Type}.
Variable env : Circuit.Env Expr X.

Local Open Scope py_scope.

(** [Circuit._init_from_symbolic_hamiltonian]. The loop over
    [symbolic_param_dict] comes first; the default of that argument in
    [__init__] is [None], which cannot be iterated. The attributes that
    only [configure] creates start at a default, as in [Circuit.__init__];
    the symbolic parameters are among the attributes of the outside
    routines. *)
Definition _init_from_symbolic_hamiltonian (symbolic_hamiltonian : Expr)
    (symbolic_param_dict : option (list (pystr * R)))
    (initiate_sym_calc : bool) (truncated_dim : Z) (ext_basis : ExtBasis)
  : Py.Exn + Circuit.t Expr X :=
  match symbolic_param_dict with
  | None => inl Py.TypeError
  | Some _ =>
      let self :=
        Circuit.mk None symbolic_hamiltonian None None None None [] [] ext_basis
                   false false sparse ∅ truncated_dim None [] (Circuit.fresh_state env) in
      match ((if initiate_sym_calc
              then Circuit.configure env None None None None
              else Py.ret tt)
             >> Circuit.call env Py.dispatch_register) self with
      | (self', inr _) => inr self'
      | (_, inl e) => inl e
      end
  end.

End defs.

End SymbolicInit.

(** ** The instances that the constructors and the modelled methods make *)

Module History.
Import Mat circuit_utils Hier.

Section defs.
Context {Expr X : Type}.
Variable env : Circuit.Env Expr X.


End defs.

End History.

(** ** [core/transmon_vchos_unordered.py]: the lowering operator *)

Module TransmonVCHOSUnordered.
Import Mat DiagonalOps.

Record t : Type := mk {
  EJ : R;
  EC : R;
  ng : R;
  kmax : Z;
  num_exc : Z
}.

(** [range(lo, hi)]. *)
Definition range (lo hi : Z) : list Z :=
  map (fun k => (lo + Z.of_nat k)%Z) (seq 0 (Z.to_nat (hi - lo))).

(** [np.diag(v, k=1)]: a square matrix one larger than [v], with [v[i]] at
    row [i], column [i + 1]. *)
Definition diag_above (v : list R) : matrix R :=
  tabulate (S (length v)) (S (length v))
    (fun i j => if Nat.eqb j (S i) then nth i v 0%R else 0%R).

(** [a_operator]: [np.diag([np.sqrt(num) for num in range(1, num_exc + 1)], k=1)]. *)
Definition a_operator (self : t) : matrix R :=
  let a := map (fun num => sqrt (IZR num)) (range 1 (num_exc self + 1)) in
  diag_above a.

(** [potential]: [-self.EJ * np.cos(phi)]. *)
Definition potential (self : t) (phi : R) : R := (- EJ self * cos phi)%R.

End TransmonVCHOSUnordered.

(** ** [ui/gui_custom_widgets.py]: the number field and its slider *)

Module Widgets.
Import circuit_utils.

(** A value of a number trait: a Python [float] (an [int] of an integer
    field is among the numbers), that is a real number, an infinity or NaN.
    A comparison with NaN is false. *)
Inductive pyfloat : Type :=
| NegInf
| Num (x : R)
| PosInf
| NaN.

(** [a < b]. *)
Definition flt (a b : pyfloat) : bool :=
  match a, b with
  | NaN, _ | _, NaN => false
  | _, NegInf => false
  | NegInf, _ => true
  | PosInf, _ => false
  | Num _, PosInf => true
  | Num x, Num y => if Rlt_dec x y then true else false
  end.

(** [a > b]. *)
Definition fgt (a b : pyfloat) : bool := flt b a.

(** The slider of a [NumberEntryWidget], with its two bounds set. *)
Record Slider : Type := mkSlider {
  slider_min : pyfloat;
  slider_max : pyfloat;
  slider_color : string;
  slider_v_model : pyfloat
}.

(** The traits of a [ValidatedNumberField] that its methods read or write.
    A bound that is [None] or the empty string is no bound. *)
Record NumberField : Type := mkField {
  v_model : pystr;
  v_min : option pyfloat;
  v_max : option pyfloat;
  num_value : pyfloat;
  _current_value : pyfloat;
  error : bool;
  rules_invalid : bool   (* [rules == ["invalid"]] rather than [[True]] *)
}.

Section defs.

(** [utils.is_string_float] or [utils.is_string_int], and the conversion
    [self._type(self.v_model)]. *)
Variable _typecheck_func : pystr -> bool.
Variable _type : pystr -> pyfloat.

(** [ValidatedNumberField._num_value]. *)
Definition _num_value (self : NumberField) : NumberField * pyfloat :=
  if negb (error self) then
    let value := _type (v_model self) in
    (mkField (v_model self) (v_min self) (v_max self) (num_value self) value
             (error self) (rules_invalid self), value)
  else (self, _current_value self).

(** The bound is neither [None] nor the empty string, and [x < bound]. *)
Definition below (bound : option pyfloat) (x : pyfloat) : bool :=
  match bound with
  | Some b => flt x b
  | None => false
  end.

(** The bound is neither [None] nor the empty string, and [x > bound]. *)
Definition above (bound : option pyfloat) (x : pyfloat) : bool :=
  match bound with
  | Some b => fgt x b
  | None => false
  end.

(** [ValidatedNumberField.is_entry_valid]: the bounds are compared with
    [self.num_value], the trait that holds the last value that was stored. *)
Definition is_entry_valid (self : NumberField) : NumberField * bool :=
  if negb (_typecheck_func (v_model self))
     || below (v_min self) (num_value self)
     || above (v_max self) (num_value self)
  then
    (mkField (v_model self) (v_min self) (v_max self) (num_value self)
             (_current_value self) true true, false)
  else
    let self1 := mkField (v_model self) (v_min self) (v_max self) (num_value self)
                         (_current_value self) false false in
    let '(self2, value) := _num_value self1 in
    (mkField (v_model self2) (v_min self2) (v_max self2) value
             (_current_value self2) (error self2) (rules_invalid self2), true).

End defs.

(** [NumberEntryWidget.update_slider]. *)
Definition update_slider (error : bool) (num_value : pyfloat) (slider : Slider) : Slider :=
  if error then slider
  else if fgt num_value (slider_max slider) then
    mkSlider (slider_min slider) (slider_max slider) "red" (slider_max slider)
  else if flt num_value (slider_min slider) then
    mkSlider (slider_min slider) (slider_max slider) "red" (slider_min slider)
  else
    mkSlider (slider_min slider) (slider_max slider) EmptyString num_value.

End Widgets.

(** * Properties *)

Import Mat Cplx circuit_utils Hier.

Import Mat Cplx circuit_utils.

Lemma nth_map_seq {A} (f : nat -> A) (n i : nat) (d : A) :
  (i < n)%nat -> nth i (map f (seq 0 n)) d = f i.
Proof.
  intros Hi.
  rewrite (nth_indep _ d (f 0%nat)) by (rewrite length_map, length_seq; exact Hi).
  rewrite map_nth, seq_nth by exact Hi. reflexivity.
Qed.

Section matrix_facts.
Context {A : Type}.

Lemma entry_tabulate (d : A) (n m : nat) (f : nat -> nat -> A) (i j : nat) :
  (i < n)%nat -> (j < m)%nat -> entry d (tabulate n m f) i j = f i j.
Proof.
  intros Hi Hj. unfold entry, tabulate.
  rewrite (nth_map_seq (fun i => map (fun j => f i j) (seq 0 m))) by exact Hi.
  apply nth_map_seq, Hj.
Qed.

Lemma nrows_tabulate (n m : nat) (f : nat -> nat -> A) : nrows (tabulate n m f) = n.
Proof. unfold nrows, tabulate. rewrite length_map, length_seq. reflexivity. Qed.

Lemma ncols_tabulate (n m : nat) (f : nat -> nat -> A) : ncols_are m (tabulate n m f).
Proof.
  unfold ncols_are, tabulate. apply Forall_map, Forall_forall. intros i _. simpl.
  rewrite length_map, length_seq. reflexivity.
Qed.

End matrix_facts.

Lemma mapm_tabulate {A B} (g : A -> B) n m (f : nat -> nat -> A) :
  mapm g (tabulate n m f) = tabulate n m (fun i j => g (f i j)).
Proof.
  unfold mapm, tabulate. rewrite map_map. apply map_ext. intros i.
  rewrite map_map. reflexivity.
Qed.

Lemma zip_with_map_same {A B C D} (h : B -> C -> D) (f : A -> B) (g : A -> C) (l : list A) :
  zip_with h (map f l) (map g l) = map (fun x => h (f x) (g x)) l.
Proof. induction l as [|x l IH]; simpl; [reflexivity | rewrite IH; reflexivity]. Qed.

Lemma map2_tabulate {A B C} (h : A -> B -> C) n m f g :
  map2 h (tabulate n m f) (tabulate n m g) = tabulate n m (fun i j => h (f i j) (g i j)).
Proof.
  unfold map2, tabulate. rewrite zip_with_map_same. apply map_ext. intros i.
  apply zip_with_map_same.
Qed.

Lemma tabulate_ext {A} (n m : nat) (f g : nat -> nat -> A) :
  (forall i j, (i < n)%nat -> (j < m)%nat -> f i j = g i j) ->
  tabulate n m f = tabulate n m g.
Proof.
  intros H. unfold tabulate. apply map_ext_in. intros i Hi.
  apply map_ext_in. intros j Hj.
  apply in_seq in Hi, Hj. apply H; lia.
Qed.

(** *** Discretised flux operators *)

Lemma cos_phi_entry (grid : Grid1d) (i j : nat) :
  (i < pt_count grid)%nat -> (j < pt_count grid)%nat ->
  entry 0%R (_cos_phi grid) i j
  = if Nat.eqb i j then cos (nth i (make_linspace grid) 0%R) else 0%R.
Proof.
  intros Hi Hj. unfold _cos_phi, setdiag. rewrite entry_tabulate by assumption.
  destruct (Nat.eqb i j); [|reflexivity].
  rewrite (nth_indep _ 0%R (cos 0%R)).
  - apply map_nth.
  - rewrite length_map. unfold make_linspace. rewrite length_map, length_seq. exact Hi.
Qed.

(** Claim C2 holds for the cosine and fails on the code for the sine:
    [_cos_phi] is the diagonal matrix of the cosines of the grid
    coordinates, and [_sin_phi] fills the diagonal with the cosines too.
    On the grid of the points 0 and 1 its first diagonal entry is
    [cos 0 = 1], where the sine of the coordinate is 0. *)
Theorem sin_phi_fills_in_cosines :
  (forall grid i j,
     (i < pt_count grid)%nat -> (j < pt_count grid)%nat ->
     entry 0%R (_cos_phi grid) i j
     = if Nat.eqb i j then cos (nth i (make_linspace grid) 0%R) else 0%R)
  /\ (forall grid, _sin_phi grid = _cos_phi grid)
  /\ entry 0%R (_sin_phi Toy.unit_grid) 0 0 = 1%R
  /\ sin (nth 0 (make_linspace Toy.unit_grid) 0%R) = 0%R
  /\ _sin_phi Toy.unit_grid
     <> setdiag (pt_count Toy.unit_grid) (map sin (make_linspace Toy.unit_grid)).
Proof.
  assert (H0 : nth 0 (make_linspace Toy.unit_grid) 0%R = 0%R).
  { unfold make_linspace, Toy.unit_grid. simpl. lra. }
  assert (He : entry 0%R (_sin_phi Toy.unit_grid) 0 0 = 1%R).
  { change (_sin_phi Toy.unit_grid) with (_cos_phi Toy.unit_grid).
    rewrite cos_phi_entry by (simpl; lia). simpl Nat.eqb. cbv iota.
    rewrite H0. apply cos_0. }
  split; [exact cos_phi_entry|].
  split; [reflexivity|]. split; [exact He|]. split; [rewrite H0; apply sin_0|].
  intros Heq. rewrite Heq in He.
  unfold setdiag in He. rewrite entry_tabulate in He by (simpl; lia).
  simpl Nat.eqb in He. cbv iota in He.
  rewrite (nth_indep _ 0%R (sin 0%R)) in He by (simpl; lia).
  rewrite map_nth, H0, sin_0 in He. lra.
Qed.

Import Mat Cplx circuit_utils.

Lemma nth_arange (lo hi : Z) (k : nat) :
  (Z.of_nat k < hi - lo)%Z -> nth k (arange lo hi) 0%Z = (lo + Z.of_nat k)%Z.
Proof.
  intros Hk. unfold arange.
  apply (nth_map_seq (fun k => (lo + Z.of_nat k)%Z)). lia.
Qed.

Lemma nth_ones (n k : nat) : (k < n)%nat -> nth k (ones n) 0%R = 1%R.
Proof.
  intros Hk. unfold ones. revert k Hk.
  induction n as [|n IH]; intros [|k] Hk; simpl; try lia; [reflexivity|].
  apply IH. lia.
Qed.

Lemma diagonal_test (i j : nat) (k : Z) :
  (Z.of_nat j - Z.of_nat i =? k)%Z = bool_decide (Z.of_nat j = Z.of_nat i + k)%Z.
Proof.
  destruct (Z.eqb_spec (Z.of_nat j - Z.of_nat i) k) as [H|H];
    symmetry; [apply bool_decide_eq_true | apply bool_decide_eq_false]; lia.
Qed.

(** Claim C3: for a cutoff [ncut >= 0] the six operators of a periodic
    variable are square matrices of dimension [2 ncut + 1]. The identity
    has ones on the diagonal and zeros elsewhere; the charge operator is
    diagonal, with the integers from [-ncut] to [ncut] in this order on the
    diagonal; the two generators have ones on the first diagonal above,
    respectively below, the main one and zeros elsewhere; the cosine is
    half their sum and the sine is [-i/2] times their difference, so that
    they have [1/2], respectively [-i/2] and [i/2], on these two
    diagonals. *)
Theorem periodic_operators (ncut : Z) (Hn : (0 <= ncut)%Z) :
  let dim := Z.to_nat (2 * ncut + 1) in
  let square {A} (M : matrix A) := nrows M = dim /\ ncols_are dim M in
  (dim = 2 * Z.to_nat ncut + 1)%nat
  /\ (square (_identity_theta ncut) /\ square (_n_theta_operator ncut)
      /\ square (_exp_i_theta_operator ncut)
      /\ square (_exp_i_theta_operator_conjugate ncut)
      /\ square (_cos_theta ncut) /\ square (_sin_theta ncut))
  /\ _identity_theta ncut
     = tabulate dim dim (fun i j => if Nat.eqb i j then 1%R else 0%R)
  /\ _n_theta_operator ncut
     = tabulate dim dim (fun i j => if Nat.eqb i j then (Z.of_nat i - ncut)%Z else 0%Z)
  /\ (forall k, (- ncut <= k <= ncut)%Z ->
        entry 0%Z (_n_theta_operator ncut) (Z.to_nat (k + ncut)) (Z.to_nat (k + ncut)) = k)
  /\ _exp_i_theta_operator ncut
     = tabulate dim dim (fun i j => if Nat.eqb j (S i) then 1%R else 0%R)
  /\ _exp_i_theta_operator_conjugate ncut
     = tabulate dim dim (fun i j => if Nat.eqb i (S j) then 1%R else 0%R)
  /\ _cos_theta ncut
     = tabulate dim dim
         (fun i j => (1 / 2 * (entry 0%R (_exp_i_theta_operator ncut) i j
                               + entry 0%R (_exp_i_theta_operator_conjugate ncut) i j))%R)
  /\ _sin_theta ncut
     = tabulate dim dim
         (fun i j => mkC 0 (- (1 / 2)
                            * (entry 0%R (_exp_i_theta_operator ncut) i j
                               - entry 0%R (_exp_i_theta_operator_conjugate ncut) i j))%R)
  /\ _cos_theta ncut
     = tabulate dim dim
         (fun i j => if Nat.eqb j (S i) || Nat.eqb i (S j) then (1 / 2)%R else 0%R)
  /\ _sin_theta ncut
     = tabulate dim dim
         (fun i j => if Nat.eqb j (S i) then mkC 0 (- (1 / 2))
                     else if Nat.eqb i (S j) then mkC 0 (1 / 2) else mkC 0 0).
Proof.
  intros dim square.
  assert (Hid : _identity_theta ncut
                = tabulate dim dim (fun i j => if Nat.eqb i j then 1%R else 0%R))
    by reflexivity.
  assert (Hcharge : _n_theta_operator ncut
                    = tabulate dim dim
                        (fun i j => if Nat.eqb i j then (Z.of_nat i - ncut)%Z else 0%Z)).
  { unfold _n_theta_operator, dia_matrix. fold dim.
    apply tabulate_ext. intros i j Hi Hj. rewrite diagonal_test.
    destruct (Nat.eqb_spec i j) as [->|Hne].
    - rewrite bool_decide_eq_true_2 by lia.
      rewrite nth_arange by (subst dim; lia). lia.
    - rewrite bool_decide_eq_false_2 by lia. reflexivity. }
  assert (Hplus : _exp_i_theta_operator ncut
                  = tabulate dim dim (fun i j => if Nat.eqb j (S i) then 1%R else 0%R)).
  { unfold _exp_i_theta_operator, dia_matrix. fold dim.
    apply tabulate_ext. intros i j Hi Hj. rewrite diagonal_test.
    destruct (Nat.eqb_spec j (S i)) as [->|Hne].
    - rewrite bool_decide_eq_true_2 by lia. apply nth_ones. exact Hj.
    - rewrite bool_decide_eq_false_2 by lia. reflexivity. }
  assert (Hminus : _exp_i_theta_operator_conjugate ncut
                   = tabulate dim dim (fun i j => if Nat.eqb i (S j) then 1%R else 0%R)).
  { unfold _exp_i_theta_operator_conjugate, dia_matrix. fold dim.
    apply tabulate_ext. intros i j Hi Hj. rewrite diagonal_test.
    destruct (Nat.eqb_spec i (S j)) as [->|Hne].
    - rewrite bool_decide_eq_true_2 by lia. apply nth_ones. exact Hj.
    - rewrite bool_decide_eq_false_2 by lia. reflexivity. }
  assert (Hcos : _cos_theta ncut
                 = tabulate dim dim
                     (fun i j =>
                        (1 / 2 * (entry 0%R (_exp_i_theta_operator ncut) i j
                                  + entry 0%R (_exp_i_theta_operator_conjugate ncut) i j))%R)).
  { unfold _cos_theta. rewrite Hplus, Hminus, map2_tabulate, mapm_tabulate.
    apply tabulate_ext. intros i j Hi Hj.
    rewrite !entry_tabulate by assumption. reflexivity. }
  assert (Hsin : _sin_theta ncut
                 = tabulate dim dim
                     (fun i j =>
                        mkC 0 (- (1 / 2)
                               * (entry 0%R (_exp_i_theta_operator ncut) i j
                                  - entry 0%R (_exp_i_theta_operator_conjugate ncut) i j))%R)).
  { unfold _sin_theta. rewrite Hplus, Hminus, map2_tabulate, mapm_tabulate.
    apply tabulate_ext. intros i j Hi Hj.
    rewrite !entry_tabulate by assumption.
    unfold mul, neg_j, of_real. simpl. f_equal; lra. }
  assert (Hsq : forall A (M : matrix A) f, M = tabulate dim dim f -> square A M).
  { intros A M f ->. split; [apply nrows_tabulate | apply ncols_tabulate]. }
  split; [subst dim; lia|].
  split; [repeat split; eapply Hsq; eassumption|].
  split; [exact Hid|]. split; [exact Hcharge|].
  split.
  { intros k Hk. rewrite Hcharge, entry_tabulate by (subst dim; lia).
    rewrite Nat.eqb_refl. lia. }
  split; [exact Hplus|]. split; [exact Hminus|].
  split; [exact Hcos|]. split; [exact Hsin|]. split.
  - rewrite Hcos. apply tabulate_ext. intros i j Hi Hj.
    rewrite Hplus, Hminus, !entry_tabulate by assumption.
    destruct (Nat.eqb_spec j (S i)) as [H1|H1];
      destruct (Nat.eqb_spec i (S j)) as [H2|H2]; simpl; try lia; lra.
  - rewrite Hsin. apply tabulate_ext. intros i j Hi Hj.
    rewrite Hplus, Hminus, !entry_tabulate by assumption.
    destruct (Nat.eqb_spec j (S i)) as [H1|H1];
      destruct (Nat.eqb_spec i (S j)) as [H2|H2]; try lia; f_equal; lra.
Qed.

Lemma periodic_operators_witness :
  (0 <= 2)%Z
  /\ nrows (_n_theta_operator 2) = 5%nat
  /\ entry 0%Z (_n_theta_operator 2) 0 0 = (-2)%Z
  /\ entry 0%R (_exp_i_theta_operator 2) 0 1 = 1%R.
Proof.
  split; [lia|].
  destruct (periodic_operators 2 ltac:(lia))
    as (_ & (_ & [Hrows _] & _) & _ & _ & Hdiag & Hplus & _).
  split; [exact Hrows|]. split; [exact (Hdiag (-2)%Z ltac:(lia))|].
  rewrite Hplus. apply entry_tabulate; simpl; lia.
Defined.

(** *** The pattern of [get_trailing_number] *)

Section trailing.
Variable dec : N -> option Z.

Lemma take_digits_cons (r : list N) (c : N) (ds : list N) :
  take_digits dec r = c :: ds ->
  exists r', r = c :: r' /\ is_digit dec c = true.
Proof.
  destruct r as [|c' r']; simpl; [discriminate|].
  destruct (is_digit dec c') eqn:Hc; [|discriminate].
  intros [= <- _]. eauto.
Qed.

Lemma rev_eq_cons (s r : list N) (c : N) : rev s = c :: r -> s = rev r ++ [c].
Proof. intros H. rewrite <- (rev_involutive s), H. reflexivity. Qed.

Lemma search_none_iff (name : pystr) :
  search_trailing_digits dec name = None <-> ~ has_trailing_index dec name.
Proof.
  unfold search_trailing_digits. split.
  - intros Hnone (stem & digits & Hne & Hall & Hname).
    destruct (exists_last Hne) as (ds & d & ->).
    apply Forall_app in Hall as [_ Hd]. apply Forall_inv in Hd.
    destruct Hname as [-> | ->].
    + rewrite app_assoc, rev_unit in Hnone. simpl in Hnone.
      rewrite Hd in Hnone. discriminate.
    + rewrite !app_assoc, rev_unit in Hnone.
      rewrite rev_unit in Hnone. simpl in Hnone.
      destruct (is_digit dec LF); [discriminate|].
      simpl in Hnone. rewrite Hd in Hnone. discriminate.
  - intros Hno.
    destruct (take_digits dec (rev name)) as [|c ds] eqn:Htake.
    + destruct (rev name) as [|c r'] eqn:Hrev; [reflexivity|].
      destruct (N.eqb_spec c LF) as [->|]; [|reflexivity].
      destruct (take_digits dec r') as [|d ds] eqn:Htake'; [reflexivity|].
      exfalso. apply Hno.
      apply take_digits_cons in Htake' as (r'' & -> & Hd).
      apply rev_eq_cons in Hrev. simpl in Hrev.
      exists (rev r''), [d]. split; [discriminate|]. split; [repeat constructor; exact Hd|].
      right. rewrite Hrev, <- app_assoc. reflexivity.
    + exfalso. apply Hno.
      apply take_digits_cons in Htake as (r' & Hrev & Hc).
      apply rev_eq_cons in Hrev.
      exists (rev r'), [c]. split; [discriminate|]. split; [repeat constructor; exact Hc|].
      left. exact Hrev.
Qed.

Lemma get_trailing_number_none_iff (name : pystr) :
  get_trailing_number dec name = None <-> ~ has_trailing_index dec name.
Proof.
  rewrite <- search_none_iff. unfold get_trailing_number.
  destruct (search_trailing_digits dec name); split; congruence.
Qed.

End trailing.

Example get_trailing_number_a23 :
  get_trailing_number ascii_decimal [97; 50; 51]%N = Some 23%Z.
Proof. reflexivity. Qed.

Example get_trailing_number_theta :
  get_trailing_number ascii_decimal [952]%N = None.
Proof. reflexivity. Qed.

Example get_trailing_number_before_line_feed :
  get_trailing_number ascii_decimal [97; 50; 51; 10]%N = Some 23%Z.
Proof. reflexivity. Qed.

(** *** Method bodies: general facts *)

Section method_bodies.
Context {S : Type}.
Implicit Types (I : S -> Prop).

Lemma bind_returns {A B} (m : Py.M S A) (k : A -> Py.M S B) s s' b :
  Py.bind m k s = (s', inr b) ->
  exists s1 a, m s = (s1, inr a) /\ k a s1 = (s', inr b).
Proof.
  unfold Py.bind. destruct (m s) as [s1 [e|a]]; [discriminate|]. eauto.
Qed.

Lemma bind_raises {A B} (m : Py.M S A) (k : A -> Py.M S B) s s' e :
  Py.bind m k s = (s', inl e) ->
  m s = (s', inl e) \/ exists s1 a, m s = (s1, inr a) /\ k a s1 = (s', inl e).
Proof.
  unfold Py.bind. destruct (m s) as [s1 [e1|a]]; [left; congruence | right; eauto].
Qed.

Lemma get_returns (s s' a : S) : Py.get s = (s', inr a) -> s' = s /\ a = s.
Proof. unfold Py.get. intros H. split; congruence. Qed.

Lemma modify_returns (f : S -> S) (s s' : S) u : Py.modify f s = (s', inr u) -> s' = f s.
Proof. unfold Py.modify. congruence. Qed.

Lemma ret_returns {A} (a b : A) (s s' : S) : Py.ret a s = (s', inr b) -> s' = s /\ b = a.
Proof. unfold Py.ret. intros H. split; congruence. Qed.

Lemma maintains_ret {A} I (a : A) : Py.maintains I (Py.ret a).
Proof. intros s Hs. exact Hs. Qed.

Lemma maintains_raise {A} I e : Py.maintains I (@Py.raise S A e).
Proof. intros s Hs. exact Hs. Qed.

Lemma maintains_modify I (f : S -> S) :
  (forall s, I s -> I (f s)) -> Py.maintains I (Py.modify f).
Proof. intros Hf s Hs. apply Hf, Hs. Qed.

Lemma maintains_bind {A B} I (m : Py.M S A) (k : A -> Py.M S B) :
  Py.maintains I m -> (forall a, Py.maintains I (k a)) -> Py.maintains I (Py.bind m k).
Proof.
  intros Hm Hk s Hs. unfold Py.bind. specialize (Hm s Hs).
  destruct (m s) as [s1 [e|a]]; simpl in *; [exact Hm|]. apply Hk, Hm.
Qed.

Lemma maintains_get_bind {B} I (k : S -> Py.M S B) :
  (forall self, I self -> Py.maintains I (k self)) -> Py.maintains I (Py.bind Py.get k).
Proof. intros Hk s Hs. unfold Py.bind, Py.get. apply Hk; exact Hs. Qed.


Lemma maintains_for_each {A} I (l : list A) (body : A -> Py.M S unit) :
  (forall x, Py.maintains I (body x)) -> Py.maintains I (Py.for_each l body).
Proof.
  intros Hb. induction l as [|x l IH]; simpl; [apply maintains_ret|].
  apply maintains_bind; [apply Hb | intros _; exact IH].
Qed.

Lemma maintains_run {A} I (m : Py.M S A) s s' r :
  Py.maintains I m -> I s -> m s = (s', r) -> I s'.
Proof. intros Hm Hs Heq. specialize (Hm s Hs). rewrite Heq in Hm. exact Hm. Qed.

Lemma raises_only_ret {A} P (a : A) : Py.raises_only P (@Py.ret S A a).
Proof. intros s s' e [=]. Qed.

Lemma raises_only_get P : Py.raises_only P (@Py.get S).
Proof. intros s s' e [=]. Qed.

Lemma raises_only_modify P (f : S -> S) : Py.raises_only P (Py.modify f).
Proof. intros s s' e [=]. Qed.

Lemma raises_only_raise {A} (P : Py.Exn -> Prop) e : P e -> Py.raises_only P (@Py.raise S A e).
Proof. intros He s s' e' [= _ <-]. exact He. Qed.

Lemma raises_only_bind {A B} P (m : Py.M S A) (k : A -> Py.M S B) :
  Py.raises_only P m -> (forall a, Py.raises_only P (k a)) ->
  Py.raises_only P (Py.bind m k).
Proof.
  intros Hm Hk s s1 e1 Hb.
  apply bind_raises in Hb as [Hb | (s2 & a & _ & Hb)]; [eapply Hm | eapply Hk]; exact Hb.
Qed.

Lemma raises_only_for_each {A} P (l : list A) (body : A -> Py.M S unit) :
  (forall x, Py.raises_only P (body x)) -> Py.raises_only P (Py.for_each l body).
Proof.
  intros Hb. induction l as [|x l IH]; simpl; [apply raises_only_ret|].
  apply raises_only_bind; [apply Hb | intros _; exact IH].
Qed.

Lemma always_raises_raise {A} e : Py.always_raises (@Py.raise S A e).
Proof. intros s. exists s, e. reflexivity. Qed.

Lemma always_raises_bind {A B} (m : Py.M S A) (k : A -> Py.M S B) :
  (forall a, Py.always_raises (k a)) -> Py.always_raises (Py.bind m k).
Proof.
  intros Hk s. unfold Py.bind. destruct (m s) as [s1 [e|a]]; [eauto|]. apply Hk.
Qed.

Lemma always_raises_first {A B} (m : Py.M S A) (k : A -> Py.M S B) :
  Py.always_raises m -> Py.always_raises (Py.bind m k).
Proof.
  intros Hm s. unfold Py.bind. destruct (Hm s) as (s1 & e & ->). eauto.
Qed.

End method_bodies.

(** *** Subsystem *)

Section subsystem_facts.
Context {Expr X : Type} (env : Subsystem.Env Expr X).
Import Subsystem.

Lemma maintains_call (I : t Expr X -> Prop) r :
  (forall s x, I s -> I (upd_routines_state x s)) -> Py.maintains I (call env r).
Proof.
  intros HI s Hs. unfold call.
  destruct (call_routine env r s) as [x []]; simpl; apply HI, Hs.
Qed.

Ltac subsystem_maintains :=
  repeat
    match goal with
    | |- Py.maintains _ (Py.ret _) => apply maintains_ret
    | |- Py.maintains _ (Py.raise _) => apply maintains_raise
    | |- Py.maintains _ (call _ _) => apply maintains_call; intros ? ? ?
    | |- Py.maintains _ (Py.modify _) => apply maintains_modify; intros ? ?
    | |- Py.maintains _ (Py.bind Py.get _) => apply maintains_get_bind; intros ? ?
    | |- Py.maintains _ (Py.bind _ _) => apply maintains_bind; [|intros ?]
    | |- Py.maintains _ (if ?b then _ else _) => destruct b
    end.

(** [_configure] writes [ext_basis], [is_purely_harmonic] and the
    attributes of the outside routines, nothing else. *)
Lemma _configure_frame {B} (f : t Expr X -> B) (s : t Expr X) :
  (forall v s', f (upd_ext_basis v s') = f s') ->
  (forall v s', f (upd_is_purely_harmonic v s') = f s') ->
  (forall v s', f (upd_routines_state v s') = f s') ->
  f (_configure env s).1 = f s.
Proof.
  intros H1 H2 H3.
  assert (Hm : Py.maintains (fun s' => f s' = f s) (_configure env)).
  { unfold _configure. subsystem_maintains; rewrite ?H1, ?H2, ?H3; assumption. }
  apply Hm. reflexivity.
Qed.

Lemma call_returns r (s s' : t Expr X) u :
  call env r s = (s', inr u) -> exists x, s' = upd_routines_state x s.
Proof.
  unfold call. destruct (call_routine env r s) as [x []]; [discriminate|].
  intros [= <- _]. eauto.
Qed.

(** What a completed [_configure] has decided about the basis. *)
Lemma _configure_harmonic (s s' : t Expr X) u :
  _configure env s = (s', inr u) ->
  is_purely_harmonic s' = _is_expression_purely_harmonic env (hamiltonian_symbolic s)
  /\ ext_basis s' = (if is_purely_harmonic s' then harmonic else ext_basis s).
Proof.
  unfold _configure. intros Hrun.
  repeat (apply bind_returns in Hrun as (? & ? & Hc & Hrun);
          apply call_returns in Hc as (? & ->)).
  apply bind_returns in Hrun as (s1 & self & Hget & Hrun).
  injection Hget as <- <-. simpl in Hrun.
  apply bind_returns in Hrun as (s2 & [] & Hblock & Hrest).
  assert (Hs2 : is_purely_harmonic s2
                = _is_expression_purely_harmonic env (hamiltonian_symbolic s)
                /\ ext_basis s2 = (if is_purely_harmonic s2 then harmonic else ext_basis s)).
  { destruct (_is_expression_purely_harmonic env (hamiltonian_symbolic s)).
    - apply bind_returns in Hblock as (? & ? & Hm & Hblock). injection Hm as <- <-.
      apply bind_returns in Hblock as (? & ? & Hm & Hblock). injection Hm as <- <-.
      apply call_returns in Hblock as (? & ->). simpl. auto.
    - injection Hblock as <-. simpl. auto. }
  assert (Hm : Py.maintains
                 (fun s3 => is_purely_harmonic s3 = is_purely_harmonic s2
                            /\ ext_basis s3 = ext_basis s2)
                 (Py.bind (call env Py._set_vars) (fun _ =>
                  Py.bind (call env Py.generate_hamiltonian_sym_for_numerics) (fun _ =>
                  Py.bind Py.get (fun self =>
                  Py.bind (if hierarchical_diagonalization self
                           then Py.bind (call env Py.generate_subsystems) (fun _ =>
                                Py.bind (call env Py.update_interactions) (fun _ =>
                                Py.bind (call env Py._check_truncation_indices) (fun _ =>
                                call env Py.set_operators)))
                           else call env Py.set_operators) (fun _ =>
                  Py.bind Py.get (fun self =>
                    if hierarchical_diagonalization self
                    then call env Py.dispatch_register else Py.ret tt))))))).
  { subsystem_maintains; simpl; assumption. }
  destruct (maintains_run _ _ _ _ _ Hm (conj eq_refl eq_refl) Hrest) as [-> ->].
  exact Hs2.
Qed.

End subsystem_facts.

Section subsystem_claims.
Context {Expr X : Type} (env : Subsystem.Env Expr X).
Import Subsystem.

Lemma lookup_filter_categories (key : string) (d : categories) (indices : list Z) :
  lookup_category key (filter_categories d indices)
  = filter (fun i => i ∈ indices) <$> lookup_category key d.
Proof.
  induction d as [|[k v] d IH]; simpl; [reflexivity|].
  destruct (String.eqb k key); [reflexivity | exact IH].
Qed.

Lemma elem_of_fold_add_var_index (names : list pystr) (acc : list Z) (i : Z) :
  i ∈ fold_left (add_var_index env) names acc
  <-> i ∈ acc
      \/ exists name, name ∈ names
                      /\ get_trailing_number (unicode_decimal env) name = Some i.
Proof.
  revert acc. induction names as [|name names IH]; intros acc; simpl.
  - split; [auto|]. intros [H | (name & H & _)]; [exact H|]. inversion H.
  - rewrite IH. unfold add_var_index.
    destruct (get_trailing_number (unicode_decimal env) name) as [j|] eqn:Hj.
    + destruct (decide (j ∈ acc)) as [Hin|Hnin].
      * split.
        -- intros [H | (n & Hn & Hg)]; [auto|]. right. exists n. split; [right; exact Hn | exact Hg].
        -- intros [H | (n & Hn & Hg)]; [auto|].
           apply elem_of_cons in Hn as [-> | Hn]; [|right; eauto].
           left. congruence.
      * split.
        -- intros [H | (n & Hn & Hg)].
           ++ apply elem_of_app in H as [H | H]; [auto|].
              apply list_elem_of_singleton in H as ->. right. exists name. split; [left | exact Hj].
           ++ right. exists n. split; [right; exact Hn | exact Hg].
        -- intros [H | (n & Hn & Hg)].
           ++ left. apply elem_of_app. auto.
           ++ apply elem_of_cons in Hn as [-> | Hn]; [|right; eauto].
              left. apply elem_of_app. right. rewrite Hj in Hg. injection Hg as ->. left.
    + split.
      * intros [H | (n & Hn & Hg)]; [auto|]. right. exists n. split; [right; exact Hn | exact Hg].
      * intros [H | (n & Hn & Hg)]; [auto|].
        apply elem_of_cons in Hn as [-> | Hn]; [congruence | right; eauto].
Qed.

Lemma elem_of_collect_var_indices (names : list pystr) (i : Z) :
  i ∈ collect_var_indices env names
  <-> exists name, name ∈ names
                   /\ get_trailing_number (unicode_decimal env) name = Some i.
Proof.
  unfold collect_var_indices. rewrite merge_sort_Permutation.
  rewrite elem_of_fold_add_var_index. split; [|auto].
  intros [H | H]; [inversion H | exact H].
Qed.

Lemma __init___returns parent H sh td dim self :
  __init__ env parent H sh td dim = inr self ->
  exists hierarchy u,
    sh = Some hierarchy
    /\ _configure env (before_configure env parent H hierarchy td dim) = (self, inr u).
Proof.
  unfold __init__. destruct sh as [hierarchy|]; [|discriminate].
  destruct (_configure env _) as [s' [e|u]] eqn:Hrun; [discriminate|].
  intros [= <-]. eauto.
Qed.

Lemma __init___frame {B} (f : t Expr X -> B) parent H hierarchy td dim self u :
  (forall v s', f (upd_ext_basis v s') = f s') ->
  (forall v s', f (upd_is_purely_harmonic v s') = f s') ->
  (forall v s', f (upd_routines_state v s') = f s') ->
  _configure env (before_configure env parent H hierarchy td dim) = (self, inr u) ->
  f self = f (before_configure env parent H hierarchy td dim).
Proof.
  intros H1 H2 H3 Hrun.
  rewrite <- (_configure_frame env f (before_configure env parent H hierarchy td dim) H1 H2 H3).
  rewrite Hrun. reflexivity.
Qed.

(** Claim C7: the variable categories of a subsystem are the parent's lists
    filtered to the variable indices that occur in the subsystem's
    Hamiltonian (the trailing numbers of its operator names), so each is
    included in the parent's list of the same category. *)
Theorem subsystem_categories_are_filtered parent H sh td dim self :
  __init__ env parent H sh td dim = inr self ->
  (forall i, i ∈ var_index_list self
             <-> exists name,
                   name ∈ operator_names_in_hamiltonian_symbolic env H
                   /\ get_trailing_number (unicode_decimal env) name = Some i)
  /\ forall var_type,
       lookup_category var_type (var_categories self)
       = filter (fun i => i ∈ var_index_list self)
           <$> lookup_category var_type (parent_var_categories parent)
       /\ forall indices,
            lookup_category var_type (var_categories self) = Some indices ->
            exists parent_indices,
              lookup_category var_type (parent_var_categories parent) = Some parent_indices
              /\ indices ⊆ parent_indices.
Proof.
  intros Hinit. apply __init___returns in Hinit as (hierarchy & u & -> & Hrun).
  assert (Hv : var_index_list self
               = collect_var_indices env (operator_names_in_hamiltonian_symbolic env H)).
  { rewrite (__init___frame var_index_list _ _ _ _ _ _ _
               ltac:(reflexivity) ltac:(reflexivity) ltac:(reflexivity) Hrun).
    reflexivity. }
  assert (Hc : var_categories self
               = filter_categories (parent_var_categories parent) (var_index_list self)).
  { rewrite Hv.
    rewrite (__init___frame var_categories _ _ _ _ _ _ _
               ltac:(reflexivity) ltac:(reflexivity) ltac:(reflexivity) Hrun).
    reflexivity. }
  split.
  - intros i. rewrite Hv. apply elem_of_collect_var_indices.
  - intros var_type.
    assert (Hl : lookup_category var_type (var_categories self)
                 = filter (fun i => i ∈ var_index_list self)
                     <$> lookup_category var_type (parent_var_categories parent)).
    { rewrite Hc at 1. apply lookup_filter_categories. }
    split; [exact Hl|].
    intros indices Hsome. rewrite Hl in Hsome.
    destruct (lookup_category var_type (parent_var_categories parent)) as [lp|];
      [|discriminate].
    exists lp. split; [reflexivity|]. injection Hsome as <-.
    intros i Hi. apply list_elem_of_filter in Hi. tauto.
Qed.

(** The kind of matrices is fixed from the basis inherited from the parent. *)
Lemma subsystem_matrix_kind parent H sh td dim self :
  __init__ env parent H sh td dim = inr self ->
  type_of_matrices self
  = if bool_decide (length (var_index_list self) = 1%nat)
       && bool_decide (parent_ext_basis parent = harmonic)
    then dense else sparse.
Proof.
  intros Hinit. apply __init___returns in Hinit as (hierarchy & u & -> & Hrun).
  rewrite (__init___frame type_of_matrices _ _ _ _ _ _ _
             ltac:(reflexivity) ltac:(reflexivity) ltac:(reflexivity) Hrun).
  rewrite (__init___frame var_index_list _ _ _ _ _ _ _
             ltac:(reflexivity) ltac:(reflexivity) ltac:(reflexivity) Hrun).
  reflexivity.
Qed.

Lemma subsystem_harmonic_basis parent H sh td dim self :
  __init__ env parent H sh td dim = inr self ->
  is_purely_harmonic self = _is_expression_purely_harmonic env H
  /\ ext_basis self = (if is_purely_harmonic self then harmonic else parent_ext_basis parent).
Proof.
  intros Hinit. apply __init___returns in Hinit as (hierarchy & u & -> & Hrun).
  apply _configure_harmonic in Hrun. exact Hrun.
Qed.



End subsystem_claims.

Lemma bind_get {S B} (k : S -> Py.M S B) (s : S) : Py.bind Py.get k s = k s s.
Proof. reflexivity. Qed.

Lemma modify_never_raises {S} (f : S -> S) (s s' : S) e : Py.modify f s <> (s', inl e).
Proof. discriminate. Qed.

Lemma py_or_same {A} (a : option (list A)) : Py.py_or a a = a.
Proof. unfold Py.py_or. destruct (Py.truthy a); reflexivity. Qed.

Section circuit_facts.
Context {Expr X : Type} (env : Circuit.Env Expr X).
Import Circuit.

Lemma maintains_circuit_call (I : t Expr X -> Prop) r :
  (forall s x, I s -> I (upd_routines_state x s)) -> Py.maintains I (call env r).
Proof.
  intros HI s Hs. unfold call.
  destruct (call_routine env r s) as [x []]; simpl; apply HI, Hs.
Qed.

Lemma maintains_builder_step (I : t Expr X -> Prop) sc tm cb :
  (forall s sc', I s -> I (upd_symbolic_circuit (Some sc') s)) ->
  Py.maintains I
    (fun s => match symbolic_circuit_configure env sc tm cb with
              | (sc', false) => (upd_symbolic_circuit (Some sc') s, inr tt)
              | (sc', true) =>
                  (upd_symbolic_circuit (Some sc') s,
                   inl (Py.RoutineError Py.symbolic_circuit_configure))
              end).
Proof.
  intros HI s Hs. destruct (symbolic_circuit_configure env sc tm cb) as [sc' []];
    simpl; apply HI, Hs.
Qed.

End circuit_facts.

(** Splits a goal [maintains I body] along the structure of [body]; the
    argument closes the goals about single writes. *)
Ltac circuit_maintains close :=
  repeat
    match goal with
    | |- Py.maintains _ (Py.ret _) => apply maintains_ret
    | |- Py.maintains _ (Py.raise _) => apply maintains_raise
    | |- Py.maintains _ (Circuit.call _ _) =>
        apply maintains_circuit_call; intros ? ? ?; close
    | |- Py.maintains _ (Py.modify _) => apply maintains_modify; intros ? ?; close
    | |- Py.maintains _ (Py.bind Py.get _) => apply maintains_get_bind; intros ? ?
    | |- Py.maintains _ (Py.bind _ _) => apply maintains_bind; [|intros ?]
    | |- Py.maintains _ (Py.for_each _ _) => apply maintains_for_each; intros ?
    | |- Py.maintains _ (if ?b then _ else _) => destruct b
    | |- Py.maintains _ (match ?x with _ => _ end) => destruct x
    | |- Py.maintains _ (fun _ => match Circuit.symbolic_circuit_configure _ _ _ _ with
                                  | _ => _ end) =>
        apply maintains_builder_step; intros ? ? ?; close
    | |- Py.maintains _ (Circuit.warn _) => unfold Circuit.warn
    | |- Py.maintains _ (Circuit.write_ext_basis _ _) => unfold Circuit.write_ext_basis
    | |- Py.maintains _ (Circuit.the_symbolic_circuit) =>
        unfold Circuit.the_symbolic_circuit
    | |- Py.maintains _ (Circuit.configure_symbolic_circuit _ _ _) =>
        unfold Circuit.configure_symbolic_circuit
    | |- Py.maintains _ (Circuit.copy_required_attributes) =>
        unfold Circuit.copy_required_attributes
    | |- Py.maintains _ (Circuit.harmonic_override _) => unfold Circuit.harmonic_override
    | |- Py.maintains _ (Circuit.default_phi_ranges) =>
        unfold Circuit.default_phi_ranges
    | |- Py.maintains _ (Circuit.dense_if_single_harmonic) =>
        unfold Circuit.dense_if_single_harmonic
    | |- Py.maintains _ (Circuit.assign_hamiltonian _ _) =>
        unfold Circuit.assign_hamiltonian
    | |- Py.maintains _ (Circuit.init_properties_and_ranges _) =>
        unfold Circuit.init_properties_and_ranges
    | |- Py.maintains _ (Circuit.refresh_symbolic_hamiltonian _) =>
        unfold Circuit.refresh_symbolic_hamiltonian
    | |- Py.maintains _ (Circuit.configure_tail _ _ _ _) => unfold Circuit.configure_tail
    end.

Section circuit_rollback.
Context {Expr X : Type} (env : Circuit.Env Expr X).
Import Circuit.

(** With the stored hierarchy and truncation passed back in, the configure
    methods leave both as they are, whether they return or raise. *)
Lemma _configure_keeps_hierarchy a b tm cb :
  Py.maintains (fun s : t Expr X => system_hierarchy s = a /\ subsystem_trunc_dims s = b)
               (_configure env tm a b cb).
Proof.
  unfold _configure. apply maintains_get_bind. intros self [Ha Hb].
  rewrite Ha, Hb, !py_or_same.
  circuit_maintains ltac:(simpl in *; auto; tauto).
Qed.

Lemma _configure_sym_hamiltonian_keeps_hierarchy a b :
  Py.maintains (fun s : t Expr X => system_hierarchy s = a /\ subsystem_trunc_dims s = b)
               (_configure_sym_hamiltonian env a b).
Proof.
  unfold _configure_sym_hamiltonian. apply maintains_get_bind. intros self [Ha Hb].
  rewrite Ha, Hb, !py_or_same.
  circuit_maintains ltac:(simpl in *; auto; tauto).
Qed.

End circuit_rollback.

Ltac circuit_raises close :=
  repeat
    match goal with
    | |- Py.raises_only _ (Py.ret _) => apply raises_only_ret
    | |- Py.raises_only _ Py.get => apply raises_only_get
    | |- Py.raises_only _ (Py.modify _) => apply raises_only_modify
    | |- Py.raises_only _ (Py.raise _) => apply raises_only_raise; close
    | |- Py.raises_only _ (Circuit.call _ _) =>
        let H := fresh in
        intros ? ? ? H; unfold Circuit.call in H;
        destruct (Circuit.call_routine _ _ _) as [? []]; [|discriminate H];
        injection H as _ <-; close
    | |- Py.raises_only _ (fun _ => match Circuit.symbolic_circuit_configure _ _ _ _ with
                                    | _ => _ end) =>
        let H := fresh in
        intros ? ? ? H;
        destruct (Circuit.symbolic_circuit_configure _ _ _ _) as [? []]; [|discriminate H];
        injection H as _ <-; close
    | |- Py.raises_only _ (Py.bind _ _) => apply raises_only_bind; [|intros ?]
    | |- Py.raises_only _ (Py.for_each _ _) => apply raises_only_for_each; intros ?
    | |- Py.raises_only _ (if ?b then _ else _) => destruct b
    | |- Py.raises_only _ (match ?x with _ => _ end) => destruct x
    | |- Py.raises_only _ (Circuit.warn _) => unfold Circuit.warn
    | |- Py.raises_only _ (Circuit.write_ext_basis _ _) => unfold Circuit.write_ext_basis
    | |- Py.raises_only _ (Circuit.the_symbolic_circuit) =>
        unfold Circuit.the_symbolic_circuit
    | |- Py.raises_only _ (Circuit.configure_symbolic_circuit _ _ _) =>
        unfold Circuit.configure_symbolic_circuit
    | |- Py.raises_only _ (Circuit.copy_required_attributes) =>
        unfold Circuit.copy_required_attributes
    | |- Py.raises_only _ (Circuit.harmonic_override _) => unfold Circuit.harmonic_override
    | |- Py.raises_only _ (Circuit.default_phi_ranges) =>
        unfold Circuit.default_phi_ranges
    | |- Py.raises_only _ (Circuit.dense_if_single_harmonic) =>
        unfold Circuit.dense_if_single_harmonic
    | |- Py.raises_only _ (Circuit.assign_hamiltonian _ _) =>
        unfold Circuit.assign_hamiltonian
    | |- Py.raises_only _ (Circuit.init_properties_and_ranges _) =>
        unfold Circuit.init_properties_and_ranges
    | |- Py.raises_only _ (Circuit.refresh_symbolic_hamiltonian _) =>
        unfold Circuit.refresh_symbolic_hamiltonian
    | |- Py.raises_only _ (Circuit.configure_tail _ _ _ _) => unfold Circuit.configure_tail
    end.

Section circuit_configure.
Context {Expr X : Type} (env : Circuit.Env Expr X).
Import Circuit.


Lemma _configure_sym_hamiltonian_raises sh td :
  Py.raises_only (fun e => e <> Py.ConfigureFailed) (_configure_sym_hamiltonian env sh td).
Proof. unfold _configure_sym_hamiltonian. circuit_raises ltac:(discriminate). Qed.


(** What a completed [_configure] has done: the builder ran with the
    effective matrix and closure branches, and its choices were copied; the
    basis was overridden, after a warning, for a purely harmonic circuit. *)
Lemma _configure_returns tm sh td cb (s s' : t Expr X) u :
  _configure env tm sh td cb s = (s', inr u) ->
  exists sc sc',
    symbolic_circuit s = Some sc
    /\ symbolic_circuit_configure env sc
         (match tm with None => transformation_matrix s | Some m => Some m end)
         (Py.py_or cb (as_argument (closure_branches s))) = (sc', false)
    /\ transformation_matrix s' = sym_transformation_matrix sc'
    /\ closure_branches s' = sym_closure_branches sc'
    /\ is_purely_harmonic s' = sym_is_purely_harmonic sc'
    /\ ext_basis s' = (if sym_is_purely_harmonic sc' then harmonic else ext_basis s)
    /\ warnings s'
       = (if sym_is_purely_harmonic sc' && bool_decide (ext_basis s ≠ harmonic)
          then warnings s ++ [Py.PurelyHarmonicNeedsHarmonic] else warnings s).
Proof.
  unfold _configure. intros Hrun.
  apply bind_returns in Hrun as (? & self & Hget & Hrun).
  apply get_returns in Hget as [-> ->].
  apply bind_returns in Hrun as (s1 & [] & Hmod & Hrun).
  apply modify_returns in Hmod.
  assert (H1 : symbolic_circuit s1 = symbolic_circuit s
               /\ ext_basis s1 = ext_basis s /\ warnings s1 = warnings s)
    by (subst s1; auto).
  clear Hmod. destruct H1 as (Hsym1 & Heb1 & Hw1).
  apply bind_returns in Hrun as (s2 & [] & Hbuild & Hrun).
  unfold configure_symbolic_circuit, the_symbolic_circuit in Hbuild.
  apply bind_returns in Hbuild as (? & sc & Hsc & Hbuild).
  apply bind_returns in Hsc as (? & ? & Hget & Hsc).
  apply get_returns in Hget as [-> ->]. rewrite Hsym1 in Hsc.
  destruct (symbolic_circuit s) as [sc0|] eqn:Hsym; [|discriminate].
  apply ret_returns in Hsc as [-> ->].
  destruct (symbolic_circuit_configure env sc0 _ _) as [sc' []] eqn:Hcall; [discriminate|].
  exists sc0, sc'. split; [reflexivity|]. split; [exact Hcall|].
  assert (H2 : symbolic_circuit s2 = Some sc'
               /\ ext_basis s2 = ext_basis s /\ warnings s2 = warnings s).
  { injection Hbuild as <-. rewrite <- Heb1, <- Hw1. auto. }
  clear Hbuild Hcall. destruct H2 as (Hsym2 & Heb2 & Hw2).
  apply bind_returns in Hrun as (s3 & [] & Hcopy & Hrun).
  unfold copy_required_attributes, the_symbolic_circuit in Hcopy.
  apply bind_returns in Hcopy as (? & sc1 & Hsc & Hcopy).
  apply bind_returns in Hsc as (? & ? & Hget & Hsc).
  apply get_returns in Hget as [-> ->]. rewrite Hsym2 in Hsc.
  apply ret_returns in Hsc as [-> ->].
  apply modify_returns in Hcopy.
  assert (H3 : symbolic_circuit s3 = Some sc'
               /\ ext_basis s3 = ext_basis s /\ warnings s3 = warnings s
               /\ transformation_matrix s3 = sym_transformation_matrix sc'
               /\ closure_branches s3 = sym_closure_branches sc'
               /\ is_purely_harmonic s3 = sym_is_purely_harmonic sc').
  { subst s3. rewrite <- Hsym2, <- Heb2, <- Hw2. repeat split; reflexivity. }
  clear Hcopy. destruct H3 as (Hsym3 & Heb3 & Hw3 & Htm3 & Hcb3 & Hph3).
  apply bind_returns in Hrun as (s4 & [] & Hover & Hrun).
  assert (H4 : transformation_matrix s4 = sym_transformation_matrix sc'
               /\ closure_branches s4 = sym_closure_branches sc'
               /\ is_purely_harmonic s4 = sym_is_purely_harmonic sc'
               /\ ext_basis s4 = (if sym_is_purely_harmonic sc' then harmonic else ext_basis s)
               /\ warnings s4
                  = (if sym_is_purely_harmonic sc' && bool_decide (ext_basis s ≠ harmonic)
                     then warnings s ++ [Py.PurelyHarmonicNeedsHarmonic] else warnings s)).
  { unfold harmonic_override in Hover.
    apply bind_returns in Hover as (? & ? & Hget & Hover).
    apply get_returns in Hget as [-> ->].
    rewrite Hph3, Heb3 in Hover.
    destruct (sym_is_purely_harmonic sc'); simpl andb; cbv iota.
    - apply bind_returns in Hover as (? & ? & Hsc & Hover).
      unfold the_symbolic_circuit in Hsc.
      apply bind_returns in Hsc as (? & ? & Hget & Hsc).
      apply get_returns in Hget as [-> ->]. rewrite Hsym3 in Hsc.
      apply ret_returns in Hsc as [-> ->].
      destruct (bool_decide (ext_basis s ≠ harmonic)) eqn:Hne.
      + unfold warn, write_ext_basis in Hover.
        apply bind_returns in Hover as (? & ? & Hm & Hover).
        apply modify_returns in Hm as ->.
        apply bind_returns in Hover as (? & ? & Hm & Hover).
        apply modify_returns in Hm as ->.
        unfold call in Hover. destruct (call_routine env _ _) as [x []]; [discriminate|].
        injection Hover as <-. simpl. rewrite Hw3. auto.
      + apply ret_returns in Hover as [-> _]. apply bool_decide_eq_false in Hne.
        rewrite Heb3. repeat split; try assumption.
        destruct (ext_basis s); [exfalso; apply Hne; discriminate | reflexivity].
    - apply ret_returns in Hover as [-> _]. auto. }
  assert (Hm : Py.maintains
                 (fun s5 : t Expr X =>
                    transformation_matrix s5 = transformation_matrix s4
                    /\ closure_branches s5 = closure_branches s4
                    /\ is_purely_harmonic s5 = is_purely_harmonic s4
                    /\ ext_basis s5 = ext_basis s4
                    /\ warnings s5 = warnings s4)
                 (Py.bind (init_properties_and_ranges env) (fun _ =>
                  Py.bind (refresh_symbolic_hamiltonian env) (fun _ =>
                  configure_tail env true (Py.py_or sh (system_hierarchy s))
                                 (Py.py_or td (subsystem_trunc_dims s)))))).
  { circuit_maintains ltac:(simpl; assumption). }
  destruct (maintains_run _ _ _ _ _ Hm (conj eq_refl (conj eq_refl (conj eq_refl (conj eq_refl eq_refl)))) Hrun)
    as (-> & -> & -> & -> & ->).
  exact H4.
Qed.

(** The two ways in which the call of the builder ends. *)
Lemma configure_symbolic_circuit_outcome tm cb (s s2 : t Expr X) r :
  configure_symbolic_circuit env tm cb s = (s2, r) ->
  (symbolic_circuit s = None /\ s2 = s /\ exists e, r = inl e)
  \/ exists sc sc' raised,
       symbolic_circuit s = Some sc
       /\ symbolic_circuit_configure env sc tm cb = (sc', raised)
       /\ s2 = upd_symbolic_circuit (Some sc') s
       /\ (if raised then exists e, r = inl e else r = inr tt).
Proof.
  unfold configure_symbolic_circuit, the_symbolic_circuit, Py.bind, Py.get, Py.ret, Py.raise.
  destruct (symbolic_circuit s) as [sc|] eqn:Hsym.
  - destruct (symbolic_circuit_configure env sc tm cb) as [sc' raised] eqn:Hcall.
    intros Hrun. right. exists sc, sc', raised. split; [reflexivity|]. split; [exact Hcall|].
    destruct raised; injection Hrun as <- <-; split; eauto.
  - intros [= <- <-]. left. eauto.
Qed.

Lemma copy_required_attributes_runs sc (s : t Expr X) :
  symbolic_circuit s = Some sc ->
  exists s3,
    copy_required_attributes s = (s3, inr tt)
    /\ symbolic_circuit s3 = Some sc
    /\ transformation_matrix s3 = sym_transformation_matrix sc
    /\ closure_branches s3 = sym_closure_branches sc.
Proof.
  intros Hsym.
  unfold copy_required_attributes, the_symbolic_circuit, Py.bind, Py.get, Py.ret, Py.modify.
  rewrite Hsym. eexists. split; [reflexivity|]. simpl. rewrite Hsym. auto.
Qed.

(** However [_configure] ends: either it raised before the builder had
    returned, and the matrix and the closure branches of the instance are
    untouched, or the builder returned and they are the builder's. *)
Lemma _configure_outcome tm sh td cb (s s' : t Expr X) r :
  _configure env tm sh td cb s = (s', r) ->
  (transformation_matrix s' = transformation_matrix s
   /\ closure_branches s' = closure_branches s
   /\ exists e, r = inl e)
  \/ exists sc sc',
       symbolic_circuit s = Some sc
       /\ symbolic_circuit_configure env sc
            (match tm with None => transformation_matrix s | Some m => Some m end)
            (Py.py_or cb (as_argument (closure_branches s))) = (sc', false)
       /\ symbolic_circuit s' = Some sc'
       /\ transformation_matrix s' = sym_transformation_matrix sc'
       /\ closure_branches s' = sym_closure_branches sc'.
Proof.
  unfold _configure. rewrite bind_get. cbv zeta.
  unfold Py.bind at 1. unfold Py.modify at 1.
  set (s1 := upd_hierarchical_diagonalization _ s).
  unfold Py.bind at 1.
  destruct (configure_symbolic_circuit env _ _ s1) as [s2 r2] eqn:Hbuild.
  apply configure_symbolic_circuit_outcome in Hbuild
    as [(_ & -> & e & ->) | (sc & sc' & raised & Hsym & Hcall & -> & Hr)].
  { intros [= <- <-]. left. subst s1. simpl. eauto. }
  destruct raised.
  { destruct Hr as [e ->]. intros [= <- <-]. left. subst s1. simpl. eauto. }
  subst r2. intros Hrun. right. exists sc, sc'.
  split; [exact Hsym|]. split; [exact Hcall|].
  unfold Py.bind at 1 in Hrun.
  destruct (copy_required_attributes_runs sc' (upd_symbolic_circuit (Some sc') s1) eq_refl)
    as (s3 & Hcopy & Hsym3 & Htm3 & Hcb3).
  rewrite Hcopy in Hrun.
  rewrite <- Hsym3, <- Htm3, <- Hcb3.
  match type of Hrun with ?m s3 = _ =>
    assert (Hm : Py.maintains
                   (fun s5 : t Expr X =>
                      symbolic_circuit s5 = symbolic_circuit s3
                      /\ transformation_matrix s5 = transformation_matrix s3
                      /\ closure_branches s5 = closure_branches s3) m)
  end.
  { circuit_maintains ltac:(simpl; assumption). }
  pose proof (Hm s3 (conj eq_refl (conj eq_refl eq_refl))) as Hkeep.
  rewrite Hrun in Hkeep. exact Hkeep.
Qed.

End circuit_configure.

Section rollback_of_configure.
Context {Expr X : Type} (env : Circuit.Env Expr X).
Import Circuit.

(** Whatever exception leaves [configure], the hierarchy and the
    truncation specification are the ones from before the call. *)
Lemma configure_exception_restores_hierarchy tm sh td cb (s s' : t Expr X) e :
  configure env tm sh td cb s = (s', inl e) ->
  system_hierarchy s' = system_hierarchy s
  /\ subsystem_trunc_dims s' = subsystem_trunc_dims s.
Proof.
  unfold configure. rewrite bind_get. cbv zeta. unfold Py.try_except.
  match goal with |- context [match ?b s with _ => _ end] =>
    destruct (b s) as [s1 [e1|u1]] eqn:Hbody end; [|discriminate].
  intros Hh.
  apply bind_raises in Hh as [Hh | (s2 & [] & Hm & Hh)];
    [exfalso; exact (modify_never_raises _ _ _ _ Hh)|].
  apply modify_returns in Hm.
  apply bind_raises in Hh as [Hh | (s3 & [] & Hm' & Hh)];
    [exfalso; exact (modify_never_raises _ _ _ _ Hh)|].
  apply modify_returns in Hm'.
  refine (maintains_run
            (fun s5 : t Expr X =>
               system_hierarchy s5 = system_hierarchy s
               /\ subsystem_trunc_dims s5 = subsystem_trunc_dims s) _ _ _ _ _ _ Hh).
  - circuit_maintains ltac:(simpl; assumption);
      first [ apply _configure_keeps_hierarchy
            | apply _configure_sym_hamiltonian_keeps_hierarchy ].
  - subst s3 s2. split; reflexivity.
Qed.






(** The handler of [configure] ends in [raise]. *)
Lemma configure_returns_from_body tm sh td cb (s s' : t Expr X) u :
  configure env tm sh td cb s = (s', inr u) ->
  match symbolic_circuit s with
  | Some _ => _configure env tm sh td cb s = (s', inr u)
  | None => _configure_sym_hamiltonian env sh td s = (s', inr u)
  end.
Proof.
  unfold configure. rewrite bind_get. cbv zeta. unfold Py.try_except.
  rewrite bind_get.
  match goal with |- context [match ?b with (_, _) => _ end] =>
    destruct b as [s1 [e1|u1]] eqn:Hbody end.
  - intros Hh. exfalso.
    match type of Hh with ?h s1 = _ =>
      assert (Hr : Py.always_raises h) end.
    { do 4 (apply always_raises_bind; intros ?). apply always_raises_raise. }
    destruct (Hr s1) as (s2 & e & Heq). congruence.
  - intros [= <- <-]. destruct (symbolic_circuit s); exact Hbody.
Qed.

(** *** The invariant of the rollback *)











End rollback_of_configure.

Section validation_and_basis.
Context {Expr X : Type} (env : Circuit.Env Expr X).
Import Circuit.








(** An instance without a symbolic circuit cannot complete a configuration
    that found its Hamiltonian purely harmonic: the normal-mode frequencies
    are read from [self.symbolic_circuit]. *)
Lemma _configure_sym_hamiltonian_returns sh td (s s' : t Expr X) u :
  symbolic_circuit s = None ->
  _configure_sym_hamiltonian env sh td s = (s', inr u) ->
  _is_expression_purely_harmonic env (hamiltonian_symbolic s) = false
  /\ is_purely_harmonic s' = false
  /\ ext_basis s' = ext_basis s /\ warnings s' = warnings s.
Proof.
  intros Hnone Hrun. unfold _configure_sym_hamiltonian in Hrun.
  apply bind_returns in Hrun as (? & self & Hget & Hrun).
  apply get_returns in Hget as [-> ->]. cbv zeta in Hrun.
  apply bind_returns in Hrun as (s1 & [] & Hm1 & Hrun). apply modify_returns in Hm1.
  apply bind_returns in Hrun as (s2 & [] & Hm2 & Hrun). apply modify_returns in Hm2.
  apply bind_returns in Hrun as (s3 & [] & Hm3 & Hrun). apply modify_returns in Hm3.
  assert (H3 : symbolic_circuit s3 = None
               /\ ext_basis s3 = ext_basis s /\ warnings s3 = warnings s
               /\ is_purely_harmonic s3
                  = _is_expression_purely_harmonic env (hamiltonian_symbolic s)).
  { subst s3 s2 s1. rewrite <- Hnone. repeat split; reflexivity. }
  clear Hm1 Hm2 Hm3. destruct H3 as (Hsym3 & Heb3 & Hw3 & Hph3).
  apply bind_returns in Hrun as (s4 & [] & Hover & Hrun).
  assert (H4 : _is_expression_purely_harmonic env (hamiltonian_symbolic s) = false
               /\ is_purely_harmonic s4 = false
               /\ ext_basis s4 = ext_basis s /\ warnings s4 = warnings s).
  { unfold harmonic_override in Hover.
    apply bind_returns in Hover as (? & ? & Hget & Hover).
    apply get_returns in Hget as [-> ->]. rewrite <- Hph3.
    destruct (is_purely_harmonic s3) eqn:Hph.
    - exfalso. apply bind_returns in Hover as (? & ? & Hsc & _).
      unfold the_symbolic_circuit in Hsc. rewrite bind_get, Hsym3 in Hsc. discriminate.
    - apply ret_returns in Hover as [-> _]. auto. }
  assert (Hm : Py.maintains
                 (fun s5 : t Expr X =>
                    is_purely_harmonic s5 = is_purely_harmonic s4
                    /\ ext_basis s5 = ext_basis s4
                    /\ warnings s5 = warnings s4)
                 (Py.bind (init_properties_and_ranges env) (fun _ =>
                  configure_tail env false (Py.py_or sh (system_hierarchy s))
                                 (Py.py_or td (subsystem_trunc_dims s))))).
  { circuit_maintains ltac:(simpl; assumption). }
  destruct (maintains_run _ _ _ _ _ Hm (conj eq_refl (conj eq_refl eq_refl)) Hrun)
    as (-> & -> & ->).
  exact H4.
Qed.

(** The circuit half of claim C10. *)
Lemma configure_overrides_basis tm sh td cb (s s' : t Expr X) u :
  configure env tm sh td cb s = (s', inr u) ->
  is_purely_harmonic s' = true ->
  ext_basis s' = harmonic
  /\ (ext_basis s <> harmonic ->
      warnings s' = warnings s ++ [Py.PurelyHarmonicNeedsHarmonic]).
Proof.
  intros Hrun Hph. apply configure_returns_from_body in Hrun.
  destruct (symbolic_circuit s) eqn:Hsym.
  - apply _configure_returns in Hrun
      as (sc & sc' & _ & _ & _ & _ & Hph' & Heb & Hw).
    rewrite Hph in Hph'. rewrite <- Hph' in Heb, Hw. split; [exact Heb|].
    intros Hne. rewrite Hw. simpl. rewrite bool_decide_eq_true_2 by exact Hne. reflexivity.
  - apply (_configure_sym_hamiltonian_returns _ _ _ _ _ Hsym) in Hrun as (_ & Hph' & _).
    congruence.
Qed.

(** *** [set_discretized_phi_range] *)

Lemma upd_discretized_phi_range_same (s : t Expr X) :
  upd_discretized_phi_range (discretized_phi_range s) s = s.
Proof. destruct s; reflexivity. Qed.

Lemma for_each_stops_at_first_offender phi_range extended before i after (s : t Expr X) :
  lookup_category "extended" (var_categories s) = Some extended ->
  Forall (fun j => j ∈ extended) before ->
  i ∉ extended ->
  Py.for_each (before ++ i :: after) (set_discretized_phi_range_one phi_range) s
  = (upd_discretized_phi_range
       (fold_left (fun d j => <[j := phi_range]> d) before (discretized_phi_range s)) s,
     inl (Py.NotExtendedVariable i)).
Proof.
  revert s. induction before as [|j before IH]; intros s Hext Hall Hi; simpl.
  - unfold Py.bind, set_discretized_phi_range_one at 1. rewrite bind_get, Hext.
    destruct (decide (i ∈ extended)); [contradiction|].
    unfold Py.raise. rewrite upd_discretized_phi_range_same. reflexivity.
  - apply Forall_cons in Hall as [Hj Hall].
    unfold Py.bind at 1, set_discretized_phi_range_one at 1. rewrite bind_get, Hext.
    destruct (decide (j ∈ extended)); [|contradiction].
    unfold Py.modify. rewrite IH by assumption. reflexivity.
Qed.

(** Claim C8, as the code has it: with a basis other than discretized the
    call raises and the object is untouched; with an index that is not an
    extended variable it raises after the indices listed before the first
    such index have received the new range, and nothing else has changed. *)
Theorem set_discretized_phi_range_validation var_indices phi_range (s : t Expr X) :
  (ext_basis s <> discretized ->
   set_discretized_phi_range env var_indices phi_range s = (s, inl Py.NotDiscretizedBasis))
  /\ forall extended before i after,
       ext_basis s = discretized ->
       lookup_category "extended" (var_categories s) = Some extended ->
       var_indices = before ++ i :: after ->
       Forall (fun j => j ∈ extended) before ->
       i ∉ extended ->
       set_discretized_phi_range env var_indices phi_range s
       = (upd_discretized_phi_range
            (fold_left (fun d j => <[j := phi_range]> d) before (discretized_phi_range s)) s,
          inl (Py.NotExtendedVariable i)).
Proof.
  split.
  - intros Hne. unfold set_discretized_phi_range. rewrite bind_get.
    rewrite bool_decide_eq_true_2 by exact Hne. reflexivity.
  - intros extended before i after Heb Hext -> Hall Hi.
    unfold set_discretized_phi_range. rewrite bind_get.
    rewrite bool_decide_eq_false_2 by (rewrite Heb; intros H; apply H; reflexivity).
    unfold Py.bind.
    rewrite (for_each_stops_at_first_offender _ _ _ _ _ _ Hext Hall Hi). reflexivity.
Qed.

End validation_and_basis.

(** *** Reconstruction *)

Section reconstruction.
Context {Expr X : Type} (env : Circuit.Env Expr X).
Import Circuit.

(** [deserialize] hands the stored hierarchy, truncation and closure
    branches to [configure]; the stored transformation matrix goes to the
    attribute [_transformation_matrix], and [transformation_matrix] stays
    what [configure] made of the fresh instance. *)
Lemma reconfigure_returns iodata (circuit circuit' : t Expr X) u :
  reconfigure env iodata circuit = (circuit', inr u) ->
  exists configured,
    configure env None (io_system_hierarchy iodata) (io_subsystem_trunc_dims iodata)
      (Some (find_branches circuit (io_closure_branches_data iodata))) circuit
    = (configured, inr tt)
    /\ transformation_matrix circuit' = transformation_matrix configured
    /\ _transformation_matrix circuit' = Some (io_transformation_matrix iodata).
Proof.
  unfold reconfigure. rewrite bind_get. cbv zeta.
  intros Hrun.
  apply bind_returns in Hrun as (configured & [] & Hconf & Hrun).
  exists configured. split; [exact Hconf|].
  apply bind_returns in Hrun as (s1 & [] & Hm1 & Hrun). apply modify_returns in Hm1.
  apply bind_returns in Hrun as (s2 & [] & Hc & Hrun).
  unfold call in Hc. destruct (call_routine env _ s1) as [x []]; [discriminate|].
  injection Hc as <-.
  apply bind_returns in Hrun as (s3 & [] & Hm3 & Hrun). apply modify_returns in Hm3.
  assert (H3 : transformation_matrix s3 = transformation_matrix configured
               /\ _transformation_matrix s3 = Some (io_transformation_matrix iodata))
    by (subst s3 s1; split; reflexivity).
  clear Hm1 Hm3 Hconf. destruct H3 as [Htm Hus].
  rewrite <- Htm, <- Hus.
  refine (maintains_run
            (fun s5 : t Expr X =>
               transformation_matrix s5 = transformation_matrix s3
               /\ _transformation_matrix s5 = _transformation_matrix s3)
            _ _ _ _ _ (conj eq_refl eq_refl) Hrun).
  circuit_maintains ltac:(simpl; assumption).
Qed.

End reconstruction.

(** *** The small circuit *)

Section small_circuit.
Import Toy.






Example hierarchical_circuit_is_configured :
  Circuit.configure (circuit_env false) None (Some one_by_one) (Some dims_3_3) None
                    plain_circuit
  = (hierarchical_circuit, inr tt).
Proof. vm_compute. reflexivity. Qed.

Example transformed_circuit_is_configured :
  Circuit.configure (circuit_env false) (Some user_matrix) None None None plain_circuit
  = (transformed_circuit, inr tt).
Proof. vm_compute. reflexivity. Qed.

End small_circuit.

Section claims_on_the_small_circuit.
Import Toy.




(** The same call with the hierarchy [[[1, 2]]], which the stored
    truncation [[3, 3]] does not fit: no statement of [configure] compares
    the two, and where the outside routines accept them the call returns
    with both stored. *)
Example stale_truncation_is_paired_with_a_new_hierarchy :
  same_shape (Some [Nested [Int 1; Int 2]]) (Some dims_3_3) = false
  /\ exists s',
       Circuit.configure (circuit_env false) None (Some [Nested [Int 1; Int 2]]) None None
                         hierarchical_circuit = (s', inr tt)
       /\ Circuit.system_hierarchy s' = Some [Nested [Int 1; Int 2]]
       /\ Circuit.subsystem_trunc_dims s' = Some dims_3_3.
Proof.
  split; [reflexivity|]. eexists. split; [vm_compute; reflexivity|].
  split; reflexivity.
Qed.

(** Claim C6 fails on the code for a subsystem: a subsystem with one
    variable whose Hamiltonian is purely harmonic, under a parent in the
    discretised basis, ends in the harmonic basis with sparse matrices (the
    kind of matrices is fixed before [_configure] switches the basis). *)
Theorem single_harmonic_subsystem_is_sparse :
  exists self,
    Subsystem.__init__ (subsystem_env true) discretized_parent [Q1; theta1]
                       (Some [Int 1]) None (Some 10%Z) = inr self
    /\ Subsystem.var_index_list self = [1%Z]
    /\ Subsystem.ext_basis self = harmonic
    /\ Subsystem.type_of_matrices self = sparse.
Proof. eexists. split; [vm_compute; reflexivity|]. repeat split. Qed.

Lemma subsystem_categories_are_filtered_witness :
  exists self,
    Subsystem.__init__ (subsystem_env false) discretized_parent [Q1; theta1]
                       (Some [Int 1]) None (Some 10%Z) = inr self
    /\ lookup_category "extended" (Subsystem.var_categories self) = Some [1%Z].
Proof.
  eexists. split; [vm_compute; reflexivity|].
  match goal with
  | |- lookup_category _ (Subsystem.var_categories ?self) = _ =>
      assert (Hinit : Subsystem.__init__ (subsystem_env false) discretized_parent
                        [Q1; theta1] (Some [Int 1]) None (Some 10%Z) = inr self)
        by (vm_compute; reflexivity)
  end.
  destruct (subsystem_categories_are_filtered (subsystem_env false) discretized_parent
              [Q1; theta1] (Some [Int 1]) None (Some 10%Z) _ Hinit) as [_ Hcat].
  destruct (Hcat "extended") as [Hl _]. rewrite Hl. vm_compute. reflexivity.
Defined.


(** Claim C8 as stated fails: the range of index 1, listed before the
    offending index 2, has been replaced when the error is raised. *)
Lemma set_discretized_phi_range_is_not_atomic :
  (Circuit.set_discretized_phi_range (circuit_env false) [1%Z; 2%Z] (0%R, 1%R)
                                     one_extended_variable).2
  = inl (Py.NotExtendedVariable 2)
  /\ Circuit.discretized_phi_range one_extended_variable !! 1%Z = None
  /\ Circuit.discretized_phi_range
       (Circuit.set_discretized_phi_range (circuit_env false) [1%Z; 2%Z] (0%R, 1%R)
                                          one_extended_variable).1 !! 1%Z
     = Some (0%R, 1%R).
Proof. repeat split; vm_compute; reflexivity. Qed.

Lemma set_discretized_phi_range_validation_witness :
  Circuit.set_discretized_phi_range (circuit_env false) [1%Z; 2%Z] (0%R, 1%R)
                                    one_extended_variable
  = (Circuit.upd_discretized_phi_range
       (<[1%Z := (0%R, 1%R)]> (Circuit.discretized_phi_range one_extended_variable))
       one_extended_variable,
     inl (Py.NotExtendedVariable 2)).
Proof.
  destruct (set_discretized_phi_range_validation (circuit_env false) [1%Z; 2%Z]
              (0%R, 1%R) one_extended_variable) as [_ H].
  apply (H [1%Z] [1%Z] 2%Z []); try reflexivity.
  - repeat constructor.
  - intros Hin. apply list_elem_of_singleton in Hin. discriminate.
Defined.

(** Claim C4 fails on the code when the user had supplied a transformation
    matrix: the stored matrix is not handed to [configure], so the rebuilt
    circuit carries the builder's matrix, not the user's. *)
Theorem round_trip_loses_transformation_matrix :
  Circuit.transformation_matrix transformed_circuit = Some user_matrix
  /\ exists iodata rebuilt,
       Circuit.serialize transformed_circuit = inr iodata
       /\ Circuit.io_transformation_matrix iodata = Some user_matrix
       /\ Circuit.deserialize (circuit_env false) iodata = inr rebuilt
       /\ Circuit.transformation_matrix rebuilt = Some identity1
       /\ Circuit._transformation_matrix rebuilt = Some (Some user_matrix)
       /\ Circuit.transformation_matrix rebuilt
          <> Circuit.transformation_matrix transformed_circuit.
Proof.
  split; [reflexivity|]. eexists. eexists.
  split; [vm_compute; reflexivity|]. split; [reflexivity|].
  split; [vm_compute; reflexivity|]. split; [reflexivity|]. split; [reflexivity|].
  simpl. unfold identity1, user_matrix. intros [= H]. lra.
Qed.

End claims_on_the_small_circuit.

Section classification.
Context {Expr X : Type} (env : Circuit.Env Expr X).
Import Circuit.

Lemma _configure_sym_hamiltonian_keeps_hamiltonian sh td (H : Expr) :
  Py.maintains (fun s : t Expr X => symbolic_circuit s = None /\ hamiltonian_symbolic s = H)
               (_configure_sym_hamiltonian env sh td).
Proof. unfold _configure_sym_hamiltonian. circuit_maintains ltac:(simpl; assumption). Qed.

(** After a [configure] that returned, [is_purely_harmonic] is the
    classification of the circuit: the one of the symbolic circuit, or, on
    an instance without one, that of the Hamiltonian. When it is false the
    basis and the warnings are those from before the call. *)
Lemma configure_classifies tm sh td cb (s s' : t Expr X) u :
  configure env tm sh td cb s = (s', inr u) ->
  is_purely_harmonic s'
  = match symbolic_circuit s' with
    | Some sc' => sym_is_purely_harmonic sc'
    | None => _is_expression_purely_harmonic env (hamiltonian_symbolic s')
    end
  /\ (is_purely_harmonic s' = false ->
      ext_basis s' = ext_basis s /\ warnings s' = warnings s).
Proof.
  intros Hrun. apply configure_returns_from_body in Hrun.
  destruct (symbolic_circuit s) as [sc0|] eqn:Hsym.
  - pose proof Hrun as Hout.
    apply _configure_returns in Hrun
      as (sc & sc' & Hsc & Hcall & _ & _ & Hph & Heb & Hw).
    apply _configure_outcome in Hout
      as [(_ & _ & e & He) | (sc1 & sc1' & Hsc1 & Hcall1 & Hsym' & _)]; [discriminate|].
    rewrite Hsc in Hsc1. injection Hsc1 as <-. rewrite Hcall in Hcall1.
    injection Hcall1 as <-. rewrite Hsym'. split; [exact Hph|].
    intros Hfalse. rewrite Hph in Hfalse. rewrite Hfalse in Heb, Hw. auto.
  - pose proof (maintains_run _ _ _ _ _
                  (_configure_sym_hamiltonian_keeps_hamiltonian sh td (hamiltonian_symbolic s))
                  (conj Hsym eq_refl) Hrun) as [Hnone HH].
    apply (_configure_sym_hamiltonian_returns _ _ _ _ _ _ Hsym) in Hrun
      as (Hclass & Hph & Heb & Hw).
    rewrite Hnone, HH, Hph, Hclass. auto.
Qed.

End classification.

(** Claim C10: after a [configure] that returned, [is_purely_harmonic] is
    the classification of the circuit (that of its symbolic circuit, or of
    its Hamiltonian when it has none); a circuit classified as purely
    harmonic is in the harmonic basis, and when the basis had to be
    replaced the warning has been issued, and otherwise the basis and the
    warnings are as before; the lines that replace the basis raise nothing
    of their own (only the read of the symbolic circuit and the handler of
    the property write can). After a completed construction of a
    subsystem, [is_purely_harmonic] is the classification of its
    Hamiltonian; a subsystem whose Hamiltonian is classified as purely
    harmonic is in the harmonic basis whatever the basis of its parent,
    and any other subsystem has the basis of its parent. *)
Theorem harmonic_basis_is_forced {Expr X : Type}
    (circuit_env : Circuit.Env Expr X) (subsystem_env : Subsystem.Env Expr X) :
  (forall tm sh td cb s s' u,
     Circuit.configure circuit_env tm sh td cb s = (s', inr u) ->
     Circuit.is_purely_harmonic s' = true ->
     Circuit.ext_basis s' = harmonic
     /\ (Circuit.ext_basis s <> harmonic ->
         Circuit.warnings s' = Circuit.warnings s ++ [Py.PurelyHarmonicNeedsHarmonic]))
  /\ Py.raises_only
       (fun e => e = Py.AttributeError "symbolic_circuit"
                 \/ e = Py.RoutineError Py.update_ext_basis)
       (Circuit.harmonic_override circuit_env)
  /\ (forall parent H sh td dim self,
        Subsystem.__init__ subsystem_env parent H sh td dim = inr self ->
        Subsystem.is_purely_harmonic self = true ->
        Subsystem.ext_basis self = harmonic)
  /\ (forall tm sh td cb s s' u,
        Circuit.configure circuit_env tm sh td cb s = (s', inr u) ->
        Circuit.is_purely_harmonic s'
        = match Circuit.symbolic_circuit s' with
          | Some sc' => Circuit.sym_is_purely_harmonic sc'
          | None => Circuit._is_expression_purely_harmonic circuit_env
                      (Circuit.hamiltonian_symbolic s')
          end
        /\ (Circuit.is_purely_harmonic s' = false ->
            Circuit.ext_basis s' = Circuit.ext_basis s
            /\ Circuit.warnings s' = Circuit.warnings s))
  /\ (forall parent H sh td dim self,
        Subsystem.__init__ subsystem_env parent H sh td dim = inr self ->
        Subsystem.is_purely_harmonic self
        = Subsystem._is_expression_purely_harmonic subsystem_env H
        /\ (Subsystem._is_expression_purely_harmonic subsystem_env H = true ->
            Subsystem.ext_basis self = harmonic)
        /\ (Subsystem._is_expression_purely_harmonic subsystem_env H = false ->
            Subsystem.ext_basis self = Subsystem.parent_ext_basis parent)).
Proof.
  split; [|split; [|split; [|split]]].
  - intros tm sh td cb s s' u Hrun Hph.
    exact (configure_overrides_basis circuit_env tm sh td cb s s' u Hrun Hph).
  - circuit_raises ltac:(auto).
  - intros parent H sh td dim self Hinit Hph.
    destruct (subsystem_harmonic_basis subsystem_env parent H sh td dim self Hinit)
      as [_ Heb].
    rewrite Hph in Heb. exact Heb.
  - intros tm sh td cb s s' u Hrun.
    exact (configure_classifies circuit_env tm sh td cb s s' u Hrun).
  - intros parent H sh td dim self Hinit.
    destruct (subsystem_harmonic_basis subsystem_env parent H sh td dim self Hinit)
      as [Hph Heb].
    split; [exact Hph|]. rewrite Hph in Heb.
    split; intros Hclass; rewrite Hclass in Heb; exact Heb.
Qed.

Lemma harmonic_basis_is_forced_witness :
  (Circuit.configure (Toy.circuit_env true) None None None None Toy.harmonic_request).2
  = inr tt
  /\ Circuit.ext_basis
       (Circuit.configure (Toy.circuit_env true) None None None None
                          Toy.harmonic_request).1 = harmonic
  /\ Circuit.warnings
       (Circuit.configure (Toy.circuit_env true) None None None None
                          Toy.harmonic_request).1 = [Py.PurelyHarmonicNeedsHarmonic]
  /\ exists self,
       Subsystem.__init__ (Toy.subsystem_env true) Toy.discretized_parent
                          [Toy.Q1; Toy.theta1] (Some [Int 1]) None (Some 10%Z) = inr self
       /\ Subsystem.parent_ext_basis Toy.discretized_parent = discretized
       /\ Subsystem.ext_basis self = harmonic.
Proof.
  split; [vm_compute; reflexivity|].
  destruct (harmonic_basis_is_forced (Toy.circuit_env true) (Toy.subsystem_env true))
    as (Hc & _ & _ & _ & Hs).
  assert (Hrun : Circuit.configure (Toy.circuit_env true) None None None None
                                   Toy.harmonic_request
                 = ((Circuit.configure (Toy.circuit_env true) None None None None
                                       Toy.harmonic_request).1, inr tt))
    by (vm_compute; reflexivity).
  destruct (Hc _ _ _ _ _ _ _ Hrun ltac:(vm_compute; reflexivity)) as [Heb Hw].
  split; [exact Heb|]. split; [apply Hw; discriminate|].
  eexists. split; [vm_compute; reflexivity|]. split; [reflexivity|].
  match goal with
  | |- Subsystem.ext_basis ?self = _ =>
      assert (Hinit : Subsystem.__init__ (Toy.subsystem_env true) Toy.discretized_parent
                        [Toy.Q1; Toy.theta1] (Some [Int 1]) None (Some 10%Z) = inr self)
        by (vm_compute; reflexivity)
  end.
  destruct (Hs _ _ _ _ _ _ Hinit) as (_ & Hharm & _). apply Hharm. reflexivity.
Defined.

(** ** Further properties of the code *)

Section further_properties.
Context {Expr X : Type}.

(** Whatever exception leaves [Circuit.configure], and whatever the
    symbolic builder does, [system_hierarchy] and [subsystem_trunc_dims]
    are back at their values from before the call. *)
Theorem configure_exception_keeps_hierarchy (env : Circuit.Env Expr X)
    tm sh td cb (s s' : Circuit.t Expr X) e :
  Circuit.configure env tm sh td cb s = (s', inl e) ->
  Circuit.system_hierarchy s' = Circuit.system_hierarchy s
  /\ Circuit.subsystem_trunc_dims s' = Circuit.subsystem_trunc_dims s.
Proof. apply configure_exception_restores_hierarchy. Qed.

(** [get_trailing_number] returns [None] exactly for the names that do not
    end in digits (a final line feed after the digits set aside). *)
Theorem get_trailing_number_none_exactly (dec : N -> option Z) (name : pystr) :
  get_trailing_number dec name = None <-> ~ has_trailing_index dec name.
Proof. apply get_trailing_number_none_iff. Qed.

(** The matrices of a constructed subsystem are dense exactly when it has
    one variable index and the basis inherited from its parent is
    harmonic. *)
Theorem subsystem_dense_rule (env : Subsystem.Env Expr X) parent H sh td dim self :
  Subsystem.__init__ env parent H sh td dim = inr self ->
  Subsystem.type_of_matrices self = dense
  <-> length (Subsystem.var_index_list self) = 1%nat
      /\ Subsystem.parent_ext_basis parent = harmonic.
Proof.
  intros Hinit. rewrite (subsystem_matrix_kind env _ _ _ _ _ _ Hinit).
  destruct (bool_decide (length (Subsystem.var_index_list self) = 1%nat)) eqn:Hl;
    destruct (bool_decide (Subsystem.parent_ext_basis parent = harmonic)) eqn:Hb; simpl;
    try apply bool_decide_eq_true in Hl; try apply bool_decide_eq_true in Hb;
    try apply bool_decide_eq_false in Hl; try apply bool_decide_eq_false in Hb;
    split; try tauto; try discriminate.
Qed.

(** The circuit rebuilt by [deserialize] is the new instance after one
    call of [configure], which received the stored hierarchy, the stored
    truncation and, as closure branches, what [_find_branch] returns on the
    new instance for each stored branch, and which did not receive the
    stored transformation matrix. The rebuilt circuit carries that matrix
    in [_transformation_matrix] only; its [transformation_matrix] is the
    one that this call of [configure] left. *)
Theorem deserialize_keeps_builder_matrix (env : Circuit.Env Expr X) iodata rebuilt :
  Circuit.deserialize env iodata = inr rebuilt ->
  exists fresh configured,
    Circuit.__init__ env (Circuit.io_input_string iodata)
      (Circuit.io_basis_completion iodata) (Circuit.io_ext_basis iodata) false
      (Circuit.io_truncated_dim iodata) = inr fresh
    /\ Circuit.configure env None (Circuit.io_system_hierarchy iodata)
         (Circuit.io_subsystem_trunc_dims iodata)
         (Some (map (Circuit._find_branch fresh) (Circuit.io_closure_branches_data iodata)))
         fresh
       = (configured, inr tt)
    /\ Circuit.transformation_matrix rebuilt = Circuit.transformation_matrix configured
    /\ Circuit._transformation_matrix rebuilt
       = Some (Circuit.io_transformation_matrix iodata).
Proof.
  unfold Circuit.deserialize.
  destruct (Circuit.__init__ env _ _ _ _ _) as [e|fresh]; [discriminate|].
  destruct (Circuit.reconfigure env iodata fresh) as [c [e|u]] eqn:Hre; [discriminate|].
  intros [= <-]. apply reconfigure_returns in Hre as (configured & H).
  exists fresh, configured. split; [reflexivity | exact H].
Qed.

(** An instance built from a symbolic Hamiltonian that is purely harmonic
    cannot be configured: both the attempt and the rollback read
    [self.symbolic_circuit], which such an instance does not have. *)
Theorem purely_harmonic_symbolic_hamiltonian_cannot_configure
    (env : Circuit.Env Expr X) tm sh td cb (s : Circuit.t Expr X) :
  Circuit.symbolic_circuit s = None ->
  Circuit._is_expression_purely_harmonic env (Circuit.hamiltonian_symbolic s) = true ->
  exists s' e, Circuit.configure env tm sh td cb s = (s', inl e).
Proof.
  intros Hnone Hph.
  destruct (Circuit.configure env tm sh td cb s) as [s' [e|u]] eqn:Hrun; [eauto|].
  exfalso. apply configure_returns_from_body in Hrun. rewrite Hnone in Hrun.
  apply (_configure_sym_hamiltonian_returns env _ _ _ _ _ Hnone) in Hrun as (Hph' & _).
  congruence.
Qed.

End further_properties.

Section further_properties_on_the_small_circuit.
Import Toy.

Lemma configure_exception_keeps_hierarchy_witness :
  Circuit.subsystem_trunc_dims
    (Circuit.configure (circuit_env false) None (Some one_by_one) None None plain_circuit).1
  = None.
Proof.
  assert (Hrun : Circuit.configure (circuit_env false) None (Some one_by_one) None None
                                   plain_circuit
                 = ((Circuit.configure (circuit_env false) None (Some one_by_one) None None
                                       plain_circuit).1,
                    inl Py.ConfigureFailed))
    by (vm_compute; reflexivity).
  destruct (configure_exception_keeps_hierarchy (circuit_env false) _ _ _ _ _ _ _ Hrun)
    as [_ Htd].
  exact Htd.
Defined.

Lemma subsystem_dense_rule_witness :
  exists self,
    Subsystem.__init__ (subsystem_env true) discretized_parent [Q1; theta1]
                       (Some [Int 1]) None (Some 10%Z) = inr self
    /\ Subsystem.type_of_matrices self <> dense.
Proof.
  eexists. split; [vm_compute; reflexivity|].
  match goal with
  | |- Subsystem.type_of_matrices ?self <> _ =>
      assert (Hinit : Subsystem.__init__ (subsystem_env true) discretized_parent
                        [Q1; theta1] (Some [Int 1]) None (Some 10%Z) = inr self)
        by (vm_compute; reflexivity)
  end.
  intros Hd.
  apply (subsystem_dense_rule (subsystem_env true) _ _ _ _ _ _ Hinit) in Hd as [_ Hb].
  discriminate Hb.
Defined.

Lemma deserialize_keeps_builder_matrix_witness :
  exists iodata rebuilt,
    Circuit.serialize transformed_circuit = inr iodata
    /\ Circuit.deserialize (circuit_env false) iodata = inr rebuilt
    /\ Circuit._transformation_matrix rebuilt = Some (Some user_matrix).
Proof.
  eexists. eexists. split; [vm_compute; reflexivity|].
  split; [vm_compute; reflexivity|].
  match goal with
  | |- Circuit._transformation_matrix ?c = _ =>
      assert (Hde : Circuit.deserialize (circuit_env false)
                      (Circuit.mkIOData discretized [] 10%Z false "heuristic" tt
                         None None (Some user_matrix) []) = inr c)
        by (vm_compute; reflexivity)
  end.
  destruct (deserialize_keeps_builder_matrix (circuit_env false) _ _ Hde)
    as (fresh & configured & _ & _ & _ & Hus).
  exact Hus.
Defined.

(** Stored data of a closure branch that the new circuit does not have:
    [_find_branch] returns [None], [configure] receives the list that holds
    it, the builder refuses the list, and after the rollback
    [deserialize] ends in the [RuntimeError] of [configure]. *)
Example deserialize_with_an_unknown_closure_branch :
  Circuit.deserialize (circuit_env false)
    (Circuit.mkIOData discretized [] 10%Z false "heuristic" tt None None None
       [(1%Z, 2%Z, "JJ"%string, [])])
  = inl Py.ConfigureFailed.
Proof. vm_compute. reflexivity. Qed.

(** The instance with one extended variable, had its Hamiltonian been
    classified as purely harmonic. *)
Lemma purely_harmonic_symbolic_hamiltonian_cannot_configure_witness :
  exists s' e,
    Circuit.configure (circuit_env true) None None None None one_extended_variable
    = (s', inl e).
Proof.
  apply (purely_harmonic_symbolic_hamiltonian_cannot_configure (circuit_env true)
           None None None None one_extended_variable); reflexivity.
Defined.

End further_properties_on_the_small_circuit.

(** ** Names and indices ([circuit_utils.py]) *)

Section operator_names.
Import OperatorNames.
Variable dec : N -> option Z.

Lemma search_first_digits_none (s : pystr) :
  search_first_digits dec s = None <-> Forall (fun c => is_digit dec c = false) s.
Proof.
  induction s as [|c s IH]; simpl.
  - split; [constructor | reflexivity].
  - destruct (is_digit dec c) eqn:Hc.
    + split; [discriminate|]. intros H. apply Forall_inv in H. congruence.
    + rewrite IH. split; [intros H; constructor; assumption | apply Forall_inv_tail].
Qed.

Lemma take_digits_run (digits rest : pystr) :
  Forall (fun c => is_digit dec c = true) digits ->
  match rest with [] => True | c :: _ => is_digit dec c = false end ->
  take_digits dec (digits ++ rest) = digits.
Proof.
  intros Hd Hrest. induction Hd as [|c ds Hc _ IH]; simpl.
  - destruct rest as [|c rest']; [reflexivity|]. simpl. rewrite Hrest. reflexivity.
  - rewrite Hc, IH. reflexivity.
Qed.

Lemma search_first_digits_run (stem digits rest : pystr) :
  Forall (fun c => is_digit dec c = false) stem ->
  digits <> [] ->
  Forall (fun c => is_digit dec c = true) digits ->
  match rest with [] => True | c :: _ => is_digit dec c = false end ->
  search_first_digits dec (stem ++ digits ++ rest) = Some digits.
Proof.
  intros Hstem Hne Hd Hrest. induction Hstem as [|c stem Hc _ IH]; simpl.
  - destruct digits as [|d ds]; [congruence|]. simpl.
    apply Forall_cons in Hd as [Hd Hds]. rewrite Hd.
    rewrite take_digits_run by assumption. reflexivity.
  - rewrite Hc. exact IH.
Qed.

Lemma take_digits_all_digits (r : pystr) :
  Forall (fun c => is_digit dec c = true) (take_digits dec r).
Proof.
  induction r as [|c r IH]; simpl; [constructor|].
  destruct (is_digit dec c) eqn:Hc; constructor; assumption.
Qed.

Lemma search_first_digits_some (s text : pystr) :
  search_first_digits dec s = Some text ->
  text <> [] /\ Forall (fun c => is_digit dec c = true) text.
Proof.
  induction s as [|c s IH]; simpl; [discriminate|].
  destruct (is_digit dec c) eqn:Hc; [|exact IH].
  intros [= <-]. split; [discriminate|].
  constructor; [exact Hc | apply take_digits_all_digits].
Qed.

(** The value of a text of digits, read from an accumulator. *)
Lemma int_of_digits_from_nonneg (ds : pystr) (acc : Z) :
  (forall c v, dec c = Some v -> (0 <= v <= 9)%Z) ->
  (0 <= acc)%Z ->
  (acc <= fold_left (fun a c => (10 * a + default 0 (dec c))%Z) ds acc)%Z.
Proof.
  intros Hrange. revert acc. induction ds as [|c ds IH]; intros acc Hacc; simpl; [lia|].
  assert (0 <= default 0%Z (dec c) <= 9)%Z as Hc.
  { destruct (dec c) as [v|] eqn:Hv; simpl; [eapply Hrange; eassumption | lia]. }
  etransitivity; [|apply IH; lia]. lia.
Qed.

Lemma int_of_digits_app (ds : pystr) (c : N) :
  int_of_digits dec (ds ++ [c]) = (10 * int_of_digits dec ds + default 0 (dec c))%Z.
Proof. unfold int_of_digits. rewrite fold_left_app. reflexivity. Qed.

Lemma ascii_digit_code (d : Z) :
  (0 <= d <= 9)%Z -> ascii_decimal (Z.to_N (48 + d)) = Some d.
Proof.
  intros Hd. unfold ascii_decimal.
  assert (d = 0 \/ d = 1 \/ d = 2 \/ d = 3 \/ d = 4 \/ d = 5 \/ d = 6 \/ d = 7
          \/ d = 8 \/ d = 9)%Z as Hcases by lia.
  repeat (destruct Hcases as [-> | Hcases]; [reflexivity|]). subst d. reflexivity.
Qed.

(** The digits of [str]: a text of ASCII digits that is not empty and whose
    value is the number. *)
Lemma digits_of_spec (Hdec : digit_table dec) (fuel : nat) :
  forall n, (0 <= n < 2 ^ Z.of_nat (S fuel))%Z ->
    exists ds,
      (forall acc, digits_of (S fuel) n acc = ds ++ acc)
      /\ ds <> []
      /\ Forall (fun c => is_digit dec c = true) ds
      /\ int_of_digits dec ds = n.
Proof.
  destruct Hdec as [_ Hascii].
  assert (Hdigit : forall n, (0 <= n)%Z ->
            dec (Z.to_N (48 + n mod 10)) = Some (n mod 10)%Z).
  { intros n Hn. apply Hascii, ascii_digit_code.
    pose proof (Z.mod_pos_bound n 10). lia. }
  induction fuel as [|fuel IH]; intros n Hn.
  - change (2 ^ Z.of_nat 1)%Z with 2%Z in Hn.
    exists [Z.to_N (48 + n mod 10)]. simpl.
    assert ((n <? 10)%Z = true) as -> by (apply Z.ltb_lt; lia).
    split; [reflexivity|]. split; [discriminate|].
    split.
    + repeat constructor. unfold is_digit. rewrite Hdigit by lia. reflexivity.
    + unfold int_of_digits. simpl. rewrite Hdigit by lia. simpl.
      rewrite Z.mod_small by lia. lia.
  - destruct (Z.ltb_spec n 10) as [Hsmall | Hbig].
    + exists [Z.to_N (48 + n mod 10)].
      split.
      { intros acc. simpl.
        assert ((n <? 10)%Z = true) as -> by (apply Z.ltb_lt; lia). reflexivity. }
      split; [discriminate|]. split.
      * repeat constructor. unfold is_digit. rewrite Hdigit by lia. reflexivity.
      * unfold int_of_digits. simpl. rewrite Hdigit by lia. simpl.
        rewrite Z.mod_small by lia. lia.
    + destruct (IH (n / 10)%Z) as (ds & Happ & Hne & Hall & Hval).
      { split; [apply Z.div_pos; lia|].
        apply Z.div_lt_upper_bound; [lia|].
        replace (Z.of_nat (S (S fuel))) with (Z.succ (Z.of_nat (S fuel))) in Hn by lia.
        rewrite Z.pow_succ_r in Hn by lia. lia. }
      exists (ds ++ [Z.to_N (48 + n mod 10)]).
      split.
      { intros acc.
        change (digits_of (S (S fuel)) n acc)
          with (let acc' := Z.to_N (48 + n mod 10) :: acc in
                if (n <? 10)%Z then acc' else digits_of (S fuel) (n / 10) acc').
        cbv zeta.
        assert ((n <? 10)%Z = false) as -> by (apply Z.ltb_ge; lia).
        rewrite Happ, <- app_assoc. reflexivity. }
      split; [intros H; apply app_eq_nil in H as [_ H]; discriminate|].
      split.
      * apply Forall_app. split; [exact Hall|].
        repeat constructor. unfold is_digit. rewrite Hdigit by lia. reflexivity.
      * rewrite int_of_digits_app, Hval, Hdigit by lia. simpl.
        pose proof (Z.div_mod n 10). lia.
Qed.

Lemma str_of_int_spec (Hdec : digit_table dec) (i : Z) :
  (0 <= i)%Z ->
  str_of_int i <> []
  /\ Forall (fun c => is_digit dec c = true) (str_of_int i)
  /\ int_of_digits dec (str_of_int i) = i.
Proof.
  intros Hi. unfold str_of_int.
  assert ((i <? 0)%Z = false) as -> by (apply Z.ltb_ge; lia).
  destruct (digits_of_spec Hdec (Z.to_nat (Z.log2 i)) i) as (ds & Happ & Hne & Hall & Hval).
  { split; [exact Hi|].
    replace (Z.of_nat (S (Z.to_nat (Z.log2 i)))) with (Z.succ (Z.log2 i))
      by (pose proof (Z.log2_nonneg i); lia).
    destruct (Z.eq_dec i 0%Z) as [-> | Hnz]; [reflexivity|].
    apply Z.log2_spec. lia. }
  rewrite Happ, app_nil_r. auto.
Qed.

(** The trailing number of a name that ends in a run of digits after a
    character that is not a digit. *)
Lemma get_trailing_number_of_indexed (stem digits : pystr) :
  (forall stem' c, stem = stem' ++ [c] -> is_digit dec c = false) ->
  digits <> [] ->
  Forall (fun c => is_digit dec c = true) digits ->
  get_trailing_number dec (stem ++ digits) = Some (int_of_digits dec digits).
Proof.
  intros Hstem Hne Hall. unfold get_trailing_number, search_trailing_digits.
  rewrite rev_app_distr.
  assert (Htake : take_digits dec (rev digits ++ rev stem) = rev digits).
  { apply take_digits_run.
    - apply List.Forall_forall. intros c Hc. rewrite List.Forall_forall in Hall.
      apply Hall. apply in_rev. exact Hc.
    - destruct (rev stem) as [|c r] eqn:Hrev; [exact I|].
      apply (Hstem (rev r) c). apply rev_eq_cons. exact Hrev. }
  rewrite Htake.
  destruct (rev digits) as [|c ds] eqn:Hrev.
  - exfalso. apply Hne. rewrite <- (rev_involutive digits), Hrev. reflexivity.
  - rewrite <- Hrev, rev_involutive. reflexivity.
Qed.

End operator_names.

Lemma ascii_decimal_is_a_digit_table : OperatorNames.digit_table ascii_decimal.
Proof.
  split; [|auto].
  intros c v. unfold ascii_decimal.
  destruct ((48 <=? c)%N && (c <=? 57)%N) eqn:Hc; [|discriminate].
  intros [= <-]. apply andb_true_iff in Hc as [H1 H2].
  apply N.leb_le in H1, H2. lia.
Qed.

Section operator_names_properties.
Import OperatorNames.

(** [get_operator_number] returns the value of the first run of digits of
    the name, whatever follows it; it never returns zero or a negative
    number: a name without a digit ends in the [AttributeError] of
    [match.group()], and a first run of value zero in the exception of the
    function. *)
Theorem get_operator_number_reads_first_run (dec : N -> option Z) (input_str : pystr) :
  digit_table dec ->
  (get_operator_number dec input_str = inl NoneHasNoGroup
   <-> Forall (fun c => is_digit dec c = false) input_str)
  /\ (forall number, get_operator_number dec input_str = inr number -> (0 < number)%Z)
  /\ (forall stem digits rest,
        input_str = stem ++ digits ++ rest ->
        Forall (fun c => is_digit dec c = false) stem ->
        digits <> [] ->
        Forall (fun c => is_digit dec c = true) digits ->
        match rest with [] => True | c :: _ => is_digit dec c = false end ->
        get_operator_number dec input_str
        = if (int_of_digits dec digits =? 0)%Z
          then inl (NotAValidOperatorName input_str)
          else inr (int_of_digits dec digits)).
Proof.
  intros [Hrange _]. unfold get_operator_number. repeat split.
  - destruct (search_first_digits dec input_str) as [text|] eqn:Hs.
    + destruct (_ =? 0)%Z; discriminate.
    + intros _. apply search_first_digits_none. exact Hs.
  - intros Hall. apply search_first_digits_none in Hall. rewrite Hall. reflexivity.
  - intros number. destruct (search_first_digits dec input_str) as [text|]; [|discriminate].
    destruct (Z.eqb_spec (int_of_digits dec text) 0) as [|Hnz]; [discriminate|].
    intros [= <-].
    pose proof (int_of_digits_from_nonneg dec text 0 Hrange ltac:(lia)) as Hge.
    fold (int_of_digits dec text) in Hge. lia.
  - intros stem digits rest -> Hstem Hne Hall Hrest.
    rewrite (search_first_digits_run dec stem digits rest) by assumption. reflexivity.
Qed.

(** [annihilation9_operator], the example of the docstring. *)
Lemma get_operator_number_reads_first_run_witness :
  digit_table ascii_decimal
  /\ get_operator_number ascii_decimal
       [97; 110; 110; 105; 104; 105; 108; 97; 116; 105; 111; 110; 57;
        95; 111; 112; 101; 114; 97; 116; 111; 114]%N = inr 9%Z.
Proof.
  split; [exact ascii_decimal_is_a_digit_table|].
  destruct (get_operator_number_reads_first_run ascii_decimal
              [97; 110; 110; 105; 104; 105; 108; 97; 116; 105; 111; 110; 57;
               95; 111; 112; 101; 114; 97; 116; 111; 114]%N
              ascii_decimal_is_a_digit_table) as (_ & _ & Hrun).
  rewrite (Hrun [97; 110; 110; 105; 104; 105; 108; 97; 116; 105; 111; 110]%N
                [57]%N [95; 111; 112; 101; 114; 97; 116; 111; 114]%N);
    [reflexivity | reflexivity | | discriminate | | reflexivity].
  - repeat constructor.
  - repeat constructor.
Defined.

(** Index round trip: the symbols that [_generate_symbols_list] makes from
    a stem that does not end in a digit and from indices that are not
    negative carry these indices as their trailing numbers, in the same
    order. [name_of] reads the name of a symbol. *)
Theorem generated_symbols_carry_their_index {Sym : Type} (dec : N -> option Z)
    (symbols : pystr -> Sym) (name_of : Sym -> pystr)
    (var_str : pystr) (iterable_list : list Z) :
  digit_table dec ->
  (forall stem c, var_str = stem ++ [c] -> is_digit dec c = false) ->
  Forall (fun i => (0 <= i)%Z) iterable_list ->
  (forall i, In i iterable_list ->
     name_of (symbols (var_str ++ str_of_int i)) = var_str ++ str_of_int i) ->
  map (fun sym => get_trailing_number dec (name_of sym))
      (_generate_symbols_list symbols var_str iterable_list)
  = map Some iterable_list.
Proof.
  intros Hdec Hstem Hpos Hname. unfold _generate_symbols_list.
  rewrite map_map. apply map_ext_in. intros i Hi.
  rewrite Hname by exact Hi.
  rewrite List.Forall_forall in Hpos.
  destruct (str_of_int_spec dec Hdec i (Hpos i Hi)) as (Hne & Hall & Hval).
  rewrite get_trailing_number_of_indexed by assumption.
  rewrite Hval. reflexivity.
Qed.

Lemma generated_symbols_carry_their_index_witness :
  map (fun sym => get_trailing_number ascii_decimal sym)
      (_generate_symbols_list (fun name => name) [theta] [1; 2; 10]%Z)
  = [Some 1; Some 2; Some 10]%Z.
Proof.
  apply (generated_symbols_carry_their_index ascii_decimal (fun name => name)
           (fun sym => sym) [theta] [1; 2; 10]%Z).
  - exact ascii_decimal_is_a_digit_table.
  - intros stem c H. destruct stem as [|a [|b stem]]; [|discriminate|discriminate].
    injection H as <-. reflexivity.
  - repeat constructor; lia.
  - reflexivity.
Defined.

(** A negative index does not come back: the minus sign of [str] is not
    part of the trailing number. *)
Example negative_index_loses_its_sign :
  get_trailing_number ascii_decimal ([theta] ++ str_of_int (-3)) = Some 3%Z.
Proof. reflexivity. Qed.

(** [is_potential_term] holds exactly when the name of some free symbol
    contains [θ] or [Φ]; the order in which the set of free symbols is
    iterated does not matter. *)
Theorem is_potential_term_looks_for_angle_or_flux (free_symbol_names : list pystr) :
  (is_potential_term free_symbol_names = true
   <-> exists name, In name free_symbol_names /\ (In theta name \/ In Phi name))
  /\ (forall other_order, Permutation free_symbol_names other_order ->
        is_potential_term other_order = is_potential_term free_symbol_names).
Proof.
  assert (Hcontains : forall c name, contains c name = true <-> In c name).
  { intros c name. unfold contains. rewrite existsb_exists. split.
    - intros (x & Hx & Heq). apply N.eqb_eq in Heq. subst. exact Hx.
    - intros H. exists c. split; [exact H | apply N.eqb_refl]. }
  assert (Hiff : forall names, is_potential_term names = true
            <-> exists name, In name names /\ (In theta name \/ In Phi name)).
  { induction names as [|name names IH]; simpl.
    - split; [discriminate | intros (? & [] & _)].
    - destruct (contains theta name || contains Phi name) eqn:Hc.
      + split; [|reflexivity]. intros _. exists name. split; [left; reflexivity|].
        apply orb_true_iff in Hc. rewrite !Hcontains in Hc. exact Hc.
      + rewrite IH. split.
        * intros (x & Hx & H). exists x. auto.
        * intros (x & [<- | Hx] & H); [|eauto].
          apply orb_false_iff in Hc as [H1 H2].
          rewrite <- !Hcontains in H. destruct H; congruence. }
  split; [apply Hiff|].
  intros other Hperm.
  destruct (is_potential_term free_symbol_names) eqn:H1.
  - apply Hiff. apply Hiff in H1 as (x & Hx & H). exists x. split; [|exact H].
    eapply Permutation_in; eassumption.
  - destruct (is_potential_term other) eqn:H2; [|reflexivity].
    apply Hiff in H2 as (x & Hx & H).
    assert (is_potential_term free_symbol_names = true) as Habs.
    { apply Hiff. exists x. split; [|exact H].
      eapply Permutation_in; [symmetry|]; eassumption. }
    congruence.
Qed.

End operator_names_properties.

(** ** Operators of diagonal matrices ([circuit_utils.py]) *)

Section diagonal_operators.
Import DiagonalOps.

Lemma ncols_tabulate_pos {A} (n m : nat) (f : nat -> nat -> A) :
  (0 < n)%nat -> ncols (tabulate n m f) = m.
Proof.
  intros Hn. unfold ncols, tabulate.
  destruct n as [|n]; [lia|]. simpl. rewrite length_map, length_seq. reflexivity.
Qed.

Lemma length_make_linspace (grid : Grid1d) :
  length (make_linspace grid) = pt_count grid.
Proof. unfold make_linspace. rewrite length_map, length_seq. reflexivity. Qed.

Lemma diagonal_setdiag (values : list R) :
  diagonal (setdiag (length values) values) = values.
Proof.
  unfold diagonal, setdiag.
  destruct values as [|v values]; [reflexivity|].
  rewrite nrows_tabulate, ncols_tabulate_pos, Nat.min_id by (simpl; lia).
  apply nth_ext with (d := 0%R) (d' := 0%R).
  - rewrite length_map, length_seq. reflexivity.
  - intros i Hi. rewrite length_map, length_seq in Hi.
    rewrite nth_map_seq by exact Hi.
    rewrite entry_tabulate by exact Hi. rewrite Nat.eqb_refl. reflexivity.
Qed.

Lemma Rsum_app (l1 l2 : list R) : Rsum (l1 ++ l2) = (Rsum l1 + Rsum l2)%R.
Proof. unfold Rsum. induction l1 as [|x l1 IH]; simpl; [lra | rewrite IH; lra]. Qed.

Lemma Rsum_zero (n : nat) (f : nat -> R) :
  (forall l, (l < n)%nat -> f l = 0%R) -> Rsum (map f (seq 0 n)) = 0%R.
Proof.
  induction n as [|n IH]; intros H; [reflexivity|].
  rewrite seq_S, map_app, Rsum_app, IH by (intros; apply H; lia).
  simpl. rewrite H by lia. lra.
Qed.

(** A sum with one term that is not zero. *)
Lemma Rsum_single (n i : nat) (f : nat -> R) :
  (i < n)%nat ->
  (forall l, (l < n)%nat -> l <> i -> f l = 0%R) ->
  Rsum (map f (seq 0 n)) = f i.
Proof.
  induction n as [|n IH]; intros Hi Hz; [lia|].
  rewrite seq_S, map_app, Rsum_app. simpl.
  destruct (Nat.eq_dec i n) as [-> | Hne].
  - rewrite Rsum_zero by (intros; apply Hz; lia). lra.
  - rewrite IH by (try lia; intros; apply Hz; lia).
    rewrite (Hz n) by lia. lra.
Qed.

(** The product of two diagonal matrices of the same size. *)
Lemma matmul_setdiag (n : nat) (u v : list R) :
  matmul (setdiag n u) (setdiag n v)
  = setdiag n (map (fun i => nth i u 0 * nth i v 0)%R (seq 0 n)).
Proof.
  destruct n as [|n]; [reflexivity|].
  assert (Hr : forall w, nrows (setdiag (S n) w) = S n)
    by (intros; apply nrows_tabulate).
  assert (Hc : forall w, ncols (setdiag (S n) w) = S n)
    by (intros; apply ncols_tabulate_pos; lia).
  assert (He : forall w i j, (i < S n)%nat -> (j < S n)%nat ->
            entry 0%R (setdiag (S n) w) i j
            = if Nat.eqb i j then nth i w 0%R else 0%R)
    by (intros; unfold setdiag; apply entry_tabulate; assumption).
  unfold matmul. rewrite Hr, !Hc. unfold setdiag at 3.
  apply tabulate_ext. intros i j Hi Hj.
  rewrite (Rsum_single (S n) i).
  - rewrite !He by lia. rewrite Nat.eqb_refl.
    destruct (Nat.eqb_spec i j) as [-> | Hne]; [|lra].
    rewrite nth_map_seq by exact Hj. reflexivity.
  - exact Hi.
  - intros l Hl Hne. rewrite !He by lia.
    destruct (Nat.eqb_spec i l); [congruence | lra].
Qed.

(** On the flux operator of a grid the helpers give the trigonometric
    operators of the flux: [_cos_dia] the matrix of [_cos_phi], and
    [_sin_dia] the diagonal matrix of the sines of the grid coordinates. *)
Theorem dia_functions_of_the_flux_operator (grid : Grid1d) :
  _cos_dia (_phi_operator grid) = _cos_phi grid
  /\ _sin_dia (_phi_operator grid)
     = setdiag (pt_count grid) (map sin (make_linspace grid)).
Proof.
  assert (Hd : diagonal (_phi_operator grid) = make_linspace grid).
  { pose proof (diagonal_setdiag (make_linspace grid)) as H.
    rewrite length_make_linspace in H. exact H. }
  unfold _cos_dia, _sin_dia, diags.
  rewrite Hd, !length_map, length_make_linspace. split; reflexivity.
Qed.

(** [_cos_dia(x) @ _cos_dia(x) + _sin_dia(x) @ _sin_dia(x)] is the identity
    of the size of the diagonal of [x], for every matrix [x]; so it is for
    the dense variants. *)
Theorem cos_dia_sin_dia_squares_add_to_identity (x : matrix R) :
  map2 Rplus (matmul (_cos_dia x) (_cos_dia x)) (matmul (_sin_dia x) (_sin_dia x))
  = identity (length (diagonal x))
  /\ map2 Rplus (matmul (_cos_dia_dense x) (_cos_dia_dense x))
                (matmul (_sin_dia_dense x) (_sin_dia_dense x))
     = identity (length (diagonal x)).
Proof.
  assert (map2 Rplus (matmul (_cos_dia x) (_cos_dia x))
                     (matmul (_sin_dia x) (_sin_dia x))
          = identity (length (diagonal x))) as H.
  { unfold _cos_dia, _sin_dia, diags. rewrite !length_map.
    set (n := length (diagonal x)).
    rewrite !matmul_setdiag. unfold setdiag. rewrite map2_tabulate.
    unfold identity. apply tabulate_ext. intros i j Hi Hj.
    destruct (Nat.eqb_spec i j) as [-> | Hne]; [|lra].
    rewrite !nth_map_seq by exact Hj.
    rewrite (nth_indep (map cos _) 0%R (cos 0)) by (rewrite length_map; exact Hj).
    rewrite (nth_indep (map sin _) 0%R (sin 0)) by (rewrite length_map; exact Hj).
    rewrite !map_nth.
    pose proof (sin2_cos2 (nth j (diagonal x) 0%R)) as Hsc.
    unfold Rsqr in Hsc. lra. }
  split; exact H.
Qed.

End diagonal_operators.

(** ** The truncation template ([circuit_utils.py]) *)

Section item_induction.
Variable P : item -> Prop.
Hypothesis P_Int : forall z, P (Int z).
Hypothesis P_Nested : forall l, Forall P l -> P (Nested l).

(** Induction on a nested list, with the property of every entry at hand. *)
Lemma item_nested_ind : forall x, P x.
Proof using P_Int P_Nested.
  fix IH 1. intros [z | l]; [apply P_Int|].
  apply P_Nested. induction l as [|y l IHl]; constructor; [apply IH | exact IHl].
Qed.

End item_induction.

Section truncation_template_facts.
Import Truncation.
Variable flatten_list_recursive : RecursiveList -> RecursiveList.

(** The loop inside [template_of_entry] is the template with the defaults. *)
Lemma template_of_entry_nested (i c : Z) (l : list item) :
  template_of_entry flatten_list_recursive i c (Nested l)
  = if decide (l = flatten_list_recursive l) then inr (Int i)
    else match truncation_template flatten_list_recursive l 6 30 with
         | inl e => inl e
         | inr nested => inr (Nested [Int c; Nested nested])
         end.
Proof.
  simpl. destruct (decide (l = flatten_list_recursive l)); [reflexivity|].
  match goal with
  | |- match ?a with _ => _ end = match ?b with _ => _ end =>
      assert (a = b) as ->; [|reflexivity]
  end.
  clear n. induction l as [|x l IHl]; [reflexivity|].
  cbn [Truncation.truncation_template]. rewrite <- IHl. reflexivity.
Qed.

Lemma truncation_template_cons (x : item) (h : list item) (i c : Z) :
  truncation_template flatten_list_recursive (x :: h) i c
  = match template_of_entry flatten_list_recursive i c x with
    | inl e => inl e
    | inr dims =>
        match truncation_template flatten_list_recursive h i c with
        | inl e => inl e
        | inr trunc_dims => inr (dims :: trunc_dims)
        end
    end.
Proof. reflexivity. Qed.

Lemma template_raises_type_error :
  forall x i c e, template_of_entry flatten_list_recursive i c x = inl e -> e = Py.TypeError.
Proof.
  intros x. induction x as [z | l IH] using item_nested_ind; intros i c e.
  - simpl. intros [= <-]. reflexivity.
  - rewrite template_of_entry_nested.
    destruct (decide (l = flatten_list_recursive l)); [discriminate|].
    destruct (truncation_template flatten_list_recursive l 6 30) as [e'|nested] eqn:Hrun; [|discriminate].
    intros [= <-]. clear n.
    revert e' Hrun. induction IH as [|x l Hx _ IHl]; intros e' Hrun; [discriminate|].
    rewrite truncation_template_cons in Hrun.
    destruct (template_of_entry flatten_list_recursive 6 30 x) as [e1|dims] eqn:Hx1.
    + injection Hrun as <-. eapply Hx; eassumption.
    + destruct (truncation_template flatten_list_recursive l 6 30) as [e2|ts] eqn:Hl; [|discriminate].
      injection Hrun as <-. apply IHl. reflexivity.
Qed.

Lemma truncation_template_raises_type_error (h : list item) (i c : Z) e :
  truncation_template flatten_list_recursive h i c = inl e -> e = Py.TypeError.
Proof.
  induction h as [|x h IH]; [discriminate|].
  rewrite truncation_template_cons.
  destruct (template_of_entry flatten_list_recursive i c x) as [e1|dims] eqn:Hx.
  - intros [= <-]. eapply template_raises_type_error; eassumption.
  - destruct (truncation_template flatten_list_recursive h i c) as [e2|ts]; [|discriminate].
    intros [= <-]. apply IH. reflexivity.
Qed.

Hypothesis flatten_spec : fixes_the_flat_lists flatten_list_recursive.

Lemma flat_test (l : list item) :
  (exists Heq, decide (l = flatten_list_recursive l) = left Heq)
  <-> Forall (fun x => is_list x = false) l.
Proof using flatten_spec.
  unfold fixes_the_flat_lists in flatten_spec. rewrite <- flatten_spec. split.
  - intros [Heq _]. symmetry. exact Heq.
  - intros Heq. destruct (decide (l = flatten_list_recursive l)) as [H|H]; [eauto|].
    congruence.
Qed.

Lemma template_of_flat_entry (i c : Z) (l : list item) :
  Forall (fun x => is_list x = false) l ->
  template_of_entry flatten_list_recursive i c (Nested l) = inr (Int i).
Proof using flatten_spec.
  intros Hflat. rewrite template_of_entry_nested.
  apply flat_test in Hflat as [Heq ->]. reflexivity.
Qed.

Lemma template_of_nested_entry (i c : Z) (l : list item) :
  ~ Forall (fun x => is_list x = false) l ->
  template_of_entry flatten_list_recursive i c (Nested l)
  = match truncation_template flatten_list_recursive l 6 30 with
    | inl e => inl e
    | inr nested => inr (Nested [Int c; Nested nested])
    end.
Proof using flatten_spec.
  intros Hnot. rewrite template_of_entry_nested.
  destruct (decide (l = flatten_list_recursive l)) as [Heq|] eqn:Htest; [|reflexivity].
  exfalso. apply Hnot. apply flat_test. eauto.
Qed.

Lemma truncation_template_returns (h t : list item) (i c : Z) :
  truncation_template flatten_list_recursive h i c = inr t ->
  length t = length h
  /\ forall k l, h !! k = Some (Nested l) ->
       (Forall (fun x => is_list x = false) l -> t !! k = Some (Int i))
       /\ (~ Forall (fun x => is_list x = false) l ->
           exists nested,
             truncation_template flatten_list_recursive l 6 30 = inr nested
             /\ t !! k = Some (Nested [Int c; Nested nested])).
Proof using flatten_spec.
  revert t. induction h as [|x h IH]; intros t.
  - intros [= <-]. split; [reflexivity|]. intros k l Hk. discriminate.
  - rewrite truncation_template_cons.
    destruct (template_of_entry flatten_list_recursive i c x) as [e|dims] eqn:Hx; [discriminate|].
    destruct (truncation_template flatten_list_recursive h i c) as [e|ts] eqn:Hh; [discriminate|].
    intros [= <-]. destruct (IH ts eq_refl) as [Hlen Hlook].
    split; [simpl; congruence|].
    intros [|k] l Hk; [|apply Hlook; exact Hk].
    injection Hk as ->. simpl. split.
    + intros Hflat. rewrite template_of_flat_entry in Hx by exact Hflat. congruence.
    + intros Hnot. rewrite template_of_nested_entry in Hx by exact Hnot.
      destruct (truncation_template flatten_list_recursive l 6 30) as [e|nested]; [discriminate|].
      exists nested. split; [reflexivity | congruence].
Qed.

Lemma truncation_template_integer_entry (h : list item) (i c : Z) (z : Z) :
  In (Int z) h -> truncation_template flatten_list_recursive h i c = inl Py.TypeError.
Proof.
  intros Hin.
  destruct (truncation_template flatten_list_recursive h i c) as [e|t] eqn:Hrun.
  - f_equal. eapply truncation_template_raises_type_error; eassumption.
  - exfalso. revert t Hrun. induction h as [|x h IH]; intros t; [destruct Hin|].
    rewrite truncation_template_cons.
    destruct Hin as [-> | Hin]; [discriminate|].
    destruct (template_of_entry flatten_list_recursive i c x); [discriminate|].
    destruct (truncation_template flatten_list_recursive h i c) as [e|ts]; [discriminate|].
    intros _. eapply IH; eauto.
Qed.

(** The inner loop of [entry_same_shape] is [list_same_shape]. *)
Lemma entry_same_shape_nested (l : list item) (z : Z) (nested : list item) :
  entry_same_shape (Nested l) (Nested [Int z; Nested nested])
  = existsb is_list l && list_same_shape l nested.
Proof.
  reflexivity.
Qed.

Lemma template_has_the_shape :
  forall x i c y, template_of_entry flatten_list_recursive i c x = inr y -> entry_same_shape x y = true.
Proof using flatten_spec.
  intros x. induction x as [z | l IH] using item_nested_ind; intros i c y.
  - discriminate.
  - destruct (List.Forall_dec (fun x => is_list x = false)
                (fun x => bool_dec (is_list x) false) l) as [Hflat | Hnot].
    + rewrite template_of_flat_entry by exact Hflat. intros [= <-]. simpl.
      apply forallb_forall. intros x Hx. rewrite List.Forall_forall in Hflat.
      rewrite (Hflat x Hx). reflexivity.
    + rewrite template_of_nested_entry by exact Hnot.
      destruct (truncation_template flatten_list_recursive l 6 30) as [e|nested] eqn:Hrun; [discriminate|].
      intros [= <-]. rewrite entry_same_shape_nested.
      apply andb_true_iff. split.
      * apply not_false_iff_true. intros Hex. apply Hnot.
        apply List.Forall_forall. intros x Hx.
        destruct (is_list x) eqn:Hl; [|reflexivity].
        assert (existsb is_list l = true) by (apply existsb_exists; eauto).
        congruence.
      * clear Hnot. revert nested Hrun.
        induction IH as [|x l Hx _ IHl]; intros nested.
        { intros [= <-]. reflexivity. }
        rewrite truncation_template_cons.
        destruct (template_of_entry flatten_list_recursive 6 30 x) as [e|dims] eqn:Hx1; [discriminate|].
        destruct (truncation_template flatten_list_recursive l 6 30) as [e|ts] eqn:Hl; [discriminate|].
        intros [= <-]. cbn [list_same_shape].
        rewrite (Hx _ _ _ Hx1), (IHl ts eq_refl). reflexivity.
Qed.

Lemma truncation_template_has_the_shape (h t : list item) (i c : Z) :
  truncation_template flatten_list_recursive h i c = inr t -> list_same_shape h t = true.
Proof using flatten_spec.
  revert t. induction h as [|x h IH]; intros t.
  - intros [= <-]. reflexivity.
  - rewrite truncation_template_cons.
    destruct (template_of_entry flatten_list_recursive i c x) as [e|dims] eqn:Hx; [discriminate|].
    destruct (truncation_template flatten_list_recursive h i c) as [e|ts] eqn:Hh; [discriminate|].
    intros [= <-]. cbn [list_same_shape].
    rewrite (template_has_the_shape _ _ _ _ Hx), (IH ts eq_refl). reflexivity.
Qed.

End truncation_template_facts.

Section truncation_template_examples.
Import Truncation.

Lemma integers_of_are_integers (x : item) :
  Forall (fun y => is_list y = false) (integers_of x).
Proof.
  induction x as [z | l IH] using item_nested_ind.
  - repeat constructor.
  - simpl. induction IH as [|x l Hx _ IHl]; [constructor|].
    apply Forall_app. split; assumption.
Qed.

Lemma flatten_depth_first_fixes_the_flat_lists :
  fixes_the_flat_lists flatten_depth_first.
Proof.
  intros l. unfold flatten_depth_first. split.
  - intros <-. induction l as [|x l IHl]; simpl; [constructor|].
    apply Forall_app. split; [apply integers_of_are_integers | exact IHl].
  - induction 1 as [|x l Hx _ IHl]; [reflexivity|].
    destruct x as [z|l']; [|discriminate]. simpl. rewrite IHl. reflexivity.
Qed.

End truncation_template_examples.

Section truncation_template_properties.
Import Truncation.

(** The template has one entry for each entry of the hierarchy: for a flat
    list of indices the integer [individual_trunc_dim], for a list with
    nested lists the pair of [combined_trunc_dim] and the template of that
    list made with the defaults 6 and 30, whatever dimensions were passed.
    A hierarchy with an integer among its entries ends in a [TypeError],
    and no other exception leaves the function. *)
Theorem truncation_template_structure
    (flatten_list_recursive : RecursiveList -> RecursiveList)
    (system_hierarchy : RecursiveList) (individual_trunc_dim combined_trunc_dim : Z) :
  fixes_the_flat_lists flatten_list_recursive ->
  (forall trunc_dims,
     truncation_template flatten_list_recursive system_hierarchy
       individual_trunc_dim combined_trunc_dim = inr trunc_dims ->
     length trunc_dims = length system_hierarchy
     /\ forall k entries, system_hierarchy !! k = Some (Nested entries) ->
          (Forall (fun x => is_list x = false) entries ->
           trunc_dims !! k = Some (Int individual_trunc_dim))
          /\ (~ Forall (fun x => is_list x = false) entries ->
              exists nested,
                truncation_template flatten_list_recursive entries 6 30 = inr nested
                /\ trunc_dims !! k
                   = Some (Nested [Int combined_trunc_dim; Nested nested])))
  /\ (forall z, In (Int z) system_hierarchy ->
        truncation_template flatten_list_recursive system_hierarchy
          individual_trunc_dim combined_trunc_dim = inl Py.TypeError)
  /\ (forall e,
        truncation_template flatten_list_recursive system_hierarchy
          individual_trunc_dim combined_trunc_dim = inl e -> e = Py.TypeError).
Proof.
  intros Hflat. split; [|split].
  - intros t. apply truncation_template_returns. exact Hflat.
  - intros z. apply truncation_template_integer_entry.
  - intros e. apply truncation_template_raises_type_error.
Qed.

(** [truncation_template([[1], [[2], [3]]], 10, 50)] is
    [[10, [50, [6, 6]]]]. *)
Lemma truncation_template_structure_witness :
  fixes_the_flat_lists flatten_depth_first
  /\ truncation_template flatten_depth_first
       [Nested [Int 1]; Nested [Nested [Int 2]; Nested [Int 3]]] 10 50
     = inr [Int 10; Nested [Int 50; Nested [Int 6; Int 6]]]
  /\ length [Int 10; Nested [Int 50; Nested [Int 6; Int 6]]]
     = length [Nested [Int 1]; Nested [Nested [Int 2]; Nested [Int 3]]].
Proof.
  split; [exact flatten_depth_first_fixes_the_flat_lists|].
  split; [vm_compute; reflexivity|].
  apply (truncation_template_structure flatten_depth_first
           [Nested [Int 1]; Nested [Nested [Int 2]; Nested [Int 3]]] 10 50
           flatten_depth_first_fixes_the_flat_lists).
  vm_compute. reflexivity.
Defined.

(** A template that is returned has the nested shape of its hierarchy, the
    shape a truncation specification must have: an integer for a flat list
    and a pair of a dimension and a nested specification for a list of
    lists. *)
Theorem truncation_template_fits_the_hierarchy
    (flatten_list_recursive : RecursiveList -> RecursiveList)
    (system_hierarchy trunc_dims : RecursiveList)
    (individual_trunc_dim combined_trunc_dim : Z) :
  fixes_the_flat_lists flatten_list_recursive ->
  truncation_template flatten_list_recursive system_hierarchy
    individual_trunc_dim combined_trunc_dim = inr trunc_dims ->
  same_shape (Some system_hierarchy) (Some trunc_dims) = true.
Proof.
  intros Hflat Hrun. simpl.
  eapply truncation_template_has_the_shape; eassumption.
Qed.

Lemma truncation_template_fits_the_hierarchy_witness :
  same_shape (Some [Nested [Int 1]; Nested [Nested [Int 2]; Nested [Int 3]]])
             (Some [Int 10; Nested [Int 50; Nested [Int 6; Int 6]]]) = true.
Proof.
  apply (truncation_template_fits_the_hierarchy flatten_depth_first _ _ 10 50
           flatten_depth_first_fixes_the_flat_lists).
  vm_compute. reflexivity.
Defined.

End truncation_template_properties.

(** ** The node indices of an assembled circuit ([circuit_utils.py]) *)

Section assembled_nodes.
Import Assemble.

Lemma lookup_filled_dict (l : list Z) (offset : Z) (d0 : gmap Z Z) (n : Z) :
  foldl (fun d i => <[i := (i + offset)%Z]> d) d0 l !! n
  = if decide (n ∈ l) then Some (n + offset)%Z else d0 !! n.
Proof.
  revert d0. induction l as [|i l IH]; intros d0; simpl.
  - destruct (decide (n ∈ [])) as [H|_]; [|reflexivity]. inversion H.
  - rewrite IH.
    destruct (decide (n ∈ l)) as [Hl|Hl].
    + rewrite decide_True by (right; exact Hl). reflexivity.
    + destruct (decide (n = i)) as [->|Hne].
      * rewrite decide_True by left. apply lookup_insert_eq.
      * rewrite decide_False by (intros H; apply elem_of_cons in H as [?|?]; auto).
        apply lookup_insert_ne. congruence.
Qed.

Lemma lookup_subcircuit_node_index_dict (nodes : gset Z) (offset n : Z) :
  subcircuit_node_index_dict nodes offset !! n
  = if decide (n ∈ nodes)
    then Some (if decide (n = 0) then 0 else n + offset)%Z
    else None.
Proof.
  unfold subcircuit_node_index_dict. cbv zeta.
  assert (Hfill : forall i,
            foldl (fun d j => <[j := (j + offset)%Z]> d) (∅ : gmap Z Z) (elements nodes) !! i
            = if decide (i ∈ nodes) then Some (i + offset)%Z else None).
  { intros i. rewrite lookup_filled_dict.
    destruct (decide (i ∈ elements nodes)) as [H|H];
      [rewrite decide_True by (apply elem_of_elements; exact H)
      |rewrite decide_False by (rewrite <- elem_of_elements; exact H)];
      [reflexivity | apply lookup_empty]. }
  destruct (decide (0%Z ∈ nodes)) as [Hg|Hg].
  - destruct (decide (n = 0%Z)) as [->|Hn].
    + rewrite decide_True by exact Hg. apply lookup_insert_eq.
    + rewrite lookup_insert_ne by congruence. apply Hfill.
  - rewrite Hfill. destruct (decide (n ∈ nodes)) as [Hin|]; [|reflexivity].
    rewrite decide_False by (intros ->; contradiction). reflexivity.
Qed.

Lemma offset_before_cons (nodes : gset Z) (rest : list (gset Z)) (k : nat) :
  offset_before (nodes :: rest) (S k) = (offset_step nodes + offset_before rest k)%Z.
Proof. reflexivity. Qed.

Lemma sum_app (l1 l2 : list Z) :
  fold_right Z.add 0%Z (l1 ++ l2)
  = (fold_right Z.add 0 l1 + fold_right Z.add 0 l2)%Z.
Proof. induction l1 as [|x l1 IH]; simpl; [reflexivity | rewrite IH; lia]. Qed.

Lemma offset_before_S (nl : list (gset Z)) (k : nat) (nodes : gset Z) :
  nl !! k = Some nodes ->
  offset_before nl (S k) = (offset_before nl k + offset_step nodes)%Z.
Proof.
  intros Hk. unfold offset_before.
  change (firstn (S k) nl) with (take (S k) nl).
  rewrite (take_S_r _ _ _ Hk), map_app, sum_app. simpl. lia.
Qed.

Lemma offset_before_all (nl : list (gset Z)) (k : nat) :
  (length nl <= k)%nat -> offset_before nl k = offset_before nl (length nl).
Proof.
  intros Hk. unfold offset_before. rewrite !firstn_all2 by lia. reflexivity.
Qed.

Lemma lookup_node_index_dicts (nl : list (gset Z)) (offset : Z) (k : nat) :
  node_index_dicts nl offset !! k
  = (fun nodes => subcircuit_node_index_dict nodes (offset + offset_before nl k))
      <$> nl !! k.
Proof.
  revert offset k. induction nl as [|nodes rest IH]; intros offset k; [reflexivity|].
  destruct k as [|k]; simpl.
  - unfold offset_before. simpl. rewrite Z.add_0_r. reflexivity.
  - rewrite IH, offset_before_cons.
    destruct (rest !! k); simpl; [|reflexivity].
    do 2 f_equal. lia.
Qed.

(** The non-ground nodes of a subcircuit numbered from 1 to [m]. *)
Lemma numbered_nodes (nodes : gset Z) (m : nat) :
  nodes ∖ {[0%Z]} = list_to_set (seqZ 1 (Z.of_nat m)) ->
  offset_step nodes = Z.of_nat m
  /\ forall n, (n ∈ nodes /\ n <> 0%Z) <-> (1 <= n <= Z.of_nat m)%Z.
Proof.
  intros Hnum.
  assert (Hmem : forall n, (n ∈ nodes /\ n <> 0%Z) <-> (1 <= n <= Z.of_nat m)%Z).
  { intros n.
    assert (n ∈ nodes ∖ {[0%Z]} <-> (1 <= n <= Z.of_nat m)%Z) as <-.
    { rewrite Hnum, elem_of_list_to_set, elem_of_seqZ. lia. }
    rewrite elem_of_difference, elem_of_singleton. reflexivity. }
  split; [|exact Hmem].
  assert (Hsize : size (nodes ∖ {[0%Z]}) = m).
  { rewrite Hnum, size_list_to_set by apply NoDup_seqZ.
    rewrite length_seqZ. lia. }
  unfold offset_step. destruct (decide (0%Z ∈ nodes)) as [Hg|Hg].
  - assert (nodes = {[0%Z]} ∪ nodes ∖ {[0%Z]}) as Hsplit.
    { apply set_eq. intros x. rewrite elem_of_union, elem_of_difference, elem_of_singleton.
      destruct (decide (x = 0%Z)) as [->|]; tauto. }
    rewrite Hsplit at 1.
    rewrite size_union, size_singleton, Hsize; [lia|].
    apply elem_of_disjoint. intros x H1 H2.
    apply elem_of_difference in H2 as [_ H2]. contradiction.
  - assert (nodes ∖ {[0%Z]} = nodes) as Hsame.
    { apply set_eq. intros x. rewrite elem_of_difference, elem_of_singleton.
      split; [tauto|]. intros Hx. split; [exact Hx|]. intros ->. contradiction. }
    rewrite Hsame in Hsize. rewrite Hsize. lia.
Qed.

Section numbered.
Variable nl : list (gset Z).
Hypothesis Hnum : Forall numbered_from_one nl.

Lemma numbered_lookup (k : nat) (nodes : gset Z) :
  nl !! k = Some nodes ->
  exists m : nat,
    offset_before nl (S k) = (offset_before nl k + Z.of_nat m)%Z
    /\ forall n, (n ∈ nodes /\ n <> 0%Z) <-> (1 <= n <= Z.of_nat m)%Z.
Proof using Hnum.
  intros Hk. rewrite Forall_lookup in Hnum.
  destruct (Hnum k nodes Hk) as [m Hm].
  apply numbered_nodes in Hm as [Hstep Hmem].
  exists m. split; [|exact Hmem].
  rewrite (offset_before_S nl k nodes Hk), Hstep. reflexivity.
Qed.

Lemma offset_before_step (k : nat) : (offset_before nl k <= offset_before nl (S k))%Z.
Proof using Hnum.
  destruct (nl !! k) as [nodes|] eqn:Hk.
  - destruct (numbered_lookup k nodes Hk) as (m & -> & _). lia.
  - apply lookup_ge_None in Hk.
    rewrite (offset_before_all nl k), (offset_before_all nl (S k)) by lia. lia.
Qed.

Lemma offset_before_mono (j k : nat) :
  (j <= k)%nat -> (offset_before nl j <= offset_before nl k)%Z.
Proof using Hnum.
  induction 1 as [|k _ IH]; [lia|].
  pose proof (offset_before_step k). lia.
Qed.

(** The composite index of a node that is not the ground node lies in the
    range of its subcircuit. *)
Lemma composite_index_range (k : nat) (nodes : gset Z) (n v : Z) :
  nl !! k = Some nodes ->
  subcircuit_node_index_dict nodes (0 + offset_before nl k) !! n = Some v ->
  (n = 0%Z /\ v = 0%Z)
  \/ (n <> 0%Z /\ v = (n + offset_before nl k)%Z
      /\ (offset_before nl k < v <= offset_before nl (S k))%Z).
Proof using Hnum.
  intros Hk. rewrite lookup_subcircuit_node_index_dict.
  destruct (decide (n ∈ nodes)) as [Hin|]; [|discriminate].
  destruct (decide (n = 0%Z)) as [->|Hn]; intros [= <-]; [left; auto|].
  right. destruct (numbered_lookup k nodes Hk) as (m & -> & Hmem).
  pose proof (proj1 (Hmem n) (conj Hin Hn)). lia.
Qed.

Lemma covered (v : Z) (k : nat) :
  (k <= length nl)%nat ->
  (0 < v <= offset_before nl k)%Z ->
  exists j nodes n,
    nl !! j = Some nodes
    /\ subcircuit_node_index_dict nodes (0 + offset_before nl j) !! n = Some v.
Proof using Hnum.
  induction k as [|k IH]; intros Hk Hv.
  - unfold offset_before in Hv. simpl in Hv. lia.
  - destruct (Z_le_gt_dec v (offset_before nl k)) as [Hle|Hgt].
    + apply IH; lia.
    + destruct (nl !! k) as [nodes|] eqn:Hnodes;
        [|apply lookup_ge_None in Hnodes; lia].
      destruct (numbered_lookup k nodes Hnodes) as (m & Hstep & Hmem).
      exists k, nodes, (v - offset_before nl k)%Z. split; [exact Hnodes|].
      rewrite lookup_subcircuit_node_index_dict.
      assert ((v - offset_before nl k)%Z ∈ nodes /\ (v - offset_before nl k)%Z <> 0%Z)
        as [Hin Hne] by (apply Hmem; lia).
      rewrite decide_True by exact Hin. rewrite decide_False by exact Hne.
      f_equal. lia.
Qed.

End numbered.

End assembled_nodes.

Section assembled_nodes_properties.
Import Assemble.

(** The dictionary that [assemble_circuit] returns for subcircuit [k] has
    exactly the nodes of the branches of that subcircuit as keys, so the
    two nodes of each of its branches are found in it; the ground node 0 is
    sent to 0 and every other node to its index plus the offset that the
    subcircuits before [k] have added. *)
Theorem assembled_node_dictionary (circuit_list : list (list YamlBranch))
    (k : nat) (subcircuit_branches : list YamlBranch) :
  circuit_list !! k = Some subcircuit_branches ->
  exists d,
    subcircuit_node_index_dict_list circuit_list !! k = Some d
    /\ (forall n,
          d !! n
          = if decide (n ∈ subcircuit_nodes subcircuit_branches)
            then Some (if decide (n = 0) then 0
                       else n + offset_before (map subcircuit_nodes circuit_list) k)%Z
            else None)
    /\ (forall branch, In branch subcircuit_branches ->
          is_Some (d !! node_1 branch) /\ is_Some (d !! node_2 branch)).
Proof.
  intros Hk. unfold subcircuit_node_index_dict_list.
  rewrite lookup_node_index_dicts, list_lookup_fmap, Hk. simpl.
  eexists. split; [reflexivity|].
  assert (Hlook : forall n,
            subcircuit_node_index_dict (subcircuit_nodes subcircuit_branches)
              (0 + offset_before (map subcircuit_nodes circuit_list) k) !! n
            = if decide (n ∈ subcircuit_nodes subcircuit_branches)
              then Some (if decide (n = 0) then 0
                         else n + offset_before (map subcircuit_nodes circuit_list) k)%Z
              else None).
  { intros n. rewrite lookup_subcircuit_node_index_dict, Z.add_0_l. reflexivity. }
  split; [exact Hlook|].
  intros branch Hin.
  assert (Hnodes : node_1 branch ∈ subcircuit_nodes subcircuit_branches
                   /\ node_2 branch ∈ subcircuit_nodes subcircuit_branches).
  { unfold subcircuit_nodes. rewrite !elem_of_list_to_set, !list_elem_of_In.
    split; apply in_flat_map; exists branch; simpl; auto. }
  destruct Hnodes as [H1 H2].
  rewrite !Hlook. rewrite (decide_True _ _ H1), (decide_True _ _ H2).
  split; eexists; reflexivity.
Qed.

Lemma assembled_node_dictionary_witness :
  exists d,
    subcircuit_node_index_dict_list
      [[mkYamlBranch [67%N] 0 1 []]; [mkYamlBranch [67%N] 0 1 []; mkYamlBranch [76%N] 1 2 []]]
      !! 1%nat = Some d
    /\ d !! 2%Z = Some 3%Z.
Proof.
  destruct (assembled_node_dictionary
              [[mkYamlBranch [67%N] 0 1 []];
               [mkYamlBranch [67%N] 0 1 []; mkYamlBranch [76%N] 1 2 []]]
              1 [mkYamlBranch [67%N] 0 1 []; mkYamlBranch [76%N] 1 2 []] eq_refl)
    as (d & Hd & Hlook & _).
  exists d. split; [exact Hd|]. rewrite Hlook. vm_compute. reflexivity.
Defined.

(** When the nodes of every subcircuit other than its ground node are
    numbered from 1 without a gap, the dictionaries number the nodes of the
    composite circuit from 1 without a gap: only a ground node is sent to
    0, two nodes of the subcircuits that are sent to the same index other
    than 0 are the same node of the same subcircuit, and every index from 1
    to the final offset is taken. *)
Theorem assembled_nodes_are_numbered_apart (circuit_list : list (list YamlBranch)) :
  Forall (fun subcircuit_branches =>
            numbered_from_one (subcircuit_nodes subcircuit_branches)) circuit_list ->
  let dicts := subcircuit_node_index_dict_list circuit_list in
  (forall k d n v, dicts !! k = Some d -> d !! n = Some v -> (v = 0 <-> n = 0)%Z)
  /\ (forall k k' d d' n n' v,
        dicts !! k = Some d -> dicts !! k' = Some d' ->
        d !! n = Some v -> d' !! n' = Some v -> v <> 0%Z ->
        k = k' /\ n = n')
  /\ (forall v,
        (1 <= v <= offset_before (map subcircuit_nodes circuit_list)
                                 (length circuit_list))%Z ->
        exists k d n, dicts !! k = Some d /\ d !! n = Some v).
Proof.
  intros Hnum. set (nl := map subcircuit_nodes circuit_list).
  assert (Hnl : Forall numbered_from_one nl).
  { unfold nl. apply Forall_fmap. exact Hnum. }
  assert (Hdict : forall k d,
            subcircuit_node_index_dict_list circuit_list !! k = Some d ->
            exists nodes, nl !! k = Some nodes
              /\ d = subcircuit_node_index_dict nodes (0 + offset_before nl k)).
  { intros k d. unfold subcircuit_node_index_dict_list.
    rewrite lookup_node_index_dicts. fold nl.
    destruct (nl !! k) as [nodes|]; [|discriminate].
    intros [= <-]. eauto. }
  cbv zeta. split; [|split].
  - intros k d n v Hd Hv. apply Hdict in Hd as (nodes & Hk & ->).
    destruct (composite_index_range nl Hnl k nodes n v Hk Hv)
      as [[-> ->] | (Hn & -> & Hrange)]; [tauto|].
    pose proof (offset_before_mono nl Hnl 0 k ltac:(lia)) as Hpos.
    unfold offset_before at 1 in Hpos. simpl in Hpos. lia.
  - intros k k' d d' n n' v Hd Hd' Hv Hv' Hnz.
    apply Hdict in Hd as (nodes & Hk & ->). apply Hdict in Hd' as (nodes' & Hk' & ->).
    destruct (composite_index_range nl Hnl k nodes n v Hk Hv)
      as [[_ ->] | (Hn & Hvn & Hrange)]; [congruence|].
    destruct (composite_index_range nl Hnl k' nodes' n' v Hk' Hv')
      as [[_ ->] | (Hn' & Hvn' & Hrange')]; [congruence|].
    assert (k = k') as <-.
    { destruct (Nat.lt_trichotomy k k') as [Hlt | [Heq | Hgt]]; [|exact Heq|].
      - pose proof (offset_before_mono nl Hnl (S k) k' ltac:(lia)). lia.
      - pose proof (offset_before_mono nl Hnl (S k') k ltac:(lia)). lia. }
    split; [reflexivity | lia].
  - intros v Hv.
    destruct (covered nl Hnl v (length nl)) as (j & nodes & n & Hj & Hlook).
    { lia. }
    { unfold nl at 2. rewrite length_map. lia. }
    exists j, (subcircuit_node_index_dict nodes (0 + offset_before nl j)), n.
    split; [|exact Hlook].
    unfold subcircuit_node_index_dict_list. rewrite lookup_node_index_dicts.
    fold nl. rewrite Hj. reflexivity.
Qed.

(** A grounded island and a grounded circuit of two nodes: the composite
    index 3 is taken. *)
Lemma assembled_nodes_are_numbered_apart_witness :
  Forall (fun subcircuit_branches =>
            numbered_from_one (subcircuit_nodes subcircuit_branches))
         [[mkYamlBranch [67%N] 0 1 []];
          [mkYamlBranch [67%N] 0 1 []; mkYamlBranch [76%N] 1 2 []]]
  /\ exists k d n,
       subcircuit_node_index_dict_list
         [[mkYamlBranch [67%N] 0 1 []];
          [mkYamlBranch [67%N] 0 1 []; mkYamlBranch [76%N] 1 2 []]] !! k = Some d
       /\ d !! n = Some 3%Z.
Proof.
  assert (Hnum : Forall (fun subcircuit_branches =>
                           numbered_from_one (subcircuit_nodes subcircuit_branches))
                   [[mkYamlBranch [67%N] 0 1 []];
                    [mkYamlBranch [67%N] 0 1 []; mkYamlBranch [76%N] 1 2 []]]).
  { repeat constructor.
    - exists 1%nat. vm_compute. reflexivity.
    - exists 2%nat. vm_compute. reflexivity. }
  split; [exact Hnum|].
  apply (assembled_nodes_are_numbered_apart _ Hnum). vm_compute. split; discriminate.
Defined.

End assembled_nodes_properties.

(** ** What a completed [configure] has stored *)

(** One step of a method body that has returned, for a property [I] that
    the step keeps: [I] holds in the state after the step. *)
Ltac keep_step Hrun I HI :=
  let s1 := fresh "s" in
  let Hstep := fresh "Hstep" in
  apply bind_returns in Hrun as (s1 & ? & Hstep & Hrun);
  eapply (maintains_run I) in Hstep;
  [ clear HI; rename Hstep into HI
  | circuit_maintains ltac:(simpl in *; auto; tauto)
  | exact HI ].

Section configure_results.
Context {Expr X : Type} (env : Circuit.Env Expr X).
Import Circuit.

(** Whether a hierarchy asks for hierarchical diagonalization. *)
Let asks_for_hd (sh : option RecursiveList) : bool :=
  match sh with
  | Some h => bool_decide (h ≠ []) && bool_decide (0 < number_of_lists_in_list h)%nat
  | None => false
  end.

Lemma configure_tail_returns wi sh td (s s' : t Expr X) u :
  configure_tail env wi sh td s = (s', inr u) ->
  hierarchical_diagonalization s = bool_decide (sh ≠ None) ->
  hierarchical_diagonalization s' = asks_for_hd sh
  /\ (if asks_for_hd sh
      then system_hierarchy s' = sh /\ subsystem_trunc_dims s' = td /\ is_Some td
      else system_hierarchy s' = system_hierarchy s
           /\ subsystem_trunc_dims s' = subsystem_trunc_dims s).
Proof.
  intros Hrun Hhd0. unfold configure_tail in Hrun.
  apply bind_returns in Hrun as (s1 & [] & Hstep1 & Hrun).
  assert (H1 : hierarchical_diagonalization s1 = asks_for_hd sh
               /\ system_hierarchy s1 = system_hierarchy s
               /\ subsystem_trunc_dims s1 = subsystem_trunc_dims s).
  { destruct sh as [h|].
    - apply modify_returns in Hstep1. subst s1. simpl. auto.
    - apply ret_returns in Hstep1 as [-> _]. rewrite Hhd0.
      split; [apply bool_decide_eq_false_2; auto | auto]. }
  clear Hstep1 Hhd0. destruct H1 as (Hhd & Hsh & Htd).
  apply bind_returns in Hrun as (? & self & Hget & Hrun).
  apply get_returns in Hget as [-> ->]. rewrite Hhd in Hrun.
  destruct (asks_for_hd sh) eqn:Hasks; simpl in Hrun.
  - apply bind_returns in Hrun as (s2 & [] & Hblock & Hrun).
    apply bind_returns in Hblock as (s3 & [] & Hm & Hblock).
    apply modify_returns in Hm.
    destruct td as [dims|]; [|discriminate].
    apply bind_returns in Hblock as (s4 & [] & Hm2 & Hblock).
    apply modify_returns in Hm2.
    set (I := fun x : t Expr X =>
                hierarchical_diagonalization x = true
                /\ system_hierarchy x = sh /\ subsystem_trunc_dims x = Some dims).
    assert (HI : I s4) by (subst s4 s3; unfold I; simpl; auto).
    clear Hm Hm2.
    eapply (maintains_run I) in Hblock;
      [|circuit_maintains ltac:(simpl in *; auto; tauto) | exact HI].
    eapply (maintains_run I) in Hrun;
      [|circuit_maintains ltac:(simpl in *; auto; tauto) | exact Hblock].
    destruct Hrun as (H1 & H2 & H3). split; [exact H1|]. repeat split; eauto.
  - apply bind_returns in Hrun as (s2 & [] & Hblock & Hrun).
    set (I := fun x : t Expr X =>
                hierarchical_diagonalization x = false
                /\ system_hierarchy x = system_hierarchy s
                /\ subsystem_trunc_dims x = subsystem_trunc_dims s).
    assert (HI : I s1) by (unfold I; auto).
    eapply (maintains_run I) in Hblock;
      [|circuit_maintains ltac:(simpl in *; auto; tauto) | exact HI].
    eapply (maintains_run I) in Hrun;
      [|circuit_maintains ltac:(simpl in *; auto; tauto) | exact Hblock].
    destruct Hrun as (H1 & H2 & H3). auto.
Qed.

Lemma configure_body_stores_hierarchy tm sh td cb (s s' : t Expr X) u :
  match symbolic_circuit s with
  | Some _ => _configure env tm sh td cb s = (s', inr u)
  | None => _configure_sym_hamiltonian env sh td s = (s', inr u)
  end ->
  let sh_eff := Py.py_or sh (system_hierarchy s) in
  let td_eff := Py.py_or td (subsystem_trunc_dims s) in
  hierarchical_diagonalization s' = asks_for_hd sh_eff
  /\ (if asks_for_hd sh_eff
      then system_hierarchy s' = sh_eff /\ subsystem_trunc_dims s' = td_eff
           /\ is_Some td_eff
      else system_hierarchy s' = system_hierarchy s
           /\ subsystem_trunc_dims s' = subsystem_trunc_dims s).
Proof.
  intros Hrun. cbv zeta.
  set (sh_eff := Py.py_or sh (system_hierarchy s)).
  set (td_eff := Py.py_or td (subsystem_trunc_dims s)).
  set (I := fun x : t Expr X =>
              hierarchical_diagonalization x = bool_decide (sh_eff ≠ None)
              /\ system_hierarchy x = system_hierarchy s
              /\ subsystem_trunc_dims x = subsystem_trunc_dims s).
  assert (Htail : forall wi s1,
            I s1 -> configure_tail env wi sh_eff td_eff s1 = (s', inr u) ->
            hierarchical_diagonalization s' = asks_for_hd sh_eff
            /\ (if asks_for_hd sh_eff
                then system_hierarchy s' = sh_eff /\ subsystem_trunc_dims s' = td_eff
                     /\ is_Some td_eff
                else system_hierarchy s' = system_hierarchy s
                     /\ subsystem_trunc_dims s' = subsystem_trunc_dims s)).
  { intros wi s1 (Hhd & Hsh & Htd) Htail.
    apply configure_tail_returns in Htail; [|exact Hhd].
    rewrite Hsh, Htd in Htail. exact Htail. }
  destruct (symbolic_circuit s).
  - unfold _configure in Hrun.
    apply bind_returns in Hrun as (? & self & Hget & Hrun).
    apply get_returns in Hget as [-> ->]. cbv zeta in Hrun.
    fold sh_eff td_eff in Hrun.
    apply bind_returns in Hrun as (s1 & [] & Hm & Hrun). apply modify_returns in Hm.
    assert (HI : I s1) by (subst s1; unfold I; simpl; auto). clear Hm.
    do 5 keep_step Hrun I HI.
    eapply Htail; eassumption.
  - unfold _configure_sym_hamiltonian in Hrun.
    apply bind_returns in Hrun as (? & self & Hget & Hrun).
    apply get_returns in Hget as [-> ->]. cbv zeta in Hrun.
    fold sh_eff td_eff in Hrun.
    apply bind_returns in Hrun as (s1 & [] & Hm & Hrun). apply modify_returns in Hm.
    assert (HI : I s1) by (subst s1; unfold I; simpl; auto). clear Hm.
    do 4 keep_step Hrun I HI.
    eapply Htail; eassumption.
Qed.

(** *** The ranges of the discretised variables *)

Lemma lookup_default_ranges (extended : list Z) (d : gmap Z (R * R)) (i : Z) :
  fold_left add_default_range extended d !! i
  = match d !! i with
    | Some r => Some r
    | None => if decide (i ∈ extended) then Some default_phi_range else None
    end.
Proof.
  revert d. induction extended as [|j extended IH]; intros d; simpl.
  - destruct (d !! i); [reflexivity|].
    destruct (decide (i ∈ [])) as [H|]; [inversion H | reflexivity].
  - rewrite IH. unfold add_default_range.
    destruct (d !! j) as [rj|] eqn:Hj.
    + destruct (d !! i) as [r|] eqn:Hi; [reflexivity|].
      destruct (decide (i ∈ extended)) as [Hin|Hnin].
      * rewrite decide_True by (right; exact Hin). reflexivity.
      * rewrite decide_False; [reflexivity|].
        intros H. apply elem_of_cons in H as [->|H]; [congruence | contradiction].
    + destruct (decide (i = j)) as [->|Hne].
      * rewrite lookup_insert_eq, Hj. rewrite decide_True by left. reflexivity.
      * rewrite lookup_insert_ne by congruence.
        destruct (d !! i) as [r|]; [reflexivity|].
        destruct (decide (i ∈ extended)) as [Hin|Hnin].
        -- rewrite decide_True by (right; exact Hin). reflexivity.
        -- rewrite decide_False; [reflexivity|].
           intros H. apply elem_of_cons in H as [->|H]; [congruence | contradiction].
Qed.

Lemma circuit_call_returns r (s s' : t Expr X) u :
  call env r s = (s', inr u) -> exists x, s' = upd_routines_state x s.
Proof.
  unfold call. destruct (call_routine env r s) as [x []]; [discriminate|].
  intros [= <- _]. eauto.
Qed.

Lemma init_properties_and_ranges_returns (s s' : t Expr X) u :
  init_properties_and_ranges env s = (s', inr u) ->
  exists extended,
    lookup_category "extended" (var_categories s) = Some extended
    /\ var_categories s' = var_categories s
    /\ var_index_list s' = all_indices (var_categories s)
    /\ discretized_phi_range s'
       = fold_left add_default_range extended (discretized_phi_range s).
Proof.
  intros Hrun. unfold init_properties_and_ranges in Hrun.
  set (vc := var_categories s) in *. set (d := discretized_phi_range s) in *.
  set (I0 := fun x : t Expr X => var_categories x = vc /\ discretized_phi_range x = d).
  assert (HI : I0 s) by (unfold I0; auto).
  keep_step Hrun I0 HI.
  apply bind_returns in Hrun as (s2 & [] & Hm & Hrun). apply modify_returns in Hm.
  set (I1 := fun x : t Expr X =>
               var_categories x = vc /\ discretized_phi_range x = d
               /\ var_index_list x = all_indices vc).
  assert (HI1 : I1 s2).
  { destruct HI as [Hvc Hd]. subst s2. unfold I1. simpl. rewrite Hvc. auto. }
  clear Hm HI.
  keep_step Hrun I1 HI1.
  apply bind_returns in Hrun as (s4 & [] & Hranges & Hrun).
  unfold default_phi_ranges in Hranges.
  apply bind_returns in Hranges as (? & self & Hget & Hranges).
  apply get_returns in Hget as [-> ->].
  destruct HI1 as (Hvc & Hd & Hvil). rewrite Hvc in Hranges.
  destruct (lookup_category "extended" vc) as [extended|] eqn:Hext; [|discriminate].
  apply modify_returns in Hranges. rewrite Hd in Hranges.
  exists extended. split; [reflexivity|].
  set (I2 := fun x : t Expr X =>
               var_categories x = vc
               /\ var_index_list x = all_indices vc
               /\ discretized_phi_range x = fold_left add_default_range extended d).
  assert (HI2 : I2 s4) by (subst s4; unfold I2; simpl; auto).
  clear Hranges.
  do 3 keep_step Hrun I2 HI2.
  eapply (maintains_run I2) in Hrun;
    [|circuit_maintains ltac:(simpl in *; auto; tauto) | exact HI2].
  exact Hrun.
Qed.

Lemma configure_body_completes_ranges tm sh td cb (s s' : t Expr X) u :
  match symbolic_circuit s with
  | Some _ => _configure env tm sh td cb s = (s', inr u)
  | None => _configure_sym_hamiltonian env sh td s = (s', inr u)
  end ->
  exists extended,
    lookup_category "extended" (var_categories s') = Some extended
    /\ var_index_list s' = all_indices (var_categories s')
    /\ discretized_phi_range s'
       = fold_left add_default_range extended (discretized_phi_range s).
Proof.
  intros Hrun.
  set (d := discretized_phi_range s) in *.
  set (I := fun x : t Expr X => discretized_phi_range x = d).
  assert (Hrest : forall s3 s4 (rest : Py.M (t Expr X) unit) u3,
            I s3 -> init_properties_and_ranges env s3 = (s4, inr u3) ->
            rest s4 = (s', inr u) ->
            Py.maintains (fun x : t Expr X =>
                            var_categories x = var_categories s4
                            /\ var_index_list x = var_index_list s4
                            /\ discretized_phi_range x = discretized_phi_range s4) rest ->
            exists extended,
              lookup_category "extended" (var_categories s') = Some extended
              /\ var_index_list s' = all_indices (var_categories s')
              /\ discretized_phi_range s' = fold_left add_default_range extended d).
  { intros s3 s4 rest u3 HI3 Hinit Hrest Hkeep.
    apply init_properties_and_ranges_returns in Hinit
      as (extended & Hext & Hvc & Hvil & Hd).
    apply (maintains_run _ _ _ _ _ Hkeep) in Hrest; [|auto].
    destruct Hrest as (Hvc' & Hvil' & Hd').
    exists extended. rewrite Hvc', Hvil', Hd', Hvc, Hvil, Hd, HI3. auto. }
  destruct (symbolic_circuit s).
  - unfold _configure in Hrun.
    apply bind_returns in Hrun as (? & self & Hget & Hrun).
    apply get_returns in Hget as [-> ->]. cbv zeta in Hrun.
    assert (HI : I s) by reflexivity.
    do 4 keep_step Hrun I HI.
    apply bind_returns in Hrun as (s5 & u3 & Hinit & Hrun).
    eapply Hrest; [exact HI | exact Hinit | exact Hrun |].
    generalize (var_categories s5) (var_index_list s5) (discretized_phi_range s5).
    intros c l r.
    circuit_maintains ltac:(simpl in *; auto; tauto).
  - unfold _configure_sym_hamiltonian in Hrun.
    apply bind_returns in Hrun as (? & self & Hget & Hrun).
    apply get_returns in Hget as [-> ->]. cbv zeta in Hrun.
    assert (HI : I s) by reflexivity.
    do 4 keep_step Hrun I HI.
    apply bind_returns in Hrun as (s5 & u3 & Hinit & Hrun).
    eapply Hrest; [exact HI | exact Hinit | exact Hrun |].
    generalize (var_categories s5) (var_index_list s5) (discretized_phi_range s5).
    intros c l r.
    circuit_maintains ltac:(simpl in *; auto; tauto).
Qed.

(** *** [set_discretized_phi_range] that returns *)

Lemma phi_range_loop_returns phi_range (var_indices : list Z) (s s1 : t Expr X) u :
  Py.for_each var_indices (set_discretized_phi_range_one phi_range) s = (s1, inr u) ->
  Forall (fun i => exists extended,
            lookup_category "extended" (var_categories s) = Some extended
            /\ i ∈ extended) var_indices
  /\ s1 = upd_discretized_phi_range (discretized_phi_range s1) s
  /\ forall i, discretized_phi_range s1 !! i
       = if decide (i ∈ var_indices) then Some phi_range
         else discretized_phi_range s !! i.
Proof.
  revert s. induction var_indices as [|j l IH]; intros s Hrun.
  - apply ret_returns in Hrun as [-> _]. split; [constructor|].
    split; [destruct s; reflexivity|].
    intros i. destruct (decide (i ∈ [])) as [H|]; [inversion H | reflexivity].
  - simpl in Hrun. apply bind_returns in Hrun as (s2 & [] & Hone & Hrun).
    unfold set_discretized_phi_range_one in Hone.
    apply bind_returns in Hone as (? & self & Hget & Hone).
    apply get_returns in Hget as [-> ->].
    destruct (lookup_category "extended" (var_categories s)) as [extended|] eqn:Hext;
      [|discriminate].
    destruct (decide (j ∈ extended)) as [Hj|]; [|discriminate].
    apply modify_returns in Hone.
    apply IH in Hrun as (Hall & Hstate & Hlook).
    assert (Hvc : var_categories s2 = var_categories s) by (subst s2; reflexivity).
    assert (Hd : discretized_phi_range s2 = <[j := phi_range]> (discretized_phi_range s))
      by (subst s2; reflexivity).
    split; [|split].
    + constructor; [eauto|]. rewrite Hvc, Hext in Hall. exact Hall.
    + rewrite Hstate at 1. subst s2. reflexivity.
    + intros i. rewrite Hlook, Hd.
      destruct (decide (i ∈ l)) as [Hin|Hnin].
      * rewrite decide_True by (right; exact Hin). reflexivity.
      * destruct (decide (i = j)) as [->|Hne].
        -- rewrite decide_True by left. apply lookup_insert_eq.
        -- rewrite decide_False
             by (intros H; apply elem_of_cons in H as [?|?]; contradiction).
           apply lookup_insert_ne. congruence.
Qed.

End configure_results.

Section configure_properties.
Context {Expr X : Type}.

(** After a [configure] that returned, hierarchical diagonalization is on
    exactly when the hierarchy in force (the argument, or the stored one
    when the argument is [None] or empty) is not empty and has an entry
    that is a list. If it is on, the hierarchy and the truncation in force
    are the stored ones; if it is off, the stored hierarchy and truncation
    are those from before the call, whatever was passed. *)
Theorem configure_stores_what_is_in_force (env : Circuit.Env Expr X)
    tm sh td cb (s s' : Circuit.t Expr X) u :
  Circuit.configure env tm sh td cb s = (s', inr u) ->
  let in_force := Py.py_or sh (Circuit.system_hierarchy s) in
  let dims_in_force := Py.py_or td (Circuit.subsystem_trunc_dims s) in
  (Circuit.hierarchical_diagonalization s' = true <-> Circuit.requires_hd in_force)
  /\ (Circuit.hierarchical_diagonalization s' = true ->
      Circuit.system_hierarchy s' = in_force
      /\ Circuit.subsystem_trunc_dims s' = dims_in_force
      /\ is_Some dims_in_force)
  /\ (Circuit.hierarchical_diagonalization s' = false ->
      Circuit.system_hierarchy s' = Circuit.system_hierarchy s
      /\ Circuit.subsystem_trunc_dims s' = Circuit.subsystem_trunc_dims s).
Proof.
  intros Hrun. apply configure_returns_from_body in Hrun.
  apply configure_body_stores_hierarchy in Hrun. cbv zeta in *.
  destruct Hrun as [Hhd Hstored]. rewrite Hhd.
  set (in_force := Py.py_or sh (Circuit.system_hierarchy s)) in *.
  assert (Hasks :
    match in_force with
    | Some h => bool_decide (h ≠ []) && bool_decide (0 < number_of_lists_in_list h)%nat
    | None => false
    end = true <-> Circuit.requires_hd in_force).
  { unfold Circuit.requires_hd. destruct in_force as [h|].
    - rewrite andb_true_iff, !bool_decide_eq_true. split.
      + intros [H1 H2]. eauto.
      + intros (h' & [= <-] & H1 & H2). auto.
    - split; [discriminate|]. intros (h' & Heq & _). discriminate. }
  split; [exact Hasks|].
  destruct (match in_force with Some _ => _ | None => _ end).
  - split; [intros _; exact Hstored | discriminate].
  - split; [discriminate | intros _; exact Hstored].
Qed.

(** Hierarchical diagonalization cannot be switched off by passing no
    hierarchy or an empty one: on an instance whose stored hierarchy asks
    for it, such a call that returns leaves it on and the stored hierarchy
    as it was. *)
Theorem empty_hierarchy_keeps_hierarchical_diagonalization (env : Circuit.Env Expr X)
    tm sh td cb (s s' : Circuit.t Expr X) u :
  Py.truthy sh = false ->
  Circuit.requires_hd (Circuit.system_hierarchy s) ->
  Circuit.configure env tm sh td cb s = (s', inr u) ->
  Circuit.hierarchical_diagonalization s' = true
  /\ Circuit.system_hierarchy s' = Circuit.system_hierarchy s.
Proof.
  intros Hfalsy (h & Hstored & Hne & Hlists) Hrun.
  apply configure_returns_from_body in Hrun.
  apply configure_body_stores_hierarchy in Hrun. cbv zeta in Hrun.
  unfold Py.py_or in Hrun at 1 2 3. rewrite Hfalsy, Hstored in Hrun.
  rewrite !bool_decide_eq_true_2 in Hrun by assumption. simpl in Hrun.
  destruct Hrun as (Hhd & Hsh & _). rewrite Hstored. auto.
Qed.

(** After a [configure] that returned, [var_index_list] lists the indices
    of all categories, and every extended variable has a range for the
    discretised basis: a range stored before the call is kept, and an
    extended variable without one has received the default range. *)
Theorem configure_completes_the_phi_ranges (env : Circuit.Env Expr X)
    tm sh td cb (s s' : Circuit.t Expr X) u :
  Circuit.configure env tm sh td cb s = (s', inr u) ->
  exists extended,
    lookup_category "extended" (Circuit.var_categories s') = Some extended
    /\ Circuit.var_index_list s' = all_indices (Circuit.var_categories s')
    /\ forall i,
         Circuit.discretized_phi_range s' !! i
         = match Circuit.discretized_phi_range s !! i with
           | Some r => Some r
           | None => if decide (i ∈ extended) then Some Circuit.default_phi_range
                     else None
           end.
Proof.
  intros Hrun. apply configure_returns_from_body in Hrun.
  apply configure_body_completes_ranges in Hrun as (extended & Hext & Hvil & Hd).
  exists extended. split; [exact Hext|]. split; [exact Hvil|].
  intros i. rewrite Hd. apply lookup_default_ranges.
Qed.

(** A [set_discretized_phi_range] that returned was called in the
    discretised basis with indices of extended variables only; it has
    stored the new range for exactly these indices and has changed nothing
    else but what regenerating the operators changes. *)
Theorem set_discretized_phi_range_stores_the_range (env : Circuit.Env Expr X)
    var_indices phi_range (s s' : Circuit.t Expr X) u :
  Circuit.set_discretized_phi_range env var_indices phi_range s = (s', inr u) ->
  Circuit.ext_basis s = discretized
  /\ Forall (fun i => exists extended,
               lookup_category "extended" (Circuit.var_categories s) = Some extended
               /\ i ∈ extended) var_indices
  /\ (forall i,
        Circuit.discretized_phi_range s' !! i
        = if decide (i ∈ var_indices) then Some phi_range
          else Circuit.discretized_phi_range s !! i)
  /\ exists x,
       s' = Circuit.upd_routines_state x
              (Circuit.upd_discretized_phi_range (Circuit.discretized_phi_range s') s).
Proof.
  intros Hrun. unfold Circuit.set_discretized_phi_range in Hrun.
  apply bind_returns in Hrun as (? & self & Hget & Hrun).
  apply get_returns in Hget as [-> ->].
  destruct (bool_decide (Circuit.ext_basis s ≠ discretized)) eqn:Hbasis; [discriminate|].
  apply bool_decide_eq_false in Hbasis.
  apply bind_returns in Hrun as (s1 & [] & Hloop & Hcall).
  apply phi_range_loop_returns in Hloop as (Hall & Hstate & Hlook).
  apply circuit_call_returns in Hcall as (x & ->).
  split; [destruct (Circuit.ext_basis s); [reflexivity | exfalso; apply Hbasis; discriminate]|].
  split; [exact Hall|]. split; [exact Hlook|].
  exists x. simpl. rewrite Hstate at 1. reflexivity.
Qed.


End configure_properties.

(** ** What a subsystem takes over from its parent *)

Section subsystem_results.
Context {Expr X : Type} (env : Subsystem.Env Expr X).
Import Subsystem.

Lemma NoDup_fold_add_var_index (names : list pystr) (acc : list Z) :
  NoDup acc -> NoDup (fold_left (add_var_index env) names acc).
Proof.
  revert acc. induction names as [|name names IH]; intros acc Hacc; [exact Hacc|].
  simpl. apply IH. unfold add_var_index.
  destruct (get_trailing_number (unicode_decimal env) name) as [j|]; [|exact Hacc].
  destruct (decide (j ∈ acc)) as [Hin|Hnin]; [exact Hacc|].
  apply NoDup_app. split; [exact Hacc|]. split.
  - intros x Hx Hx'. apply list_elem_of_singleton in Hx'. subst. contradiction.
  - apply NoDup_singleton.
Qed.

Lemma strictly_sorted (l : list Z) :
  StronglySorted Z.le l -> NoDup l -> StronglySorted Z.lt l.
Proof.
  induction 1 as [|x l Hs IH Hall]; intros Hnd; [constructor|].
  apply NoDup_cons in Hnd as [Hx Hnd].
  constructor; [apply IH; exact Hnd|].
  rewrite Forall_forall in Hall |- *. intros y Hy.
  pose proof (Hall y Hy). assert (x <> y) by (intros ->; contradiction). lia.
Qed.

Lemma collect_var_indices_sorted (names : list pystr) :
  StronglySorted Z.lt (collect_var_indices env names).
Proof.
  unfold collect_var_indices. apply strictly_sorted.
  - apply StronglySorted_merge_sort; apply _.
  - rewrite merge_sort_Permutation.
    apply NoDup_fold_add_var_index. constructor.
Qed.

Lemma elem_of_make_cutoff_names (d : categories) :
  forall i,
    (cutoff_n i ∈ make_cutoff_names d
     <-> i ∈ default [] (lookup_category "periodic" d))
    /\ (cutoff_ext i ∈ make_cutoff_names d
        <-> i ∈ default [] (lookup_category "extended" d)).
Proof.
  intros i. unfold make_cutoff_names.
  set (per := default [] (lookup_category "periodic" d)).
  set (ext := default [] (lookup_category "extended" d)).
  assert (Hkey : forall key, (exists kv, kv ∈ d /\ String.eqb kv.1 key = true)
                             \/ lookup_category key d = None).
  { intros key. induction d as [|[k v] d' IH]; [right; reflexivity|].
    simpl. destruct (String.eqb k key) eqn:Hk.
    - left. exists (k, v). split; [left | exact Hk].
    - destruct IH as [(kv & Hin & Heq) | Hnone]; [|right; exact Hnone].
      left. exists kv. split; [right; exact Hin | exact Heq]. }
  split; rewrite list_elem_of_In, in_flat_map; split.
  - intros (kv & _ & Hin). apply in_app_or in Hin as [Hin | Hin].
    + destruct (String.eqb kv.1 "periodic"); [|destruct Hin].
      apply in_map_iff in Hin as (j & [= <-] & Hj). apply list_elem_of_In. exact Hj.
    + destruct (String.eqb kv.1 "extended"); [|destruct Hin].
      apply in_map_iff in Hin as (j & Heq & _). discriminate.
  - intros Hi. destruct (Hkey "periodic") as [(kv & Hin & Heq) | Hnone].
    + exists kv. split; [apply list_elem_of_In; exact Hin|].
      apply in_or_app. left. rewrite Heq. apply in_map, list_elem_of_In. exact Hi.
    + exfalso. unfold per in Hi. rewrite Hnone in Hi. inversion Hi.
  - intros (kv & _ & Hin). apply in_app_or in Hin as [Hin | Hin].
    + destruct (String.eqb kv.1 "periodic"); [|destruct Hin].
      apply in_map_iff in Hin as (j & Heq & _). discriminate.
    + destruct (String.eqb kv.1 "extended"); [|destruct Hin].
      apply in_map_iff in Hin as (j & [= <-] & Hj). apply list_elem_of_In. exact Hj.
  - intros Hi. destruct (Hkey "extended") as [(kv & Hin & Heq) | Hnone].
    + exists kv. split; [apply list_elem_of_In; exact Hin|].
      apply in_or_app. right. rewrite Heq. apply in_map, list_elem_of_In. exact Hi.
    + exfalso. unfold ext in Hi. rewrite Hnone in Hi. inversion Hi.
Qed.

End subsystem_results.

Section subsystem_properties.
Context {Expr X : Type}.

(** The variable indices of a constructed subsystem are in strictly
    increasing order, so none is listed twice. *)
Theorem subsystem_indices_are_strictly_sorted (env : Subsystem.Env Expr X)
    parent H sh td dim self :
  Subsystem.__init__ env parent H sh td dim = inr self ->
  StronglySorted Z.lt (Subsystem.var_index_list self)
  /\ NoDup (Subsystem.var_index_list self).
Proof.
  intros Hinit. apply __init___returns in Hinit as (hierarchy & u & -> & Hrun).
  rewrite (__init___frame env Subsystem.var_index_list _ _ _ _ _ _ _
             ltac:(reflexivity) ltac:(reflexivity) ltac:(reflexivity) Hrun).
  simpl.
  pose proof (collect_var_indices_sorted env
                (Subsystem.operator_names_in_hamiltonian_symbolic env H)) as Hs.
  split; [exact Hs|].
  clear Hrun. induction Hs as [|x l _ IH Hall]; [constructor|].
  apply NoDup_cons. split; [|exact IH].
  intros Hx. rewrite Forall_forall in Hall. specialize (Hall x Hx). lia.
Qed.

(** A constructed subsystem has one cutoff for each of its periodic and
    each of its extended variables and no other, and for each of its
    variables the range of the discretised basis that the parent has for
    it, and no other range. *)
Theorem subsystem_takes_over_cutoffs_and_ranges (env : Subsystem.Env Expr X)
    parent H sh td dim self :
  Subsystem.__init__ env parent H sh td dim = inr self ->
  (forall i,
     (Subsystem.cutoff_n i ∈ Subsystem.cutoff_names self
      <-> i ∈ default [] (lookup_category "periodic" (Subsystem.var_categories self)))
     /\ (Subsystem.cutoff_ext i ∈ Subsystem.cutoff_names self
         <-> i ∈ default [] (lookup_category "extended" (Subsystem.var_categories self))))
  /\ (forall i r,
        Subsystem.discretized_phi_range self !! i = Some r
        <-> i ∈ Subsystem.var_index_list self
            /\ Subsystem.parent_discretized_phi_range parent !! i = Some r).
Proof.
  intros Hinit. apply __init___returns in Hinit as (hierarchy & u & -> & Hrun).
  rewrite (__init___frame env Subsystem.cutoff_names _ _ _ _ _ _ _
             ltac:(reflexivity) ltac:(reflexivity) ltac:(reflexivity) Hrun).
  rewrite (__init___frame env Subsystem.var_categories _ _ _ _ _ _ _
             ltac:(reflexivity) ltac:(reflexivity) ltac:(reflexivity) Hrun).
  rewrite (__init___frame env Subsystem.discretized_phi_range _ _ _ _ _ _ _
             ltac:(reflexivity) ltac:(reflexivity) ltac:(reflexivity) Hrun).
  rewrite (__init___frame env Subsystem.var_index_list _ _ _ _ _ _ _
             ltac:(reflexivity) ltac:(reflexivity) ltac:(reflexivity) Hrun).
  simpl. split.
  - intros i. apply elem_of_make_cutoff_names.
  - intros i r. rewrite map_lookup_filter_Some. simpl. tauto.
Qed.

End subsystem_properties.

(** ** Reading a symbolic Hamiltonian, finding a stored branch *)

Section circuit_reading.
Context {Expr X : Type} (env : Circuit.Env Expr X).
Import Circuit.

Lemma lookup_append_category (key key' : string) (i : Z) (d : categories) :
  lookup_category key' (append_category key i d)
  = if String.eqb key' key then (fun l => l ++ [i]) <$> lookup_category key' d
    else lookup_category key' d.
Proof.
  induction d as [|[k v] d IH]; simpl.
  - destruct (String.eqb key' key); reflexivity.
  - destruct (String.eqb k key) eqn:Hk; simpl.
    + apply String.eqb_eq in Hk. subst k.
      destruct (String.eqb key key') eqn:Hkk.
      * apply String.eqb_eq in Hkk. subst key'. rewrite String.eqb_refl. reflexivity.
      * rewrite IH. reflexivity.
    + destruct (String.eqb k key') eqn:Hkk; [|exact IH].
      apply String.eqb_eq in Hkk. subst key'. rewrite Hk. reflexivity.
Qed.

(** What one symbol adds to the categories. *)
Lemma lookup_read_symbol (d : categories) (name : pystr) (key : string) :
  lookup_category key (read_symbol env d name)
  = match get_trailing_number (unicode_decimal env) name with
    | Some i =>
        if (String.eqb key "periodic" && matches_indexed env [110%N] name)
           || (String.eqb key "extended" && matches_indexed env [81%N] name)
        then (fun l => l ++ [i]) <$> lookup_category key d
        else lookup_category key d
    | None => lookup_category key d
    end.
Proof.
  unfold read_symbol.
  destruct (get_trailing_number (unicode_decimal env) name) as [i|]; [|reflexivity].
  destruct (matches_indexed env [81%N] name) eqn:HQ;
    destruct (matches_indexed env [110%N] name) eqn:Hn;
    rewrite ?lookup_append_category;
    destruct (String.eqb key "extended") eqn:He;
    destruct (String.eqb key "periodic") eqn:Hp;
    try reflexivity; simpl.
  all: apply String.eqb_eq in He; apply String.eqb_eq in Hp; congruence.
Qed.

Lemma lookup_read_symbols (names : list pystr) (d : categories) (key : string) (l : list Z) :
  lookup_category key d = Some l ->
  exists added,
    lookup_category key (fold_left (read_symbol env) names d) = Some (l ++ added)
    /\ forall i,
         i ∈ added
         <-> exists name,
               name ∈ names
               /\ get_trailing_number (unicode_decimal env) name = Some i
               /\ ((String.eqb key "periodic" && matches_indexed env [110%N] name)
                   || (String.eqb key "extended" && matches_indexed env [81%N] name))
                  = true.
Proof.
  revert d l. induction names as [|name names IH]; intros d l Hd.
  - exists []. rewrite app_nil_r. split; [exact Hd|].
    intros i. split; [intros H; inversion H | intros (n & H & _); inversion H].
  - simpl.
    pose proof (lookup_read_symbol d name key) as Hone. rewrite Hd in Hone.
    destruct (get_trailing_number (unicode_decimal env) name) as [j|] eqn:Hj.
    + destruct ((String.eqb key "periodic" && matches_indexed env [110%N] name)
                || (String.eqb key "extended" && matches_indexed env [81%N] name))
        eqn:Hm; simpl in Hone.
      * destruct (IH _ _ Hone) as (added & Hlook & Hmem).
        exists (j :: added). split.
        { rewrite Hlook, <- app_assoc. reflexivity. }
        intros i. rewrite elem_of_cons, Hmem. split.
        -- intros [-> | (n & Hn & Hg & Hb)].
           ++ exists name. split; [left|]. auto.
           ++ exists n. split; [right; exact Hn|]. auto.
        -- intros (n & Hn & Hg & Hb). apply elem_of_cons in Hn as [-> | Hn].
           ++ left. congruence.
           ++ right. eauto.
      * destruct (IH _ _ Hone) as (added & Hlook & Hmem).
        exists added. split; [exact Hlook|].
        intros i. rewrite Hmem. split.
        -- intros (n & Hn & Hg & Hb). exists n. split; [right; exact Hn|]. auto.
        -- intros (n & Hn & Hg & Hb). apply elem_of_cons in Hn as [-> | Hn]; [|eauto].
           congruence.
    + destruct (IH _ _ Hone) as (added & Hlook & Hmem).
      exists added. split; [exact Hlook|].
      intros i. rewrite Hmem. split.
      * intros (n & Hn & Hg & Hb). exists n. split; [right; exact Hn|]. auto.
      * intros (n & Hn & Hg & Hb). apply elem_of_cons in Hn as [-> | Hn]; [|eauto].
        congruence.
Qed.

Lemma offset_charge_name_is_not_indexed (rest : pystr) :
  unicode_decimal env 103%N = None ->
  matches_indexed env [110%N] (110%N :: 103%N :: rest) = false.
Proof.
  intros Hg. unfold matches_indexed. simpl. unfold digits_to_end.
  assert (is_digit (unicode_decimal env) 103%N = false) as Hd
    by (unfold is_digit; rewrite Hg; reflexivity).
  simpl. rewrite Hd. simpl.
  destruct (rev rest ++ [103%N]) as [|c r] eqn:Hrev; [reflexivity|].
  destruct r as [|c' r']; [reflexivity|].
  destruct (N.eqb_spec c LF) as [Hc|]; [|reflexivity]. simpl.
  change (forallb (is_digit (unicode_decimal env)) (c' :: r') = false).
  apply not_true_iff_false. intros Hall. rewrite forallb_forall in Hall.
  assert (In 103%N (c' :: r')) as Hin.
  { assert (In 103%N (c :: c' :: r')) as [Heq | H]
      by (rewrite <- Hrev; apply in_or_app; right; left; reflexivity);
      [|exact H].
    subst c. discriminate. }
  specialize (Hall _ Hin). congruence.
Qed.

Lemma dict_eqb_refl (a : list (string * StoredParam)) :
  NoDup (map fst a) -> dict_eqb a a = true.
Proof.
  intros Hnd. unfold dict_eqb.
  assert (H : forallb (fun kv => bool_decide (lookup_param kv.1 a = Some kv.2)) a = true).
  { apply forallb_forall. intros [k v] Hin. apply bool_decide_eq_true. simpl.
    induction a as [|[k' v'] a IH]; [destruct Hin|].
    simpl in Hnd. apply NoDup_cons in Hnd as [Hk' Hnd]. simpl.
    destruct Hin as [[= -> ->] | Hin].
    - rewrite String.eqb_refl. reflexivity.
    - destruct (String.eqb k' k) eqn:Hk; [|apply IH; assumption].
      apply String.eqb_eq in Hk. subst k'. exfalso. apply Hk'.
      apply list_elem_of_In, in_map_iff. exists (k, v). auto. }
  rewrite H. reflexivity.
Qed.

End circuit_reading.

Section circuit_reading_properties.
Context {Expr X : Type}.

(** [_read_symbolic_hamiltonian] lists under [periodic] the trailing
    numbers of the symbols named [n<digits>] and under [extended] those of
    the symbols named [Q<digits>], and leaves [free] and [frozen] empty. The
    name of an offset charge, [ng<digits>], is not taken for a periodic
    variable. *)
Theorem symbolic_hamiltonian_is_read_by_names (env : Circuit.Env Expr X)
    (symbolic_hamiltonian : Expr) :
  let var_categories := Circuit._read_symbolic_hamiltonian env symbolic_hamiltonian in
  (exists periodic extended,
     lookup_category "periodic" var_categories = Some periodic
     /\ lookup_category "extended" var_categories = Some extended
     /\ (forall i,
           i ∈ periodic
           <-> exists name,
                 name ∈ Circuit.free_symbols env symbolic_hamiltonian
                 /\ Circuit.matches_indexed env [110%N] name = true
                 /\ get_trailing_number (Circuit.unicode_decimal env) name = Some i)
     /\ (forall i,
           i ∈ extended
           <-> exists name,
                 name ∈ Circuit.free_symbols env symbolic_hamiltonian
                 /\ Circuit.matches_indexed env [81%N] name = true
                 /\ get_trailing_number (Circuit.unicode_decimal env) name = Some i))
  /\ lookup_category "free" var_categories = Some []
  /\ lookup_category "frozen" var_categories = Some []
  /\ (Circuit.unicode_decimal env 103%N = None ->
      forall rest, Circuit.matches_indexed env [110%N] (110%N :: 103%N :: rest) = false).
Proof.
  cbv zeta. unfold Circuit._read_symbolic_hamiltonian.
  set (names := Circuit.free_symbols env symbolic_hamiltonian).
  set (d0 := [("periodic", []); ("extended", []); ("free", []); ("frozen", [])]
             : categories).
  destruct (lookup_read_symbols env names d0 "periodic" [] eq_refl)
    as (periodic & Hp & Hpm).
  destruct (lookup_read_symbols env names d0 "extended" [] eq_refl)
    as (extended & He & Hem).
  destruct (lookup_read_symbols env names d0 "free" [] eq_refl)
    as (free & Hf & Hfm).
  destruct (lookup_read_symbols env names d0 "frozen" [] eq_refl)
    as (frozen & Hz & Hzm).
  simpl in Hp, He, Hf, Hz.
  split; [|split; [|split]].
  - exists periodic, extended. split; [exact Hp|]. split; [exact He|]. split.
    + intros i. rewrite Hpm. simpl. split.
      * intros (n & Hn & Hg & Hb). rewrite orb_false_r in Hb. eauto.
      * intros (n & Hn & Hb & Hg). exists n. rewrite orb_false_r. auto.
    + intros i. rewrite Hem. simpl. split.
      * intros (n & Hn & Hg & Hb). eauto.
      * intros (n & Hn & Hb & Hg). exists n. auto.
  - rewrite Hf. f_equal. destruct free as [|i free]; [reflexivity|].
    exfalso. destruct (proj1 (Hfm i) ltac:(left)) as (n & _ & _ & Hb). discriminate.
  - rewrite Hz. f_equal. destruct frozen as [|i frozen]; [reflexivity|].
    exfalso. destruct (proj1 (Hzm i) ltac:(left)) as (n & _ & _ & Hb). discriminate.
  - intros Hg rest. apply offset_charge_name_is_not_indexed. exact Hg.
Qed.

(** The lookup that [deserialize] makes with the stored data of a branch
    finds a branch: for a branch of the circuit, [_find_branch] applied to
    its data as [dict_for_serialization] stores them returns a branch of
    the circuit of the same type and with the same parameters whose nodes
    include the two stored nodes. It returns the branch itself when no
    other branch of the circuit fits these data. *)
Theorem find_branch_recovers_a_stored_branch (self : Circuit.t Expr X)
    (sc : Circuit.SymbolicCircuit Expr) (branch : Circuit.Branch) :
  Circuit.symbolic_circuit self = Some sc ->
  In branch (Circuit.branches sc) ->
  NoDup (map fst (Circuit.parameters branch)) ->
  exists found,
    Circuit._find_branch self (Circuit.branch_data branch) = Some found
    /\ In found (Circuit.branches sc)
    /\ Circuit.branch_type found = Circuit.branch_type branch
    /\ Circuit.dict_eqb (Circuit.stored_params (Circuit.parameters branch))
                        (Circuit.stored_params (Circuit.parameters found)) = true
    /\ (Circuit.branch_nodes branch).1
         ∈ [(Circuit.branch_nodes found).1; (Circuit.branch_nodes found).2]
    /\ (Circuit.branch_nodes branch).2
         ∈ [(Circuit.branch_nodes found).1; (Circuit.branch_nodes found).2]
    /\ ((forall other,
           In other (Circuit.branches sc) ->
           Circuit.branch_type other = Circuit.branch_type branch ->
           Circuit.dict_eqb (Circuit.stored_params (Circuit.parameters branch))
                            (Circuit.stored_params (Circuit.parameters other)) = true ->
           (Circuit.branch_nodes branch).1
             ∈ [(Circuit.branch_nodes other).1; (Circuit.branch_nodes other).2] ->
           (Circuit.branch_nodes branch).2
             ∈ [(Circuit.branch_nodes other).1; (Circuit.branch_nodes other).2] ->
           other = branch) ->
        found = branch).
Proof.
  intros Hsc Hin Hnd. unfold Circuit._find_branch, Circuit.branch_data.
  rewrite Hsc.
  set (fits := fun b : Circuit.Branch =>
     bool_decide ((Circuit.branch_nodes branch).1
                    ∈ [(Circuit.branch_nodes b).1; (Circuit.branch_nodes b).2])
     && bool_decide ((Circuit.branch_nodes branch).2
                       ∈ [(Circuit.branch_nodes b).1; (Circuit.branch_nodes b).2])
     && String.eqb (Circuit.branch_type b) (Circuit.branch_type branch)
     && Circuit.dict_eqb (Circuit.stored_params (Circuit.parameters branch))
                         (Circuit.stored_params (Circuit.parameters b))).
  assert (Hself : fits branch = true).
  { unfold fits. rewrite !andb_true_iff. repeat split.
    - apply bool_decide_eq_true. left.
    - apply bool_decide_eq_true. right. left.
    - apply String.eqb_refl.
    - apply dict_eqb_refl. unfold Circuit.stored_params.
      rewrite map_map. simpl. exact Hnd. }
  destruct (List.find fits (Circuit.branches sc)) as [found|] eqn:Hfind.
  - apply find_some in Hfind as [Hfin Hfits].
    exists found. split; [reflexivity|]. split; [exact Hfin|].
    unfold fits in Hfits. rewrite !andb_true_iff in Hfits.
    destruct Hfits as [[[H1 H2] H3] H4].
    apply bool_decide_eq_true in H1, H2. apply String.eqb_eq in H3.
    repeat split; try assumption.
    intros Honly. apply (Honly found Hfin); assumption.
  - exfalso. pose proof (find_none _ _ Hfind branch Hin). congruence.
Qed.

End circuit_reading_properties.

(** ** Noise channels, oscillator subsystems, stale attributes *)

(** Facts about a list of channel names that is written out. *)
Ltac channel_fact :=
  match goal with
  | |- NoDup _ => apply (bool_decide_unpack _); vm_compute; exact I
  | |- _ ∈ _ => apply (bool_decide_unpack _); vm_compute; exact I
  | |- _ = _ => reflexivity
  | |- _ <-> _ =>
      let H := fresh "H" in
      split; intros H;
      first [ discriminate
            | reflexivity
            | exfalso; apply H; reflexivity
            | congruence
            | apply (bool_decide_unpack _); vm_compute; exact I
            | exfalso; apply (bool_decide_pack _) in H; vm_compute in H; exact H
            | split; first [discriminate | reflexivity]
            | destruct H as [? ?]; first [congruence | exfalso; auto] ]
  end.

Section noise_channels.
Context {Sym : Type}.
Import Noise.

(** The list of supported noise channels names no channel twice and always
    has the two capacitive channels; the two flux channels are in it
    exactly when there is an external flux, and the charge-noise channel of
    the critical current exactly when the circuit is not purely harmonic.
    The warning is issued exactly when there is an external flux and the
    flux is static. The effective channels are the supported ones without
    [t1_charge_impedance], in the same order, with the same warning. *)
Theorem noise_channels_are_listed_once (self : View Sym) issued channels :
  supported_noise_channels self = (issued, inr channels) ->
  NoDup channels
  /\ "t1_capacitive"%string ∈ channels
  /\ "t1_charge_impedance"%string ∈ channels
  /\ ("tphi_1_over_f_flux"%string ∈ channels <-> external_fluxes self ≠ [])
  /\ ("t1_flux_bias_line"%string ∈ channels <-> external_fluxes self ≠ [])
  /\ ("tphi_1_over_f_ng"%string ∈ channels <-> offset_charges self ≠ [])
  /\ ("tphi_1_over_f_cc"%string ∈ channels <-> is_purely_harmonic self = false)
  /\ (issued = [FluxNoiseNeedsDynamicFlux]
      <-> external_fluxes self ≠ [] /\ symbolic_circuit_is_flux_dynamic self = Some false)
  /\ effective_noise_channels self
     = (issued,
        inr (filter (fun c => c ≠ "t1_charge_impedance"%string) channels)).
Proof.
  unfold effective_noise_channels, supported_noise_channels.
  destruct (filter _ (branches self)) as [|b bs];
    destruct (offset_charges self) as [|c cs];
    destruct (external_fluxes self) as [|f fs];
    destruct (symbolic_circuit_is_flux_dynamic self) as [[|]|];
    destruct (is_purely_harmonic self);
    simpl; intros [= <- <-] || discriminate;
    repeat match goal with |- _ /\ _ => split end; channel_fact.
Qed.

End noise_channels.

Lemma noise_channels_are_listed_once_witness :
  Noise.effective_noise_channels (Noise.mkView (Sym := unit) [] [] [tt] (Some false) false)
  = ([Noise.FluxNoiseNeedsDynamicFlux],
     inr ["t1_capacitive"; "tphi_1_over_f_flux"; "t1_flux_bias_line";
          "tphi_1_over_f_cc"]%string).
Proof.
  destruct (noise_channels_are_listed_once
              (Noise.mkView (Sym := unit) [] [] [tt] (Some false) false)
              _ _ eq_refl) as (_ & _ & _ & _ & _ & _ & _ & _ & H).
  rewrite H. reflexivity.
Defined.


Section oscillator_subsystems.
Context {Expr X : Type}.
Import SubsystemLists.

(** A subsystem that [oscillator_list] accepts. *)
Let accepted (subsystems : list (Subsystem.t Expr X)) (index : Z)
    (subsystem : Subsystem.t Expr X) : Prop :=
  py_index subsystems index = Some subsystem
  /\ Subsystem.is_purely_harmonic subsystem = true
  /\ exists i, lookup_category "extended" (Subsystem.var_categories subsystem) = Some [i].

Lemma collect_oscillators_returns (subsystems : list (Subsystem.t Expr X))
    (osc_index_list : list Z) (acc result : list (Subsystem.t Expr X)) :
  collect_oscillators subsystems osc_index_list acc = inr result ->
  exists chosen,
    result = acc ++ chosen /\ Forall2 (accepted subsystems) osc_index_list chosen.
Proof.
  revert acc. induction osc_index_list as [|index rest IH]; intros acc; simpl.
  - intros [= <-]. exists []. rewrite app_nil_r. split; [reflexivity | constructor].
  - destruct (py_index subsystems index) as [subsystem|] eqn:Hidx; [|discriminate].
    destruct (Subsystem.is_purely_harmonic subsystem) eqn:Hph; [|discriminate]. simpl.
    destruct (lookup_category "extended" (Subsystem.var_categories subsystem))
      as [extended|] eqn:Hext; [|discriminate].
    destruct (Nat.eqb_spec (length extended) 1) as [Hlen|]; [|discriminate]. simpl.
    intros Hrun. apply IH in Hrun as (chosen & -> & Hall).
    exists (subsystem :: chosen). split; [rewrite <- app_assoc; reflexivity|].
    constructor; [|exact Hall].
    split; [exact Hidx|]. split; [exact Hph|].
    destruct extended as [|i [|j l]]; try discriminate. eauto.
Qed.

Lemma collect_qubits_returns (subsystems : list (Subsystem.t Expr X))
    (qbt_index_list : list Z) (acc result : list (Subsystem.t Expr X)) :
  collect_qubits subsystems qbt_index_list acc = inr result ->
  exists chosen,
    result = acc ++ chosen
    /\ Forall2 (fun index subsystem => py_index subsystems index = Some subsystem)
               qbt_index_list chosen.
Proof.
  revert acc. induction qbt_index_list as [|index rest IH]; intros acc; simpl.
  - intros [= <-]. exists []. rewrite app_nil_r. split; [reflexivity | constructor].
  - destruct (py_index subsystems index) as [subsystem|] eqn:Hidx; [|discriminate].
    intros Hrun. apply IH in Hrun as (chosen & -> & Hall).
    exists (subsystem :: chosen). split; [rewrite <- app_assoc; reflexivity|].
    constructor; assumption.
Qed.

(** [oscillator_list] either raises and leaves the lists of the Hilbert
    space as they were, or stores for each index, in order, the subsystem
    at that index (an index below zero counted from the end), each of them
    purely harmonic with exactly one extended variable; the list of the
    qubit subsystems is not touched. [qubit_list] stores the subsystems at
    its indices without a test. *)
Theorem oscillator_list_checks_before_it_stores (index_list : list Z)
    (self : SubsystemLists.t Expr X) :
  match oscillator_list index_list self with
  | (self', inl _) => self' = self
  | (self', inr _) =>
      subsystems self' = subsystems self
      /\ _qbt_subsys_list self' = _qbt_subsys_list self
      /\ Forall2 (fun index subsystem =>
                    py_index (subsystems self) index = Some subsystem
                    /\ Subsystem.is_purely_harmonic subsystem = true
                    /\ exists i,
                         lookup_category "extended" (Subsystem.var_categories subsystem)
                         = Some [i])
                 index_list (_osc_subsys_list self')
  end
  /\ match qubit_list index_list self with
     | (self', inl _) => self' = self
     | (self', inr _) =>
         subsystems self' = subsystems self
         /\ _osc_subsys_list self' = _osc_subsys_list self
         /\ Forall2 (fun index subsystem =>
                       py_index (subsystems self) index = Some subsystem)
                    index_list (_qbt_subsys_list self')
     end.
Proof.
  split.
  - unfold oscillator_list.
    destruct (collect_oscillators (subsystems self) index_list []) as [e|result] eqn:Hrun;
      [reflexivity|].
    apply collect_oscillators_returns in Hrun as (chosen & -> & Hall).
    simpl. auto.
  - unfold qubit_list.
    destruct (collect_qubits (subsystems self) index_list []) as [e|result] eqn:Hrun;
      [reflexivity|].
    apply collect_qubits_returns in Hrun as (chosen & -> & Hall).
    simpl. auto.
Qed.

End oscillator_subsystems.

Section stale_attributes.
Context {V : Type}.
Import Attribs.

(** [_clear_unnecessary_attribs] deletes nothing that it would not delete
    again: a second call changes nothing. It keeps every attribute whose
    name after the first character is a name in use, and every attribute
    whose name has none of the marks [cutoff_n_], [Φ], [cutoff_ext_] and
    no [ng] after the first character; an attribute with one of these
    marks that is left is in use. *)
Theorem clearing_attributes_keeps_what_is_in_use
    (cutoff_names flux_names charge_names : list pystr) (attribs : gmap pystr V) :
  let necessary := necessary_attrib_names cutoff_names flux_names charge_names in
  let cleared := _clear_unnecessary_attribs cutoff_names flux_names charge_names attribs in
  _clear_unnecessary_attribs cutoff_names flux_names charge_names cleared = cleared
  /\ (forall attrib, tail attrib ∈ necessary -> cleared !! attrib = attribs !! attrib)
  /\ (forall attrib,
        occurs_in (pystr_of "cutoff_n_") attrib = false ->
        occurs_in [OperatorNames.Phi] attrib = false ->
        occurs_in (pystr_of "cutoff_ext_") attrib = false ->
        firstn 2 (tail attrib) ≠ pystr_of "ng" ->
        cleared !! attrib = attribs !! attrib)
  /\ (forall attrib value,
        cleared !! attrib = Some value ->
        attribs !! attrib = Some value
        /\ (occurs_in (pystr_of "cutoff_n_") attrib = true
            \/ occurs_in [OperatorNames.Phi] attrib = true
            \/ occurs_in (pystr_of "cutoff_ext_") attrib = true
            \/ firstn 2 (tail attrib) = pystr_of "ng" ->
            tail attrib ∈ necessary)).
Proof.
  cbv zeta. unfold _clear_unnecessary_attribs.
  set (necessary := necessary_attrib_names cutoff_names flux_names charge_names).
  assert (Hlook : forall attrib,
            filter (fun kv : pystr * V => is_cleared necessary kv.1 = false) attribs !! attrib
            = if is_cleared necessary attrib then None else attribs !! attrib).
  { intros attrib. destruct (is_cleared necessary attrib) eqn:Hc.
    - apply map_lookup_filter_None. right. intros value _. simpl. congruence.
    - destruct (attribs !! attrib) as [value|] eqn:Ha.
      + apply map_lookup_filter_Some. auto.
      + apply map_lookup_filter_None. left. exact Ha. }
  split; [|split; [|split]].
  - apply map_eq. intros attrib.
    destruct (is_cleared necessary attrib) eqn:Hc.
    + rewrite Hlook, Hc. apply map_lookup_filter_None. right.
      intros value _. simpl. congruence.
    + destruct (filter _ attribs !! attrib) as [value|] eqn:Ha.
      * apply map_lookup_filter_Some. auto.
      * apply map_lookup_filter_None. left. exact Ha.
  - intros attrib Hin. rewrite Hlook. unfold is_cleared.
    rewrite (bool_decide_eq_true_2 _ Hin). reflexivity.
  - intros attrib H1 H2 H3 H4. rewrite Hlook. unfold is_cleared.
    rewrite H1, H2, H3, (bool_decide_eq_false_2 _ H4), andb_false_r. reflexivity.
  - intros attrib value. rewrite Hlook.
    destruct (is_cleared necessary attrib) eqn:Hc; [discriminate|].
    intros Ha. split; [exact Ha|]. intros Hmark.
    unfold is_cleared in Hc. apply andb_false_iff in Hc as [Hc | Hc].
    + apply negb_false_iff, bool_decide_eq_true in Hc. exact Hc.
    + exfalso. rewrite !orb_false_iff in Hc. destruct Hc as [[[H1 H2] H3] H4].
      apply bool_decide_eq_false in H4.
      destruct Hmark as [H | [H | [H | H]]]; congruence.
Qed.

End stale_attributes.

(** The slot [_cutoff_n_2] of a cutoff that is not in use any more is
    deleted; the slot [_cutoff_n_1] of one in use, [cutoff_names] and
    [system_hierarchy] stay. *)
Example clearing_attributes_of_a_circuit :
  let necessary :=
    Attribs.necessary_attrib_names [Attribs.pystr_of "cutoff_n_1"] [] [] in
  Attribs.is_cleared necessary (Attribs.pystr_of "_cutoff_n_2") = true
  /\ Attribs.is_cleared necessary (Attribs.pystr_of "_cutoff_n_1") = false
  /\ Attribs.is_cleared necessary (Attribs.pystr_of "cutoff_names") = false
  /\ Attribs.is_cleared necessary (Attribs.pystr_of "system_hierarchy") = false.
Proof. vm_compute. auto. Qed.

(** ** A circuit made from a symbolic Hamiltonian *)

Section symbolic_construction.
Context {Expr X : Type} (env : Circuit.Env Expr X).
Import Circuit.

Lemma _configure_sym_hamiltonian_reads_categories sh td (s s' : t Expr X) u :
  _configure_sym_hamiltonian env sh td s = (s', inr u) ->
  var_categories s' = _read_symbolic_hamiltonian env (hamiltonian_symbolic s)
  /\ hamiltonian_symbolic s' = hamiltonian_symbolic s
  /\ symbolic_circuit s' = symbolic_circuit s.
Proof.
  intros Hrun. unfold _configure_sym_hamiltonian in Hrun.
  apply bind_returns in Hrun as (? & self & Hget & Hrun).
  apply get_returns in Hget as [-> ->]. cbv zeta in Hrun.
  apply bind_returns in Hrun as (s1 & [] & Hm1 & Hrun). apply modify_returns in Hm1.
  apply bind_returns in Hrun as (s2 & [] & Hm2 & Hrun). apply modify_returns in Hm2.
  apply bind_returns in Hrun as (s3 & [] & Hm3 & Hrun). apply modify_returns in Hm3.
  set (I := fun x : t Expr X =>
              var_categories x = _read_symbolic_hamiltonian env (hamiltonian_symbolic s)
              /\ hamiltonian_symbolic x = hamiltonian_symbolic s
              /\ symbolic_circuit x = symbolic_circuit s).
  assert (HI : I s3) by (subst s3 s2 s1; unfold I; simpl; auto).
  clear Hm1 Hm2 Hm3.
  do 2 keep_step Hrun I HI.
  eapply (maintains_run I) in Hrun;
    [|circuit_maintains ltac:(simpl in *; auto; tauto) | exact HI].
  exact Hrun.
Qed.

End symbolic_construction.

Section symbolic_construction_properties.
Context {Expr X : Type}.

(** A circuit is made from a symbolic Hamiltonian only with a dictionary of
    parameters: without one the constructor ends in a [TypeError]. With
    [initiate_sym_calc] it cannot be made from a Hamiltonian that is purely
    harmonic. An instance that is made has no symbolic circuit; after its
    first [configure] its categories are those read from the names of the
    Hamiltonian, it has no hierarchy, and its basis is the one asked for. *)
Theorem circuit_from_a_symbolic_hamiltonian (env : Circuit.Env Expr X)
    (symbolic_hamiltonian : Expr) (symbolic_param_dict : option (list (pystr * R)))
    (initiate_sym_calc : bool) (truncated_dim : Z) (ext_basis : ExtBasis) :
  (symbolic_param_dict = None ->
   SymbolicInit._init_from_symbolic_hamiltonian env symbolic_hamiltonian
     symbolic_param_dict initiate_sym_calc truncated_dim ext_basis = inl Py.TypeError)
  /\ (initiate_sym_calc = true ->
      Circuit._is_expression_purely_harmonic env symbolic_hamiltonian = true ->
      exists e,
        SymbolicInit._init_from_symbolic_hamiltonian env symbolic_hamiltonian
          symbolic_param_dict initiate_sym_calc truncated_dim ext_basis = inl e)
  /\ (forall self,
        SymbolicInit._init_from_symbolic_hamiltonian env symbolic_hamiltonian
          symbolic_param_dict initiate_sym_calc truncated_dim ext_basis = inr self ->
        Circuit.symbolic_circuit self = None
        /\ Circuit.hamiltonian_symbolic self = symbolic_hamiltonian
        /\ (initiate_sym_calc = true ->
            Circuit.var_categories self
            = Circuit._read_symbolic_hamiltonian env symbolic_hamiltonian
            /\ Circuit.hierarchical_diagonalization self = false
            /\ Circuit.system_hierarchy self = None
            /\ Circuit.is_purely_harmonic self = false
            /\ Circuit.ext_basis self = ext_basis)).
Proof.
  unfold SymbolicInit._init_from_symbolic_hamiltonian.
  set (fresh := Circuit.mk None symbolic_hamiltonian None None None None [] [] ext_basis
                  false false sparse ∅ truncated_dim None [] (Circuit.fresh_state env)).
  split; [intros ->; reflexivity|].
  assert (Hmade : forall self,
            match symbolic_param_dict with
            | None => inl Py.TypeError
            | Some _ =>
                match Py.bind (if initiate_sym_calc
                               then Circuit.configure env None None None None
                               else Py.ret tt)
                        (fun _ => Circuit.call env Py.dispatch_register) fresh with
                | (self', inr _) => inr self'
                | (_, inl e) => inl e
                end
            end = inr self ->
            exists s1 x u,
              (if initiate_sym_calc then Circuit.configure env None None None None
               else Py.ret tt) fresh = (s1, inr u)
              /\ self = Circuit.upd_routines_state x s1).
  { intros self. destruct symbolic_param_dict; [|discriminate].
    destruct (Py.bind _ _ fresh) as [s2 [e|u]] eqn:Hrun; [discriminate|].
    intros [= <-]. apply bind_returns in Hrun as (s1 & u1 & Hfirst & Hcall).
    apply circuit_call_returns in Hcall as (x & ->). eauto. }
  split.
  - intros -> Hharmonic.
    destruct symbolic_param_dict; [|eauto].
    destruct (Py.bind _ _ fresh) as [s2 [e|u]] eqn:Hrun; [eauto|].
    exfalso. apply bind_returns in Hrun as (s1 & u1 & Hfirst & _).
    apply configure_returns_from_body in Hfirst. simpl in Hfirst.
    apply (_configure_sym_hamiltonian_returns env None None fresh s1 u1 eq_refl)
      in Hfirst as (Hph & _).
    simpl in Hph. congruence.
  - intros self Hself. apply Hmade in Hself as (s1 & x & u & Hfirst & ->). simpl.
    destruct initiate_sym_calc.
    + apply configure_returns_from_body in Hfirst. simpl in Hfirst.
      pose proof (_configure_sym_hamiltonian_reads_categories env _ _ _ _ _ Hfirst)
        as (Hvc & HH & Hsc).
      pose proof (_configure_sym_hamiltonian_returns env None None fresh s1 u
                    eq_refl Hfirst) as (_ & Hph & Hbasis & _).
      pose proof (configure_body_stores_hierarchy env None None None None fresh s1 u)
        as Hstored.
      simpl in Hstored. specialize (Hstored Hfirst). destruct Hstored as (Hhd & Hsh & _).
      simpl in *. repeat split; auto.
    + apply ret_returns in Hfirst as [-> _]. simpl.
      repeat split; auto. discriminate.
Qed.

End symbolic_construction_properties.

(** ** The lowering operator ([transmon_vchos_unordered.py]) *)

Section lowering_operator.
Import DiagonalOps TransmonVCHOSUnordered.

Lemma length_range (lo hi : Z) : length (range lo hi) = Z.to_nat (hi - lo).
Proof. unfold range. rewrite length_map, length_seq. reflexivity. Qed.

Lemma entry_diag_above (v : list R) (i j : nat) :
  (i < S (length v))%nat -> (j < S (length v))%nat ->
  entry 0%R (diag_above v) i j = if Nat.eqb j (S i) then nth i v 0%R else 0%R.
Proof. intros Hi Hj. unfold diag_above. apply entry_tabulate; assumption. Qed.

Lemma entry_a_operator (self : t) (i j : nat) :
  (i < S (Z.to_nat (num_exc self)))%nat -> (j < S (Z.to_nat (num_exc self)))%nat ->
  entry 0%R (a_operator self) i j = if Nat.eqb j (S i) then sqrt (INR j) else 0%R.
Proof.
  intros Hi Hj. unfold a_operator. cbv zeta.
  assert (Hlen : length (map (fun num => sqrt (IZR num)) (range 1 (num_exc self + 1)))
                 = Z.to_nat (num_exc self)).
  { rewrite length_map, length_range. f_equal. lia. }
  rewrite entry_diag_above by (rewrite Hlen; assumption).
  destruct (Nat.eqb_spec j (S i)) as [->|]; [|reflexivity].
  unfold range.
  replace (Z.to_nat (num_exc self + 1 - 1)) with (Z.to_nat (num_exc self)) by lia.
  rewrite map_map. rewrite nth_map_seq by lia.
  rewrite INR_IZR_INZ. do 2 f_equal. lia.
Qed.

Lemma a_operator_shape (self : t) :
  nrows (a_operator self) = S (Z.to_nat (num_exc self))
  /\ ncols (a_operator self) = S (Z.to_nat (num_exc self)).
Proof.
  unfold a_operator, diag_above. cbv zeta.
  rewrite nrows_tabulate, ncols_tabulate_pos by lia.
  rewrite length_map, length_range.
  split; f_equal; lia.
Qed.

Lemma transpose_a_operator (self : t) :
  let n := S (Z.to_nat (num_exc self)) in
  nrows (transpose (a_operator self)) = n
  /\ ncols (transpose (a_operator self)) = n
  /\ forall i j, (i < n)%nat -> (j < n)%nat ->
       entry 0%R (transpose (a_operator self)) i j
       = if Nat.eqb i (S j) then sqrt (INR i) else 0%R.
Proof.
  cbv zeta. destruct (a_operator_shape self) as [Hr Hc].
  unfold transpose. rewrite Hr, Hc.
  rewrite nrows_tabulate, ncols_tabulate_pos by lia.
  split; [reflexivity|]. split; [reflexivity|].
  intros i j Hi Hj. rewrite entry_tabulate by assumption.
  apply entry_a_operator; assumption.
Qed.

(** The matrix of [a_operator] has [sqrt(j)] above the diagonal, in row
    [j - 1] and column [j], for [j] from 1 to [num_exc]; its transpose times
    itself is the number operator [diag(0, 1, ..., num_exc)], and the
    commutator with its transpose is the identity on all levels but the
    last, where it is [- num_exc]. *)
Theorem lowering_operator_counts_the_excitations (self : t) :
  let n := Z.to_nat (num_exc self) in
  let a := a_operator self in
  nrows a = S n
  /\ ncols_are (S n) a
  /\ (forall i j, (i < S n)%nat -> (j < S n)%nat ->
        entry 0%R a i j = if Nat.eqb j (S i) then sqrt (INR j) else 0%R)
  /\ matmul (transpose a) a
     = tabulate (S n) (S n) (fun i j => if Nat.eqb i j then INR i else 0%R)
  /\ map2 Rminus (matmul a (transpose a)) (matmul (transpose a) a)
     = tabulate (S n) (S n)
         (fun i j => if Nat.eqb i j
                     then (if Nat.eqb i n then - INR n else 1)%R
                     else 0%R).
Proof.
  cbv zeta. set (n := Z.to_nat (num_exc self)).
  destruct (a_operator_shape self) as [Hr Hc]. fold n in Hr, Hc.
  destruct (transpose_a_operator self) as (Htr & Htc & Hte). fold n in Htr, Htc, Hte.
  pose proof (entry_a_operator self) as Hae. fold n in Hae.
  assert (Hsq : forall k : nat, (sqrt (INR k) * sqrt (INR k))%R = INR k)
    by (intros k; apply sqrt_sqrt, pos_INR).
  assert (Hnum : matmul (transpose (a_operator self)) (a_operator self)
                 = tabulate (S n) (S n) (fun i j => if Nat.eqb i j then INR i else 0%R)).
  { unfold matmul. rewrite Htr, Hc, Htc.
    apply tabulate_ext. intros i j Hi Hj.
    destruct i as [|k].
    - rewrite Rsum_zero.
      + destruct j; reflexivity.
      + intros l Hl. rewrite Hte by lia. simpl. lra.
    - rewrite (Rsum_single (S n) k);
        [ | lia
          | intros l Hl Hne; rewrite Hte by lia;
            destruct (Nat.eqb_spec (S k) (S l)); [lia | lra] ].
      rewrite Hte, Hae by lia. rewrite Nat.eqb_refl.
      destruct (Nat.eqb_spec j (S k)) as [->|Hne].
      + rewrite Nat.eqb_refl. apply Hsq.
      + destruct (Nat.eqb_spec (S k) j); [lia | lra]. }
  assert (Hden : matmul (a_operator self) (transpose (a_operator self))
                 = tabulate (S n) (S n)
                     (fun i j => if Nat.eqb i j
                                 then (if Nat.ltb i n then INR (S i) else 0)%R
                                 else 0%R)).
  { unfold matmul. rewrite Hr, Htc, Hc.
    apply tabulate_ext. intros i j Hi Hj.
    destruct (Nat.ltb_spec i n) as [Hlt|Hge].
    - rewrite (Rsum_single (S n) (S i));
        [ | lia
          | intros l Hl Hne; rewrite Hae by lia;
            destruct (Nat.eqb_spec l (S i)); [lia | lra] ].
      rewrite Hae, Hte by lia. rewrite Nat.eqb_refl.
      destruct (Nat.eqb_spec i j) as [->|Hne].
      + rewrite Nat.eqb_refl. apply Hsq.
      + destruct (Nat.eqb_spec (S i) (S j)); [lia | lra].
    - rewrite Rsum_zero.
      + destruct (Nat.eqb i j); reflexivity.
      + intros l Hl. rewrite Hae by lia.
        destruct (Nat.eqb_spec l (S i)); [lia | lra]. }
  split; [exact Hr|]. split.
  { unfold a_operator, diag_above. cbv zeta.
    assert (S (length (map (fun num => sqrt (IZR num)) (range 1 (num_exc self + 1))))
            = S n) as ->.
    { rewrite length_map, length_range. unfold n. f_equal. lia. }
    apply ncols_tabulate. }
  split; [exact Hae|]. split; [exact Hnum|].
  rewrite Hden, Hnum, map2_tabulate. apply tabulate_ext. intros i j Hi Hj.
  destruct (Nat.eqb_spec i j) as [->|]; [|lra].
  destruct (Nat.ltb_spec j n) as [Hlt|Hge].
  - destruct (Nat.eqb_spec j n); [lia|]. rewrite S_INR. lra.
  - destruct (Nat.eqb_spec j n) as [->|]; [lra | lia].
Qed.

End lowering_operator.

(** ** The number field and its slider ([gui_custom_widgets.py]) *)

Section number_field.
Import Widgets.

(** [is_entry_valid] accepts an entry exactly when it has the form of a
    number and the value stored before, [num_value], is within the bounds:
    the entry itself is not compared with the bounds. An accepted entry is
    stored as the new [num_value]; a refused one leaves [num_value] as it
    was and sets the error state. The entry and the bounds are not
    changed. *)
Theorem number_field_tests_the_stored_value
    (_typecheck_func : pystr -> bool) (_type : pystr -> pyfloat) (self : NumberField) :
  let result := is_entry_valid _typecheck_func _type self in
  (result.2 = true
   <-> _typecheck_func (v_model self) = true
       /\ below (v_min self) (num_value self) = false
       /\ above (v_max self) (num_value self) = false)
  /\ (result.2 = true ->
      num_value result.1 = _type (v_model self) /\ error result.1 = false)
  /\ (result.2 = false ->
      num_value result.1 = num_value self /\ error result.1 = true)
  /\ v_model result.1 = v_model self
  /\ v_min result.1 = v_min self
  /\ v_max result.1 = v_max self.
Proof.
  cbv zeta. unfold is_entry_valid, _num_value.
  destruct (_typecheck_func (v_model self));
    destruct (below (v_min self) (num_value self));
    destruct (above (v_max self) (num_value self)); simpl;
    repeat split; intros; try discriminate; try tauto;
    match goal with H : _ /\ _ |- _ => destruct H as (? & ? & ?); discriminate end.
Qed.

(** [update_slider] leaves the slider alone in the error state and never
    changes its bounds. Otherwise it colours the slider red exactly when
    the value is above the upper or below the lower bound, and moves it to
    that bound; a value for which neither comparison holds is written to the
    slider without a colour. For a value and bounds that are not NaN, with
    the lower bound not above the upper one, the slider ends within its
    range; NaN passes both comparisons and is written to the slider. *)
Theorem update_slider_stays_in_range (error : bool) (num_value : pyfloat)
    (slider : Slider) :
  let slider' := update_slider error num_value slider in
  slider_min slider' = slider_min slider
  /\ slider_max slider' = slider_max slider
  /\ (error = true -> slider' = slider)
  /\ (error = false ->
      (slider_color slider' = "red"%string
       <-> fgt num_value (slider_max slider) = true
           \/ flt num_value (slider_min slider) = true)
      /\ (slider_color slider' <> "red"%string -> slider_color slider' = EmptyString)
      /\ (fgt num_value (slider_max slider) = true ->
          slider_v_model slider' = slider_max slider)
      /\ (fgt num_value (slider_max slider) = false ->
          flt num_value (slider_min slider) = true ->
          slider_v_model slider' = slider_min slider)
      /\ (fgt num_value (slider_max slider) = false ->
          flt num_value (slider_min slider) = false ->
          slider_v_model slider' = num_value)
      /\ (num_value = NaN ->
          slider_v_model slider' = NaN /\ slider_color slider' = EmptyString)
      /\ (num_value <> NaN -> slider_min slider <> NaN -> slider_max slider <> NaN ->
          fgt (slider_min slider) (slider_max slider) = false ->
          slider_v_model slider' <> NaN
          /\ flt (slider_v_model slider') (slider_min slider) = false
          /\ fgt (slider_v_model slider') (slider_max slider) = false)).
Proof.
  cbv zeta. unfold update_slider. destruct error.
  { repeat split; try reflexivity; discriminate. }
  split; [destruct (fgt num_value (slider_max slider)),
                   (flt num_value (slider_min slider)); reflexivity|].
  split; [destruct (fgt num_value (slider_max slider)),
                   (flt num_value (slider_min slider)); reflexivity|].
  split; [discriminate|]. intros _.
  split.
  { destruct (fgt num_value (slider_max slider)), (flt num_value (slider_min slider));
      simpl; split; intros H; auto; try discriminate H; destruct H; discriminate. }
  split.
  { destruct (fgt num_value (slider_max slider)), (flt num_value (slider_min slider));
      simpl; intros H; auto; contradiction H; reflexivity. }
  split; [intros ->; reflexivity|].
  split; [intros -> ->; reflexivity|].
  split; [intros -> ->; reflexivity|].
  split.
  { intros ->. unfold fgt, flt. destruct (slider_max slider), (slider_min slider);
      simpl; auto. }
  intros Hv Hmin Hmax Hrange. unfold fgt in *.
  destruct num_value as [|v| |]; [| | |contradiction];
    destruct (slider_min slider) as [|lo| |]; try contradiction;
    destruct (slider_max slider) as [|hi| |]; try contradiction;
    simpl in *; try discriminate Hrange;
    repeat match goal with
           | |- context [Rlt_dec ?a ?b] => destruct (Rlt_dec a b)
           | H : context [Rlt_dec ?a ?b] |- _ => destruct (Rlt_dec a b)
           end; simpl; try discriminate Hrange;
    repeat split; try discriminate; try reflexivity;
    repeat match goal with
           | |- context [Rlt_dec ?a ?b] => destruct (Rlt_dec a b)
           end; try reflexivity; try lra.
Qed.

(** NaN in a field with the range from 0 to 1: the slider receives NaN and
    is not coloured. *)
Example update_slider_with_nan :
  update_slider false NaN (mkSlider (Num 0) (Num 1) "red" (Num 0))
  = mkSlider (Num 0) (Num 1) EmptyString NaN.
Proof. reflexivity. Qed.

(** The value 2 in a field with the range from 0 to 1. *)
Lemma update_slider_stays_in_range_witness :
  slider_v_model (update_slider false (Num 2) (mkSlider (Num 0) (Num 1) EmptyString (Num 0)))
  = Num 1.
Proof.
  apply (update_slider_stays_in_range false (Num 2)
           (mkSlider (Num 0) (Num 1) EmptyString (Num 0))); [reflexivity|].
  unfold fgt, flt. simpl. destruct (Rlt_dec 1 2); [reflexivity|lra].
Defined.

End number_field.

(** ** The results of [configure] and of the constructors on the small circuit *)

Section results_on_the_small_circuit.
Import Toy.

Lemma configure_stores_what_is_in_force_witness :
  Circuit.configure (circuit_env false) None (Some one_by_one) (Some dims_3_3) None
                    plain_circuit
  = (hierarchical_circuit, inr tt)
  /\ Circuit.system_hierarchy hierarchical_circuit = Some one_by_one
  /\ Circuit.subsystem_trunc_dims hierarchical_circuit = Some dims_3_3.
Proof.
  assert (Hrun : Circuit.configure (circuit_env false) None (Some one_by_one)
                   (Some dims_3_3) None plain_circuit
                 = (hierarchical_circuit, inr tt)) by (vm_compute; reflexivity).
  split; [exact Hrun|].
  destruct (configure_stores_what_is_in_force (circuit_env false) _ _ _ _ _ _ _ Hrun)
    as (_ & Hon & _).
  destruct (Hon eq_refl) as (Hsh & Htd & _). split; [exact Hsh | exact Htd].
Defined.

(** Passing the empty hierarchy to the circuit with the hierarchy
    [[[1], [2]]] leaves hierarchical diagonalization on. *)
Lemma empty_hierarchy_keeps_hierarchical_diagonalization_witness :
  Circuit.hierarchical_diagonalization
    (Circuit.configure (circuit_env false) None (Some []) None None hierarchical_circuit).1
  = true.
Proof.
  assert (Hrun : Circuit.configure (circuit_env false) None (Some []) None None
                                   hierarchical_circuit
                 = ((Circuit.configure (circuit_env false) None (Some []) None None
                                       hierarchical_circuit).1, inr tt))
    by (vm_compute; reflexivity).
  refine (proj1 (empty_hierarchy_keeps_hierarchical_diagonalization (circuit_env false)
                   None (Some []) None None hierarchical_circuit _ tt eq_refl _ Hrun)).
  exists one_by_one. split; [reflexivity|]. split; [discriminate | vm_compute; lia].
Defined.

Lemma configure_completes_the_phi_ranges_witness :
  Circuit.discretized_phi_range
    (Circuit.configure (circuit_env false) None None None None one_extended_variable).1
    !! 1%Z
  = Some Circuit.default_phi_range.
Proof.
  assert (Hrun : Circuit.configure (circuit_env false) None None None None
                                   one_extended_variable
                 = ((Circuit.configure (circuit_env false) None None None None
                                       one_extended_variable).1, inr tt))
    by (vm_compute; reflexivity).
  destruct (configure_completes_the_phi_ranges (circuit_env false) _ _ _ _ _ _ _ Hrun)
    as (extended & Hext & _ & Hd).
  rewrite Hd. vm_compute in Hext. injection Hext as <-. reflexivity.
Defined.

Lemma set_discretized_phi_range_stores_the_range_witness :
  Circuit.discretized_phi_range
    (Circuit.set_discretized_phi_range (circuit_env false) [1%Z] (0%R, 1%R)
                                       one_extended_variable).1 !! 1%Z
  = Some (0%R, 1%R).
Proof.
  assert (Hrun : Circuit.set_discretized_phi_range (circuit_env false) [1%Z] (0%R, 1%R)
                   one_extended_variable
                 = ((Circuit.set_discretized_phi_range (circuit_env false) [1%Z]
                       (0%R, 1%R) one_extended_variable).1, inr tt))
    by (vm_compute; reflexivity).
  destruct (set_discretized_phi_range_stores_the_range (circuit_env false) _ _ _ _ _ Hrun)
    as (_ & _ & Hlook & _).
  rewrite Hlook. reflexivity.
Defined.


(** A subsystem whose Hamiltonian names [n2], [Q1], [θ1] and [n1]. *)
Lemma subsystem_indices_are_strictly_sorted_witness :
  exists self,
    Subsystem.__init__ (subsystem_env false) discretized_parent [n2; Q1; theta1; n1]
                       (Some [Int 1]) None (Some 10%Z) = inr self
    /\ Subsystem.var_index_list self = [1%Z; 2%Z]
    /\ NoDup (Subsystem.var_index_list self).
Proof.
  eexists. split; [vm_compute; reflexivity|]. split; [reflexivity|].
  match goal with
  | |- NoDup (Subsystem.var_index_list ?self) =>
      assert (Hinit : Subsystem.__init__ (subsystem_env false) discretized_parent
                        [n2; Q1; theta1; n1] (Some [Int 1]) None (Some 10%Z) = inr self)
        by (vm_compute; reflexivity)
  end.
  exact (proj2 (subsystem_indices_are_strictly_sorted (subsystem_env false)
                  _ _ _ _ _ _ Hinit)).
Defined.

Lemma subsystem_takes_over_cutoffs_and_ranges_witness :
  exists self,
    Subsystem.__init__ (subsystem_env false) discretized_parent [n2; Q1; theta1; n1]
                       (Some [Int 1]) None (Some 10%Z) = inr self
    /\ Subsystem.cutoff_ext 1 ∈ Subsystem.cutoff_names self.
Proof.
  eexists. split; [vm_compute; reflexivity|].
  match goal with
  | |- _ ∈ Subsystem.cutoff_names ?self =>
      assert (Hinit : Subsystem.__init__ (subsystem_env false) discretized_parent
                        [n2; Q1; theta1; n1] (Some [Int 1]) None (Some 10%Z) = inr self)
        by (vm_compute; reflexivity)
  end.
  destruct (subsystem_takes_over_cutoffs_and_ranges (subsystem_env false)
              _ _ _ _ _ _ Hinit) as [Hcut _].
  apply (Hcut 1%Z). left.
Defined.

(** A circuit with one junction between the nodes 1 and 2. *)
Lemma find_branch_recovers_a_stored_branch_witness :
  exists found,
    Circuit._find_branch
      (Circuit.upd_symbolic_circuit
         (Some (Circuit.mkSym false "heuristic" [] [1%Z; 2%Z]
                  [Circuit.mkBranch (1%Z, 2%Z) "JJ"
                     [("EJ"%string, Circuit.Symbol [69%N; 74%N])]]
                  (Some identity1) (Some []) two_island_categories false [n1; n2]))
         plain_circuit)
      (Circuit.branch_data
         (Circuit.mkBranch (1%Z, 2%Z) "JJ" [("EJ"%string, Circuit.Symbol [69%N; 74%N])]))
    = Some found
    /\ Circuit.branch_type found = "JJ"%string.
Proof.
  destruct (find_branch_recovers_a_stored_branch
              (Circuit.upd_symbolic_circuit
                 (Some (Circuit.mkSym false "heuristic" [] [1%Z; 2%Z]
                          [Circuit.mkBranch (1%Z, 2%Z) "JJ"
                             [("EJ"%string, Circuit.Symbol [69%N; 74%N])]]
                          (Some identity1) (Some []) two_island_categories false [n1; n2]))
                 plain_circuit)
              _ (Circuit.mkBranch (1%Z, 2%Z) "JJ"
                   [("EJ"%string, Circuit.Symbol [69%N; 74%N])])
              eq_refl ltac:(left; reflexivity) ltac:(repeat constructor; inversion 1))
    as (found & Hfound & _ & Htype & _).
  exists found. split; [exact Hfound | exact Htype].
Defined.

End results_on_the_small_circuit.
